(** * pl_tools.canvas: conversion of a Canvas quiz into a PrairieLearn assessment

    A shallow embedding of [src/pl_tools/canvas.py] and the properties of
    its reconciler, sanitizer, image extractor, renderer and assembler.

    Conventions of the embedding:
    - a Python [str] is a list of characters ([str]);
    - a JSON integer is a [Z], a JSON number that the code computes with is
      a [number] (an integer or a rational standing for a float);
    - a Python [dict] is an association list in insertion order, updated
      in place when the key is already present;
    - a call that can raise returns an [outcome]; loops that Python writes
      as [while True] take fuel and return [Fuel] when it runs out;
    - the network and the operator are explicit arguments: [get] maps a
      URL to the response the server gives, the operator's replies are a
      list of lines consumed by [input]. *)

From Stdlib Require Import ZArith QArith Qabs List Bool Ascii String Lia.
From Stdlib Require Import Permutation Sorted.
From Stdlib Require Import DecimalString.
Import ListNotations.

Open Scope Z_scope.

(** ** Characters and strings *)

Definition str := list ascii.

Definition lit (s : string) : str := list_ascii_of_string s.
Arguments lit : simpl never.

Definition dquote : ascii := Eval cbv in ascii_of_nat 34.
Definition newline : ascii := Eval cbv in ascii_of_nat 10.
Definition dq : str := [dquote].
Definition nl : str := [newline].

Definition ascii_eqb (a b : ascii) : bool := Ascii.eqb a b.
Arguments ascii_eqb : simpl never.

Fixpoint str_eqb (a b : str) : bool :=
  match a, b with
  | [], [] => true
  | x :: a', y :: b' => ascii_eqb x y && str_eqb a' b'
  | _, _ => false
  end.

(** [s.startswith(p)] *)
Fixpoint startswith (p s : str) : bool :=
  match p, s with
  | [], _ => true
  | x :: p', y :: s' => ascii_eqb x y && startswith p' s'
  | _ :: _, [] => false
  end.

(** [p in s] for strings *)
Fixpoint occurs (p s : str) : bool :=
  startswith p s ||
  match s with
  | [] => false
  | _ :: s' => occurs p s'
  end.

(** [str(n)] for a Python int *)
Definition str_of_Z (z : Z) : str :=
  lit (NilEmpty.string_of_int (Z.to_int z)).
Arguments str_of_Z : simpl never.

(** ** Outcomes of calls that may raise *)

Inductive exn : Type :=
| HTTPError      (* requests: raise_for_status on a non-2xx response *)
| KeyError       (* missing dict key *)
| IndexError     (* list index out of range *)
| EOFError       (* input() with no line left *)
| FileExistsError (* os.makedirs on an existing path *)
| ValueError.

Inductive outcome (A : Type) : Type :=
| Ret (a : A)
| Raise (e : exn)
| Fuel.
Arguments Ret {A} a.
Arguments Raise {A} e.
Arguments Fuel {A}.

Definition bind {A B} (m : outcome A) (k : A -> outcome B) : outcome B :=
  match m with
  | Ret a => k a
  | Raise e => Raise e
  | Fuel => Fuel
  end.

Notation "x <- m ;; k" := (bind m (fun x => k))
  (at level 61, m at next level, right associativity).
Notation "' p <- m ;; k" := (bind m (fun x => match x with p => k end))
  (at level 61, p pattern, m at next level, right associativity).

(** ** JSON numbers *)

Inductive number : Type :=
| NInt (z : Z)
| NFloat (q : Q).

Definition Q_of_number (n : number) : Q :=
  match n with
  | NInt z => inject_Z z
  | NFloat q => q
  end.

(** ** Python dicts: insertion-ordered association lists *)

Module Dict.
Definition t (V : Type) := list (Z * V).

Fixpoint get {V} (k : Z) (d : t V) : option V :=
  match d with
  | [] => None
  | (k', v) :: d' => if k =? k' then Some v else get k d'
  end.

(** [d[k] = v]: an existing key keeps its place *)
Fixpoint set {V} (k : Z) (v : V) (d : t V) : t V :=
  match d with
  | [] => [(k, v)]
  | (k', v') :: d' =>
      if k =? k' then (k', v) :: d' else (k', v') :: set k v d'
  end.

Definition keys {V} (d : t V) : list Z := map fst d.
Definition values {V} (d : t V) : list V := map snd d.
End Dict.

(** ** The HTTP layer: [Canvas.request] *)

Record response (A : Type) : Type := mkResponse {
  status_ok : bool;            (* false: raise_for_status raises *)
  resp_json : A;
  link_current : option str;
  link_last : option str;
  link_next : option str
}.
Arguments mkResponse {A}.
Arguments status_ok {A}.
Arguments resp_json {A}.
Arguments link_current {A}.
Arguments link_last {A}.
Arguments link_next {A}.

Definition last_page {A} (r : response A) : bool :=
  match link_current r, link_last r with
  | Some c, Some l => str_eqb c l
  | _, _ => true
  end.

Fixpoint request_loop {A} (get : str -> response A) (stop_at_first : bool)
    (fuel : nat) (resp : response A) (retval : list A) : outcome (list A) :=
  match fuel with
  | O => Fuel
  | S fuel' =>
      if negb (status_ok resp) then Raise HTTPError
      else
        let retval := retval ++ [resp_json resp] in
        if stop_at_first || last_page resp then Ret retval
        else match link_next resp with
             | None => Raise KeyError
             | Some u => request_loop get stop_at_first fuel' (get u) retval
             end
  end.

Definition request {A} (get : str -> response A) (fuel : nat) (url : str)
    : outcome (list A) :=
  request_loop get false fuel (get url) [].

(** ** Wire records *)

Record answer : Type := mkAnswer {
  a_text : str;
  a_weight : number;
  a_blank_id : str;
  a_match_id : Z;
  numerical_answer_type : str;
  a_exact : number;
  a_margin : number;
  a_start : number;
  a_end : number;
  a_approximate : number;
  a_precision : number
}.

Record variable : Type := mkVariable {
  v_name : str;
  v_min : number;
  v_max : number;
  v_scale : Z                  (* 0 when the key is absent *)
}.

Record match_record : Type := mkMatch {
  m_match_id : Z;
  m_text : str
}.

Record question : Type := mkQuestion {
  q_id : Z;
  quiz_group_id : option Z;    (* None is JSON null *)
  position : Z;
  points_possible : number;
  question_type : str;
  question_text : str;
  answers : list answer;
  variables : list variable;
  formulas : list str;         (* the "formula" field of each entry *)
  formula_decimal_places : Z;
  matches : list match_record;
  correct_comments : str;
  neutral_comments : str;
  correct_comments_html : str; (* empty when the key is absent *)
  neutral_comments_html : str
}.

Definition set_position (q : question) (p : Z) : question :=
  mkQuestion (q_id q) (quiz_group_id q) p (points_possible q)
    (question_type q) (question_text q) (answers q) (variables q)
    (formulas q) (formula_decimal_places q) (matches q)
    (correct_comments q) (neutral_comments q)
    (correct_comments_html q) (neutral_comments_html q).

Definition set_points_possible (q : question) (n : number) : question :=
  mkQuestion (q_id q) (quiz_group_id q) (position q) n
    (question_type q) (question_text q) (answers q) (variables q)
    (formulas q) (formula_decimal_places q) (matches q)
    (correct_comments q) (neutral_comments q)
    (correct_comments_html q) (neutral_comments_html q).

(** One alternative of the assessment: [{"id": ..., "points": ...}] *)
Record question_alt : Type := mkAlt {
  alt_id : str;
  alt_points : number
}.

(** The [_pl_alt] wrapper that [main] hangs on a group *)
Record pl_alt : Type := mkPlAlt {
  numberChoose : Z;
  pl_points : number;
  alternatives : list question_alt
}.

Record group : Type := mkGroup {
  g_position : Z;
  question_points : number;
  pick_count : Z;
  g_pl_alt : option pl_alt     (* None until main adds the key *)
}.

(** ** The reconciler: [Quiz.question_group] and [Quiz.questions] *)

Definition is_None {A} (o : option A) : bool :=
  match o with None => true | Some _ => false end.

(** Stable sort by position, as [sorted(d.items(), key=...)] is. *)
Section StableSort.
Context {V : Type} (key : V -> Z).

Fixpoint insert_by (x : Z * V) (l : list (Z * V)) : list (Z * V) :=
  match l with
  | [] => [x]
  | y :: l' =>
      if key (snd x) <=? key (snd y) then x :: y :: l'
      else y :: insert_by x l'
  end.

Definition sorted_by (l : list (Z * V)) : list (Z * V) :=
  fold_right insert_by [] l.

End StableSort.

Record reconciler : Type := mkReconciler {
  r_questions : Dict.t question;
  r_groups : Dict.t group;
  r_i : Z
}.

Section Reconciler.
(** The group endpoint: the body is [None] when it is JSON null or an
    empty object (both falsy), the URL prefix is that of the quiz. *)
Variable get_group : str -> response (option group).
Variable fuel : nat.
Variable url_prefix : str.

Definition question_group (group_id : option Z) : outcome (option group) :=
  match group_id with
  | None => Ret None
  | Some k =>
      if k =? 0 then Ret None
      else
        pages <- request get_group fuel
                   (url_prefix ++ lit "/groups/" ++ str_of_Z k) ;;
        match pages with
        | g :: _ => Ret g
        | [] => Ret None
        end
  end.

(** Lines 153-158: the group of a question, fetched on first reference
    and cached only when it is truthy. *)
Definition resolve_group (groups : Dict.t group) (gid : option Z)
    : outcome (option group * Dict.t group) :=
  match gid with
  | None => g <- question_group None ;; Ret (g, groups)
  | Some k =>
      match Dict.get k groups with
      | Some g => Ret (Some g, groups)
      | None =>
          g <- question_group (Some k) ;;
          match g with
          | Some g' => Ret (Some g', Dict.set k g' groups)
          | None => Ret (None, groups)
          end
      end
  end.

(** Lines 152-166: the body of the loop over the questions of the wire *)
Definition reconcile_question (st : reconciler) (q : question)
    : outcome reconciler :=
  '(g, groups) <- resolve_group (r_groups st) (quiz_group_id q) ;;
  match g with
  | Some g' =>
      let q' := set_position (set_points_possible q (question_points g'))
                  (g_position g') in
      Ret (mkReconciler (Dict.set (q_id q') q' (r_questions st)) groups (r_i st))
  | None =>
      let q' := set_position q (r_i st) in
      Ret (mkReconciler (Dict.set (q_id q') q' (r_questions st)) groups
             (r_i st + 1))
  end.

Fixpoint first_pass (st : reconciler) (wire : list question)
    : outcome reconciler :=
  match wire with
  | [] => Ret st
  | q :: wire' =>
      st' <- reconcile_question st q ;;
      first_pass st' wire'
  end.

(** Lines 172-175: the questions one group shifts *)
Definition shift_question (grp : group) (q : question) : question :=
  if (g_position grp <=? position q) && is_None (quiz_group_id q)
  then set_position q (position q + 1)
  else q.

Definition shift_for_group (questions : Dict.t question) (grp : group)
    : Dict.t question :=
  map (fun kv => (fst kv, shift_question grp (snd kv))) questions.

(** Lines 168-175: one round per value of [groups]; every stored group
    is truthy, so the [continue] is never taken. *)
Definition shift_pass (groups : Dict.t group) (questions : Dict.t question)
    : Dict.t question :=
  fold_left shift_for_group (Dict.values groups) questions.

Definition reconcile (wire : list question)
    : outcome (Dict.t question * Dict.t group) :=
  st <- first_pass (mkReconciler [] [] 1) wire ;;
  let questions := shift_pass (r_groups st) (r_questions st) in
  Ret (sorted_by position questions, sorted_by g_position (r_groups st)).

(** [Quiz.questions]: the pages of the question endpoint, then the
    reconciliation of all their records in wire order. *)
Definition Quiz_questions (get_questions : str -> response (list question))
    : outcome (Dict.t question * Dict.t group) :=
  pages <- request get_questions fuel
             (url_prefix ++ lit "/questions?per_page=100") ;;
  reconcile (List.concat pages).
End Reconciler.

(** ** Regular expressions: the subset of [re] the module uses

    A backtracking matcher in continuation-passing style: alternatives are
    tried in the order Python's engine tries them (a greedy repetition the
    longest first, a lazy one the shortest first, an optional item present
    first) and the first success is the match. *)

Inductive regex : Type :=
| RLit (l : str)                     (* a literal string *)
| RStar (p : ascii -> bool)          (* [class]*  greedy *)
| RPlus (p : ascii -> bool)          (* [class]+  greedy *)
| RLazy (p : ascii -> bool)          (* class*?   lazy *)
| ROpt (r : regex)                   (* (r)?      greedy *)
| RGroup (n : nat) (r : regex)       (* capture group number n *)
| RSeq (r1 r2 : regex).

Definition captures := list (nat * str).
Definition cont := str -> captures -> option (str * captures).

Fixpoint star_greedy (p : ascii -> bool) (k : cont) (s : str) (c : captures)
    : option (str * captures) :=
  match s with
  | x :: s' =>
      if p x then
        match star_greedy p k s' c with
        | Some r => Some r
        | None => k s c
        end
      else k s c
  | [] => k s c
  end.

Fixpoint star_lazy (p : ascii -> bool) (k : cont) (s : str) (c : captures)
    : option (str * captures) :=
  match k s c with
  | Some r => Some r
  | None =>
      match s with
      | x :: s' => if p x then star_lazy p k s' c else None
      | [] => None
      end
  end.

Fixpoint rmatch (r : regex) (k : cont) (s : str) (c : captures)
    : option (str * captures) :=
  match r with
  | RLit l => if startswith l s then k (skipn (List.length l) s) c else None
  | RStar p => star_greedy p k s c
  | RPlus p =>
      match s with
      | x :: s' => if p x then star_greedy p k s' c else None
      | [] => None
      end
  | RLazy p => star_lazy p k s c
  | ROpt r' =>
      match rmatch r' k s c with
      | Some res => Some res
      | None => k s c
      end
  | RGroup n r' =>
      rmatch r'
        (fun s' c' => k s' ((n, firstn (List.length s - List.length s') s) :: c'))
        s c
  | RSeq r1 r2 => rmatch r1 (rmatch r2 k) s c
  end.

(** A match object: the text of group 0 and of the numbered groups. *)
Record re_match : Type := mkMatchObj {
  group0 : str;
  m_groups : captures
}.

Fixpoint lookup_group (n : nat) (c : captures) : option str :=
  match c with
  | [] => None
  | (m, t) :: c' => if Nat.eqb n m then Some t else lookup_group n c'
  end.

(** [match.group(n)]: None when the group did not take part *)
Definition match_group (m : re_match) (n : nat) : option str :=
  lookup_group n (m_groups m).

(** [pattern.match(s)]: a match anchored at the start of [s] *)
Definition match_here (r : regex) (s : str) : option re_match :=
  match rmatch r (fun s' c => Some (s', c)) s [] with
  | Some (rest, c) =>
      Some (mkMatchObj (firstn (List.length s - List.length rest) s) c)
  | None => None
  end.

(** [re.search]: the leftmost position with a match *)
Fixpoint re_search (r : regex) (s : str) : option re_match :=
  match match_here r s with
  | Some m => Some m
  | None =>
      match s with
      | [] => None
      | _ :: s' => re_search r s'
      end
  end.

(** [re.finditer]: leftmost non-overlapping matches; [skip] characters
    belong to the previous match.  After an empty match the scan moves on
    by one character. *)
Fixpoint finditer_from (r : regex) (skip : nat) (s : str) : list re_match :=
  match s with
  | [] =>
      match skip, match_here r [] with
      | O, Some m => [m]
      | _, _ => []
      end
  | _ :: s' =>
      match skip with
      | S n => finditer_from r n s'
      | O =>
          match match_here r s with
          | Some m => m :: finditer_from r (List.length (group0 m) - 1) s'
          | None => finditer_from r 0 s'
          end
      end
  end.

Definition re_finditer (r : regex) (s : str) : list re_match :=
  finditer_from r 0 s.

(** [re.sub(r, repl, s)] for a replacement without group references *)
Fixpoint sub_from (r : regex) (repl : str) (skip : nat) (s : str) : str :=
  match s with
  | [] =>
      match skip, match_here r [] with
      | O, Some _ => repl
      | _, _ => []
      end
  | x :: s' =>
      match skip with
      | S n => sub_from r repl n s'
      | O =>
          match match_here r s with
          | Some m =>
              match List.length (group0 m) with
              | O => repl ++ x :: sub_from r repl 0 s'
              | S n => repl ++ sub_from r repl n s'
              end
          | None => x :: sub_from r repl 0 s'
          end
      end
  end.

Definition re_sub (r : regex) (repl : str) (s : str) : str :=
  sub_from r repl 0 s.

(** Character classes *)
Definition is_char (a : ascii) (x : ascii) : bool := ascii_eqb x a.
Definition not_char (a : ascii) (x : ascii) : bool := negb (ascii_eqb x a).
Definition gt_sign : ascii := Eval cbv in ascii_of_nat 62.
Definition lt_sign : ascii := Eval cbv in ascii_of_nat 60.
Definition not_gt : ascii -> bool := not_char gt_sign.     (* [^>] *)
Definition not_dquote : ascii -> bool := not_char dquote.  (* any character but the double quote *)
Definition dot : ascii -> bool := not_char newline.        (* .  *)

(** [\w] without the underscore, on ASCII: letters and digits.  Bytes
    above 127 are taken to belong to letters. *)
Definition is_alnum (x : ascii) : bool :=
  let n := nat_of_ascii x in
  ((48 <=? n) && (n <=? 57) || (65 <=? n) && (n <=? 90)
   || (97 <=? n) && (n <=? 122) || (128 <=? n))%nat.

(** [[\W_]+] *)
Definition non_word_or_underscore : regex := RPlus (fun x => negb (is_alnum x)).

(** ** [str] methods *)

(** [s.replace(old, new, 1)] *)
Fixpoint replace_first (old new s : str) : str :=
  if startswith old s then new ++ skipn (List.length old) s
  else match s with
       | [] => []
       | x :: s' => x :: replace_first old new s'
       end.

(** [s.replace(old, new)] *)
Fixpoint replace_from (old new : str) (skip : nat) (s : str) : str :=
  match s with
  | [] => match skip, old with O, [] => new | _, _ => [] end
  | x :: s' =>
      match skip with
      | S n => replace_from old new n s'
      | O =>
          if startswith old s then
            match List.length old with
            | O => new ++ x :: replace_from old new 0 s'
            | S n => new ++ replace_from old new n s'
            end
          else x :: replace_from old new 0 s'
      end
  end.

Definition replace (old new s : str) : str := replace_from old new 0 s.

(** [s.split(sep)] for a one-character separator *)
Fixpoint split_on (sep : ascii) (s : str) : list str :=
  match s with
  | [] => [[]]
  | x :: s' =>
      if ascii_eqb x sep then [] :: split_on sep s'
      else match split_on sep s' with
           | [] => [[x]]
           | w :: ws => (x :: w) :: ws
           end
  end.

Definition is_space (x : ascii) : bool :=
  let n := nat_of_ascii x in
  ((n =? 32) || (9 <=? n) && (n <=? 13) || (28 <=? n) && (n <=? 31))%nat.

Fixpoint lstrip (s : str) : str :=
  match s with
  | x :: s' => if is_space x then lstrip s' else s
  | [] => []
  end.

Definition strip (s : str) : str := rev (lstrip (rev (lstrip s))).

(** ** [file_name_only], [clean_question_text], [image_file_extension] *)

Definition file_name_only (name : str) : str :=
  re_sub non_word_or_underscore [] name.

(** [<link[^>]*>] *)
Definition link_re : regex :=
  RSeq (RLit (lit "<link")) (RSeq (RStar not_gt) (RLit (lit ">"))).

(** [<script[^>]*>.*?</script>] *)
Definition script_re : regex :=
  RSeq (RLit (lit "<script"))
    (RSeq (RStar not_gt)
       (RSeq (RLit (lit ">")) (RSeq (RLazy dot) (RLit (lit "</script>"))))).

Definition clean_question_text (text : str) : str :=
  let text := re_sub link_re [] text in
  let text := re_sub script_re [] text in
  text.

Definition image_file_extension (content_type : str) : outcome str :=
  if str_eqb content_type (lit "image/x-icon") then Ret (lit "ico")
  else if str_eqb content_type (lit "image/svg+xml") then Ret (lit "svg")
  else match split_on "/"%char content_type with
       | _ :: ext :: _ => Ret ext
       | _ => Raise IndexError
       end.

(** ** The file system *)

(** What [json.dump] receives for [info.json] *)
Record info_obj : Type := mkInfo {
  info_uuid : str;
  info_type : str;
  info_title : str;
  info_topic : str;
  info_tags : list str;
  gradingMethod : option str   (* None: the key is absent *)
}.

Record access_rule : Type := mkAccessRule {
  credit : Z;
  password : option str;
  startDate : option str;
  endDate : option str;
  timeLimitMin : option Z
}.

(** An entry of the zone's question list as it is serialized *)
Inductive zone_entry : Type :=
| ZAlternative (a : question_alt)
| ZGroup (w : pl_alt).

Record assessment : Type := mkAssessment {
  as_uuid : str;
  as_type : str;
  as_title : str;
  as_text : str;
  as_set : str;
  as_number : str;
  allowAccess : list access_rule;
  zone_questions : list zone_entry;
  as_comment : str
}.

Inductive file_content : Type :=
| Text (s : str)
| Binary (b : str)
| InfoJson (o : info_obj)
| AssessmentJson (a : assessment).

Record filesystem : Type := mkFs {
  fs_dirs : list str;
  fs_files : list (str * file_content)
}.

Definition slash : ascii := "/"%char.

Fixpoint str_mem (x : str) (l : list str) : bool :=
  match l with
  | [] => false
  | y :: l' => str_eqb x y || str_mem x l'
  end.

Definition endswith (p s : str) : bool := startswith (rev p) (rev s).

(** [os.path.join] on POSIX *)
Definition path_join (a b : str) : str :=
  if startswith [slash] b then b
  else match a with
       | [] => b
       | _ => if endswith [slash] a then a ++ b else a ++ [slash] ++ b
       end.

Fixpoint drop_slashes (r : str) : str :=
  match r with
  | x :: r' => if ascii_eqb x slash then drop_slashes r' else r
  | [] => []
  end.

(** A directory path without its trailing slashes *)
Definition dir_name (p : str) : str := rev (drop_slashes (rev p)).

Definition is_dir (fs : filesystem) (p : str) : bool :=
  str_mem (dir_name p) (fs_dirs fs).

Definition is_file (fs : filesystem) (p : str) : bool :=
  str_mem p (map fst (fs_files fs)).

Definition path_exists (fs : filesystem) (p : str) : bool :=
  is_dir fs p || is_file fs p.

(** The directories [os.makedirs p] makes sure of: [p] and its ancestors *)
Fixpoint dir_chain (acc : str) (s : str) : list str :=
  match s with
  | [] => match dir_name acc with [] => [] | d => [d] end
  | x :: s' =>
      if ascii_eqb x slash then
        match dir_name acc with
        | [] => dir_chain (acc ++ [x]) s'
        | d => d :: dir_chain (acc ++ [x]) s'
        end
      else dir_chain (acc ++ [x]) s'
  end.

Definition add_dir (dirs : list str) (d : str) : list str :=
  if str_mem d dirs then dirs else dirs ++ [d].

(** [os.makedirs(p, exist_ok=True)] *)
Definition makedirs_exist_ok (fs : filesystem) (p : str) : filesystem :=
  mkFs (fold_left add_dir (dir_chain [] p) (fs_dirs fs)) (fs_files fs).

(** [os.makedirs(p)] *)
Definition makedirs (fs : filesystem) (p : str) : outcome filesystem :=
  if path_exists fs p then Raise FileExistsError
  else Ret (makedirs_exist_ok fs p).

(** [open(p, mode).write(c)]: the file is created or overwritten *)
Fixpoint put_file (p : str) (c : file_content) (l : list (str * file_content))
    : list (str * file_content) :=
  match l with
  | [] => [(p, c)]
  | (p', c') :: l' =>
      if str_eqb p p' then (p', c) :: l' else (p', c') :: put_file p c l'
  end.

Definition write_file (fs : filesystem) (p : str) (c : file_content)
    : filesystem :=
  mkFs (fs_dirs fs) (put_file p c (fs_files fs)).

(** ** [handle_images] *)

Record image_response : Type := mkImage {
  img_ok : bool;               (* false: raise_for_status raises *)
  content_type : str;          (* the Content-Type header *)
  content : str
}.

(** The pattern of line 218: an optional opening paragraph tag (group 1),
    an img tag with a double-quoted src attribute (group 2, its URL is
    group 3) and an optional closing paragraph tag (group 4). *)
Definition img_tag_re : regex :=
  RSeq (RLit (lit "<img"))
    (RSeq (RStar not_gt)
       (RSeq (RLit (lit "src=" ++ dq))
          (RSeq (RGroup 3 (RPlus not_dquote))
             (RSeq (RLit dq) (RSeq (RStar not_gt) (RLit (lit ">"))))))).

Definition img_re : regex :=
  RSeq (ROpt (RGroup 1 (RLit (lit "<p>"))))
    (RSeq (RGroup 2 img_tag_re) (ROpt (RGroup 4 (RLit (lit "</p>"))))).

(** The pattern of line 239: an alt attribute, its text is group 1 *)
Definition alt_re : regex :=
  RSeq (RLit (lit "alt=" ++ dq)) (RSeq (RGroup 1 (RStar not_dquote)) (RLit dq)).

Definition opt_str_eqb (o : option str) (s : str) : bool :=
  match o with
  | Some t => str_eqb t s
  | None => false
  end.

Definition text_of (o : option str) : str :=
  match o with Some t => t | None => [] end.

Definition pl_figure (file_name alt_attribute : str) : str :=
  lit "<pl-figure file-name=" ++ dq ++ file_name ++ dq ++ alt_attribute
    ++ lit "></pl-figure>".

Record image_state : Type := mkImageState {
  im_fs : filesystem;
  im_text : str;
  image_count : Z              (* the next value of count(1) *)
}.

Section Images.
(** What [requests.get(url)] answers for an image URL *)
Variable get_image : str -> image_response.
Variable question_dir : str.

(** Lines 219-256: the body of the loop over the matches.  Group 3
    takes part in every match of the pattern. *)
Definition handle_image (st : image_state) (m : re_match)
    : outcome image_state :=
  let url := text_of (match_group m 3) in
  if negb (startswith (lit "http") url) then Ret st
  else
    let client_files_question_dir :=
      path_join question_dir (lit "clientFilesQuestion") in
    let fs := makedirs_exist_ok (im_fs st) client_files_question_dir in
    let res := get_image url in
    if negb (img_ok res) then Raise HTTPError
    else
      extension <- image_file_extension (content_type res) ;;
      let file_name :=
        lit "image_" ++ str_of_Z (image_count st) ++ lit "." ++ extension in
      let file_path := path_join client_files_question_dir file_name in
      let fs := write_file fs file_path (Binary (content res)) in
      let alt_text :=
        match re_search alt_re (text_of (match_group m 2)) with
        | Some alt_match => text_of (match_group alt_match 1)
        | None => []
        end in
      let alt_attribute :=
        match alt_text with
        | [] => []
        | _ => lit " alt=" ++ dq ++ alt_text ++ dq
        end in
      let replace_str :=
        if opt_str_eqb (match_group m 1) (lit "<p>")
           && opt_str_eqb (match_group m 4) (lit "</p>")
        then group0 m
        else text_of (match_group m 2) in
      Ret (mkImageState fs
             (replace_first replace_str (pl_figure file_name alt_attribute)
                (im_text st))
             (image_count st + 1)).

Fixpoint handle_matches (st : image_state) (ms : list re_match)
    : outcome image_state :=
  match ms with
  | [] => Ret st
  | m :: ms' =>
      st' <- handle_image st m ;;
      handle_matches st' ms'
  end.

(** The matches are those of the text as it was passed in; the
    replacements act on the text as it is by then. *)
Definition handle_images (fs : filesystem) (text : str)
    : outcome (filesystem * str) :=
  st <- handle_matches (mkImageState fs text 1) (re_finditer img_re text) ;;
  Ret (im_fs st, im_text st).
End Images.

(** ** Arithmetic on JSON numbers, as Python computes it

    A float is modelled by the rational it denotes; the rounding of float
    arithmetic is not modelled. *)

(** [int(x)]: truncation toward zero *)
Definition int (n : number) : Z :=
  match n with
  | NInt z => z
  | NFloat q => Z.quot (Qnum q) (Zpos (Qden q))
  end.

Definition number_sub (a b : number) : number :=
  match a, b with
  | NInt x, NInt y => NInt (x - y)
  | _, _ => NFloat (Q_of_number a - Q_of_number b)
  end.

Definition number_add (a b : number) : number :=
  match a, b with
  | NInt x, NInt y => NInt (x + y)
  | _, _ => NFloat (Q_of_number a + Q_of_number b)
  end.

Definition number_mul (a b : number) : number :=
  match a, b with
  | NInt x, NInt y => NInt (x * y)
  | _, _ => NFloat (Q_of_number a * Q_of_number b)
  end.

(** [a / 2]: true division always gives a float *)
Definition number_half (a : number) : number :=
  NFloat (Q_of_number a / 2).

Definition number_abs (a : number) : number :=
  match a with
  | NInt x => NInt (Z.abs x)
  | NFloat q => NFloat (Qabs.Qabs q)
  end.

(** [a < b] *)
Definition number_ltb (a b : number) : bool :=
  negb (Qle_bool (Q_of_number b) (Q_of_number a)).

(** [a == 0], and the truth value of a number *)
Definition number_is_zero (a : number) : bool :=
  Qeq_bool (Q_of_number a) 0.

Definition truthy (a : number) : bool := negb (number_is_zero a).

(** [10 ** k] for an integer [k] *)
Definition pow10 (k : Z) : number :=
  if 0 <=? k then NInt (10 ^ k)
  else NFloat (/ inject_Z (10 ^ (- k))).

Definition one_thousandth : number := NFloat (1 # 1000).

(** ** Answers grouped by blank id: the [options] and [blanks] dicts *)

Fixpoint blank_append (k : str) (a : answer) (d : list (str * list answer))
    : list (str * list answer) :=
  match d with
  | [] => [(k, [a])]
  | (k', l) :: d' =>
      if str_eqb k k' then (k', l ++ [a]) :: d'
      else (k', l) :: blank_append k a d'
  end.

Definition by_blank_id (l : list answer) : list (str * list answer) :=
  fold_left (fun d a => blank_append (a_blank_id a) a d) l [].

(** [input(prompt)]: the next line the operator types *)
Definition input (inputs : list str) : outcome (str * list str) :=
  match inputs with
  | [] => Raise EOFError
  | line :: rest => Ret (line, rest)
  end.

Definition has_type (q : question) (t : string) : bool :=
  str_eqb (question_type q) (lit t).

Definition non_empty (s : str) : bool :=
  match s with [] => false | _ => true end.

(** ** The renderer: the text written to [question.html] *)

Section Renderer.
(** How Python prints a float, and [json.dumps] of a question record *)
Variable repr_float : Q -> str.
Variable json_dumps_question : question -> str.

(** The text an f-string gives for a number *)
Definition format_number (n : number) : str :=
  match n with
  | NInt z => str_of_Z z
  | NFloat q => repr_float q
  end.

Definition attr (name value : str) : str :=
  lit " " ++ name ++ lit "=" ++ dq ++ value ++ dq.

(** Lines 421-426 and 434-439: one pl-answer per answer *)
Definition pl_answer (a : answer) : str :=
  (if truthy (a_weight a)
   then lit "  <pl-answer correct=" ++ dq ++ lit "true" ++ dq ++ lit ">"
   else lit "  <pl-answer>")
  ++ a_text a ++ lit "</pl-answer>" ++ nl.

(** Lines 443-468: the numerical question *)
Definition render_numerical (ans : answer) (inputs : list str)
    : outcome (str * list str) :=
  let ty := numerical_answer_type ans in
  if str_eqb ty (lit "exact_answer")
     && number_ltb
          (number_abs (number_sub (a_exact ans) (NInt (int (a_exact ans)))))
          one_thousandth
     && number_is_zero (a_margin ans)
  then
    Ret (lit "<pl-integer-input" ++ attr (lit "answers-name") (lit "value")
           ++ attr (lit "correct-answer") (str_of_Z (int (a_exact ans)))
           ++ lit "></pl-integer-input>" ++ nl, inputs)
  else if str_eqb ty (lit "exact_answer") then
    Ret (lit "<pl-number-input" ++ attr (lit "answers-name") (lit "value")
           ++ attr (lit "correct-answer") (format_number (a_exact ans))
           ++ attr (lit "atol") (format_number (a_margin ans))
           ++ lit "></pl-number-input>" ++ nl, inputs)
  else if str_eqb ty (lit "range_answer") then
    let average := number_half (number_add (a_end ans) (a_start ans)) in
    let margin := number_abs (number_sub (a_end ans) average) in
    Ret (lit "<pl-number-input" ++ attr (lit "answers-name") (lit "value")
           ++ attr (lit "correct-answer") (format_number average)
           ++ attr (lit "atol") (format_number margin)
           ++ lit "></pl-number-input>" ++ nl, inputs)
  else if str_eqb ty (lit "precision_answer") then
    Ret (lit "<pl-number-input" ++ attr (lit "answers-name") (lit "value")
           ++ attr (lit "correct-answer") (format_number (a_approximate ans))
           ++ attr (lit "comparison") (lit "sigfig")
           ++ attr (lit "digits") (format_number (a_precision ans))
           ++ lit "></pl-number-input>" ++ nl, inputs)
  else
    '(_, inputs) <- input inputs ;;
    Ret (lit "<pl-number-input" ++ attr (lit "answers-name") (lit "value")
           ++ lit "></pl-number-input>" ++ nl, inputs).

(** [question["formulas"][-1]["formula"].split("=")[0].strip()] *)
Definition answers_name (q : question) : outcome str :=
  match rev (formulas q) with
  | [] => Raise IndexError
  | f :: _ =>
      match split_on "="%char f with
      | lhs :: _ => Ret (strip lhs)
      | [] => Raise IndexError
      end
  end.

(** Lines 488-492: the result of every [replace] is dropped, the text
    the loop leaves is the text it was given. *)
Definition fill_in_blanks_text (q : question) (question_text : str) : str :=
  fold_left
    (fun (text : str) (kv : str * list answer) =>
       let answer_id := fst kv in
       let _dropped :=
         replace (lit "[" ++ answer_id ++ lit "]")
           (lit "<pl-string-input" ++ attr (lit "answers-name") answer_id
              ++ attr (lit "correct-answer")
                   (match snd kv with a :: _ => a_text a | [] => [] end)
              ++ attr (lit "remove-spaces") (lit "true")
              ++ attr (lit "ignore-case") (lit "true")
              ++ attr (lit "display") (lit "inline")
              ++ lit "></pl-string-input>")
           question_text in
       text)
    (by_blank_id (answers q)) question_text.

(** Lines 512-520: the dropdown of one blank *)
Definition dropdown_of (blank : str) (l : list answer) : str :=
  lit "<pl-multiple-choice" ++ attr (lit "display") (lit "dropdown")
    ++ attr (lit "hide-letter-keys") (lit "true")
    ++ attr (lit "answers-name") blank ++ lit ">" ++ nl
    ++ List.concat
         (map (fun a =>
                 lit "  <pl-answer"
                 ++ (if number_ltb (NInt 0) (a_weight a)
                     then attr (lit "correct") (lit "true") else [])
                 ++ lit ">" ++ a_text a ++ lit "</pl-answer>" ++ nl) l)
    ++ lit "</pl-multiple-choice>".

(** Lines 511-521: here the result of [replace] is assigned back *)
Definition dropdowns_text (q : question) (question_text : str) : str :=
  fold_left
    (fun (text : str) (kv : str * list answer) =>
       replace (lit "[" ++ fst kv ++ lit "]") (dropdown_of (fst kv) (snd kv))
         text)
    (by_blank_id (answers q)) question_text.

(** Lines 395-398 *)
Definition params_text (q : question) (question_text : str) : str :=
  fold_left
    (fun (text : str) (v : variable) =>
       replace (lit "[" ++ v_name v ++ lit "]")
         (lit "{{params." ++ v_name v ++ lit "}}") text)
    (variables q) question_text.

(** Lines 400-411 *)
Definition question_panel (q : question) (question_text : str) : str :=
  if negb (has_type q "fill_in_multiple_blanks_question")
     && negb (has_type q "multiple_dropdowns_question")
  then
    let include_paragraph :=
      negb (startswith (lit "<p>") (strip question_text)) in
    lit "<pl-question-panel>" ++ nl
      ++ (if include_paragraph then lit "<p>" ++ nl else [])
      ++ question_text ++ nl
      ++ (if include_paragraph then lit "</p>" ++ nl else [])
      ++ lit "</pl-question-panel>" ++ nl
  else [].

(** Lines 413-526: the element of the question's type *)
Definition render_element (q : question) (question_text : str)
    (inputs : list str) : outcome (str * list str) :=
  if has_type q "text_only_question" then Ret ([], inputs)
  else if has_type q "essay_question" then
    Ret (lit "<pl-rich-text-editor" ++ attr (lit "file-name") (lit "answer.html")
           ++ lit "></pl-rich-text-editor>" ++ nl, inputs)
  else if has_type q "multiple_answers_question" then
    Ret (lit "<pl-checkbox" ++ attr (lit "answers-name") (lit "checkbox")
           ++ lit ">" ++ nl
           ++ List.concat (map pl_answer (answers q))
           ++ lit "</pl-checkbox>" ++ nl, inputs)
  else if has_type q "true_false_question"
          || has_type q "multiple_choice_question" then
    Ret (lit "<pl-multiple-choice" ++ attr (lit "answers-name") (lit "mc")
           ++ lit ">" ++ nl
           ++ List.concat (map pl_answer (answers q))
           ++ lit "</pl-multiple-choice>" ++ nl, inputs)
  else if has_type q "numerical_question" then
    match answers q with
    | [] => Raise IndexError
    | ans :: _ => render_numerical ans inputs
    end
  else if has_type q "calculated_question" then
    name <- answers_name q ;;
    Ret (lit "<pl-number-input" ++ attr (lit "answers-name") name
           ++ attr (lit "comparison") (lit "decdig")
           ++ attr (lit "digits") (str_of_Z (formula_decimal_places q))
           ++ lit "></pl-number-input>" ++ nl, inputs)
  else if has_type q "short_answer_question" then
    match answers q with
    | [] => Raise IndexError
    | ans :: _ =>
        Ret (lit "<pl-string-input" ++ attr (lit "answers-name") (lit "input")
               ++ attr (lit "correct-answer") (a_text ans)
               ++ lit "></pl-string-input>" ++ nl, inputs)
    end
  else if has_type q "fill_in_multiple_blanks_question" then
    Ret (fill_in_blanks_text q question_text ++ nl, inputs)
  else if has_type q "matching_question" then
    Ret (lit "<pl-matching" ++ attr (lit "answers-name") (lit "match")
           ++ lit ">" ++ nl
           ++ List.concat
                (map (fun a =>
                        lit "  <pl-statement"
                        ++ attr (lit "match") (lit "m" ++ str_of_Z (a_match_id a))
                        ++ lit ">" ++ a_text a ++ lit "</pl-statement>" ++ nl)
                   (answers q))
           ++ List.concat
                (map (fun m =>
                        lit "  <pl-option"
                        ++ attr (lit "name") (lit "m" ++ str_of_Z (m_match_id m))
                        ++ lit ">" ++ m_text m ++ lit "</pl-option>" ++ nl)
                   (matches q))
           ++ lit "</pl-matching>" ++ nl, inputs)
  else if has_type q "multiple_dropdowns_question" then
    Ret (dropdowns_text q question_text ++ nl, inputs)
  else
    '(_, inputs) <- input inputs ;;
    Ret (json_dumps_question q, inputs).

(** Lines 528-538: the feedback panel *)
Definition answer_panel (q : question) : str :=
  if non_empty (correct_comments q) || non_empty (neutral_comments q) then
    lit "<pl-answer-panel>" ++ nl ++ lit "<p>" ++ nl
      ++ (if non_empty (correct_comments_html q)
          then correct_comments_html q ++ nl
          else if non_empty (correct_comments q)
               then correct_comments q ++ nl else [])
      ++ (if non_empty (neutral_comments_html q)
          then neutral_comments_html q ++ nl
          else if non_empty (neutral_comments q)
               then neutral_comments q ++ nl else [])
      ++ lit "</p>" ++ nl ++ lit "</pl-answer-panel>" ++ nl
  else [].

(** Lines 393-538: everything written to [question.html] *)
Definition render_template (q : question) (question_text : str)
    (inputs : list str) : outcome (str * list str) :=
  let question_text :=
    if has_type q "calculated_question" then params_text q question_text
    else question_text in
  '(element, inputs) <- render_element q question_text inputs ;;
  Ret (question_panel q question_text ++ element ++ answer_panel q, inputs).

(** Lines 541-558: the generator script of a calculated question *)
Definition server_py (q : question) : outcome str :=
  name <- answers_name q ;;
  Ret (lit "import random" ++ nl ++ nl
       ++ lit "def generate(data):" ++ nl
       ++ List.concat
            (map (fun v =>
                    if v_scale v =? 0 then
                      lit "    " ++ v_name v ++ lit " = random.randint("
                        ++ str_of_Z (int (v_min v)) ++ lit ", "
                        ++ str_of_Z (int (v_max v)) ++ lit ")" ++ nl
                    else
                      let multip := pow10 (v_scale v) in
                      lit "    " ++ v_name v ++ lit " = random.randint("
                        ++ str_of_Z (int (number_mul (v_min v) multip))
                        ++ lit ", "
                        ++ str_of_Z (int (number_mul (v_max v) multip))
                        ++ lit ") / " ++ format_number multip ++ nl)
               (variables q))
       ++ List.concat (map (fun f => lit "    " ++ f ++ nl) (formulas q))
       ++ List.concat
            (map (fun v =>
                    lit "    data[" ++ dq ++ lit "params" ++ dq ++ lit "]["
                      ++ dq ++ v_name v ++ dq ++ lit "] = " ++ v_name v ++ nl)
               (variables q))
       ++ lit "    data[" ++ dq ++ lit "correct_answers" ++ dq ++ lit "]["
       ++ dq ++ name ++ dq ++ lit "] = " ++ name ++ nl).
End Renderer.

(** ** The assembler: [main] from the reconciled questions on *)

Record quiz : Type := mkQuiz {
  quiz_id : Z;
  quiz_title : str;
  quiz_description : str;
  access_code : str;           (* empty when null *)
  unlock_at : str;
  lock_at : str;
  time_limit : Z               (* 0 when null *)
}.

(** An element of the list [pl_quiz_questions].  The wrapper of a group
    is one object, held by the group under [_pl_alt] and by the list: the
    list keeps a reference to it, the key of its group. *)
Inductive pl_entry : Type :=
| EAlternative (a : question_alt)
| EGroup (k : Z).

Record main_state : Type := mkMain {
  ms_fs : filesystem;
  ms_inputs : list str;        (* the lines the operator has yet to type *)
  ms_groups : Dict.t group;
  pl_quiz_questions : list pl_entry;
  ms_uuids : nat               (* how many uuids were drawn *)
}.

Definition set_pl_alt (g : group) (w : pl_alt) : group :=
  mkGroup (g_position g) (question_points g) (pick_count g) (Some w).

(** Lines 365-376 *)
Definition add_alternative (q : question) (alt : question_alt)
    (groups : Dict.t group) (plq : list pl_entry)
    : outcome (Dict.t group * list pl_entry) :=
  match quiz_group_id q with
  | None => Ret (groups, plq ++ [EAlternative alt])
  | Some k =>
      if k =? 0 then Ret (groups, plq ++ [EAlternative alt])
      else
        match Dict.get k groups with
        | None => Raise KeyError
        | Some g =>
            let '(w, plq) :=
              match g_pl_alt g with
              | None =>
                  (mkPlAlt (pick_count g) (question_points g) [],
                   plq ++ [EGroup k])
              | Some w => (w, plq)
              end in
            let w := mkPlAlt (numberChoose w) (pl_points w)
                       (alternatives w ++ [alt]) in
            Ret (Dict.set k (set_pl_alt g w) groups, plq)
        end
  end.

(** The list as [json.dump] sees it: every reference is followed. *)
Definition dump_entries (groups : Dict.t group) (plq : list pl_entry)
    : list zone_entry :=
  flat_map
    (fun e =>
       match e with
       | EAlternative a => [ZAlternative a]
       | EGroup k =>
           match Dict.get k groups with
           | Some g =>
               match g_pl_alt g with
               | Some w => [ZGroup w]
               | None => []
               end
           | None => []
           end
       end) plq.

(** Lines 353-356 and 316-319: the first free name [base_<suffix>] *)
Fixpoint probe_name (fs : filesystem) (dir base : str) (fuel : nat)
    (suffix : Z) : outcome str :=
  match fuel with
  | O => Fuel
  | S fuel' =>
      let name := base ++ lit "_" ++ str_of_Z suffix in
      if path_exists fs (path_join dir name)
      then probe_name fs dir base fuel' (suffix + 1)
      else Ret name
  end.

Section Main.
Variable repr_float : Q -> str.
Variable json_dumps_question : question -> str.
Variable uuid4 : nat -> str.               (* the n-th uuid drawn *)
Variable get_image : str -> image_response.
Variable fuel : nat.

Variable quiz_slug : str.                   (* file_name_only(quiz["title"]) *)
Variable questions_dir : str.
Variable topic : str.

Definition is_manual (q : question) : bool :=
  has_type q "text_only_question" || has_type q "essay_question".

(** Lines 379-387 *)
Definition info_json (q : question) (question_title uuid : str) : info_obj :=
  mkInfo uuid (lit "v3") question_title topic [lit "fromcanvas"]
    (if is_manual q then Some (lit "Manual") else None).

(** Lines 352-357 *)
Definition question_name_for (fs : filesystem) (question_title : str)
    : outcome str :=
  let question_name := file_name_only question_title in
  if path_exists fs (path_join questions_dir question_name)
  then probe_name fs questions_dir (file_name_only question_title) fuel 1
  else Ret question_name.

(** Lines 335-558: the body of the loop over the questions.  What is
    printed on the terminal is left out. *)
Definition process_question (st : main_state) (q : question)
    : outcome main_state :=
  let question_text := clean_question_text (question_text q) in
  '(question_title, inputs) <- input (ms_inputs st) ;;
  if negb (non_empty question_title) then
    Ret (mkMain (ms_fs st) inputs (ms_groups st) (pl_quiz_questions st)
           (ms_uuids st))
  else
    question_name <- question_name_for (ms_fs st) question_title ;;
    let question_dir := path_join questions_dir question_name in
    fs <- makedirs (ms_fs st) question_dir ;;
    let question_alt :=
      mkAlt (quiz_slug ++ lit "/" ++ question_name) (points_possible q) in
    '(groups, plq) <-
       add_alternative q question_alt (ms_groups st) (pl_quiz_questions st) ;;
    let obj := info_json q question_title (uuid4 (ms_uuids st)) in
    let fs := write_file fs (path_join question_dir (lit "info.json"))
                (InfoJson obj) in
    '(fs, question_text) <- handle_images get_image question_dir fs question_text ;;
    '(template, inputs) <-
       render_template repr_float json_dumps_question q question_text inputs ;;
    let fs := write_file fs (path_join question_dir (lit "question.html"))
                (Text template) in
    fs <- (if has_type q "calculated_question" then
             script <- server_py repr_float q ;;
             Ret (write_file fs (path_join question_dir (lit "server.py"))
                    (Text script))
           else Ret fs) ;;
    Ret (mkMain fs inputs groups plq (S (ms_uuids st))).

Fixpoint process_questions (st : main_state) (qs : list question)
    : outcome main_state :=
  match qs with
  | [] => Ret st
  | q :: qs' =>
      st' <- process_question st q ;;
      process_questions st' qs'
  end.
End Main.

Definition opt_if (s : str) : option str :=
  match s with [] => None | _ => Some s end.

(** Lines 322-331 *)
Definition allow_access_rule (qz : quiz) : access_rule :=
  mkAccessRule 100 (opt_if (access_code qz)) (opt_if (unlock_at qz))
    (opt_if (lock_at qz))
    (if time_limit qz =? 0 then None else Some (time_limit qz)).

Record main_options : Type := mkOptions {
  pl_repo : str;
  pl_course_instance : str;
  assessment_type : str;       (* empty when the option is not given *)
  assessment_set : str;
  assessment_number : str;
  opt_topic : str
}.

Section Program.
Variable repr_float : Q -> str.
Variable json_dumps_question : question -> str.
Variable uuid4 : nat -> str.
Variable get_image : str -> image_response.
Variable get_group : str -> response (option group).
Variable get_questions : str -> response (list question).
Variable fuel : nat.

(** [main] for a quiz already chosen; [url_prefix] is the quiz's. *)
Definition main (o : main_options) (qz : quiz) (url_prefix : str)
    (fs : filesystem) (inputs : list str) : outcome main_state :=
  if negb (path_exists fs (path_join (pl_repo o) (lit "infoCourse.json")))
  then Raise ValueError
  else
    '(questions, groups) <-
       Quiz_questions get_group fuel url_prefix get_questions ;;
    let quiz_slug := file_name_only (quiz_title qz) in
    let questions_dir :=
      path_join (path_join (pl_repo o) (lit "questions")) quiz_slug in
    fs <- (if is_dir fs questions_dir then Ret fs
           else makedirs fs questions_dir) ;;
    let assessments_dir :=
      path_join
        (path_join (path_join (pl_repo o) (lit "courseInstances"))
           (pl_course_instance o))
        (lit "assessments") in
    fs <- (if is_dir fs assessments_dir then Ret fs
           else makedirs fs assessments_dir) ;;
    let quiz_name := path_join assessments_dir quiz_slug in
    quiz_name <-
      (if path_exists fs quiz_name then probe_name fs [] quiz_name fuel 1
       else Ret quiz_name) ;;
    fs <- makedirs fs quiz_name ;;
    st <- process_questions repr_float json_dumps_question uuid4 get_image
            fuel quiz_slug questions_dir (opt_topic o)
            (mkMain fs inputs groups [] 0) (Dict.values questions) ;;
    let pl_quiz :=
      mkAssessment (uuid4 (ms_uuids st))
        (match assessment_type o with
         | [] => if time_limit qz =? 0 then lit "Homework" else lit "Exam"
         | t => t
         end)
        (quiz_title qz) (quiz_description qz) (assessment_set o)
        (assessment_number o) [allow_access_rule qz]
        (dump_entries (ms_groups st) (pl_quiz_questions st))
        (lit "Imported from Canvas, quiz " ++ str_of_Z (quiz_id qz)) in
    Ret (mkMain
           (write_file (ms_fs st)
              (path_join quiz_name (lit "infoAssessment.json"))
              (AssessmentJson pl_quiz))
           (ms_inputs st) (ms_groups st) (pl_quiz_questions st)
           (S (ms_uuids st))).
End Program.

(** ** Vocabulary of the statements *)


(** What one group does to the position [p] of an ungrouped question *)
Definition bump (p g : Z) : Z := if g <=? p then p + 1 else p.

(** What the groups at positions [ps], taken in that order, do to a
    question *)
Definition shift_by (ps : list Z) (q : question) : question :=
  if is_None (quiz_group_id q)
  then set_position q (fold_left bump ps (position q))
  else q.


Definition ungrouped (q : question) : bool := is_None (quiz_group_id q).

(** The positions of the ungrouped questions of a mapping *)
Definition ungrouped_positions (qs : Dict.t question) : list Z :=
  map position (filter ungrouped (Dict.values qs)).

Definition group_positions (gs : Dict.t group) : list Z :=
  map g_position (Dict.values gs).


(** The group a question resolves to, given what [question_group] returns *)
Definition resolved_by (lookup : option Z -> outcome (option group))
    (q : question) : option group :=
  match lookup (quiz_group_id q) with
  | Ret (Some g) => Some g
  | _ => None
  end.

(** The questions of the wire that are numbered sequentially *)
Definition sequential (lookup : option Z -> outcome (option group))
    (wire : list question) : list question :=
  filter (fun q => is_None (resolved_by lookup q)) wire.

(** The records the first pass stores, in wire order, [i] being the next
    sequential position *)
Fixpoint annotate (lookup : option Z -> outcome (option group)) (i : Z)
    (wire : list question) : list question :=
  match wire with
  | [] => []
  | q :: wire' =>
      match resolved_by lookup q with
      | Some g =>
          set_position (set_points_possible q (question_points g)) (g_position g)
            :: annotate lookup i wire'
      | None => set_position q i :: annotate lookup (i + 1) wire'
      end
  end.

Definition entry_of (q : question) : Z * question := (q_id q, q).


(** The cache of groups holds each group once, and holds for a key what a
    lookup of that key returns. *)
Definition cache_ok (lookup : option Z -> outcome (option group))
    (groups : Dict.t group) : Prop :=
  NoDup (Dict.keys groups) /\
  forall k g, Dict.get k groups = Some g -> lookup (Some k) = Ret (Some g).


(** Every stored question of a resolved group carries the position of
    that group. *)
Definition grouped_ok (lookup : option Z -> outcome (option group))
    (questions : Dict.t question) : Prop :=
  forall id q k g,
    In (id, q) questions -> quiz_group_id q = Some k ->
    lookup (Some k) = Ret (Some g) -> position q = g_position g.

(** ** A small quiz, for the examples

    Under the quiz prefix [/q] the server knows group 10 at position 2,
    group 20 at position 3 and group 30 at position 1; it answers the
    request for group 40 with an empty body and any other one with an
    error status. *)

Definition ok_response {A} (body : A) : response A :=
  mkResponse true body None None None.

Definition error_response {A} (body : A) : response A :=
  mkResponse false body None None None.

Definition ex_group (pos : Z) : group := mkGroup pos (NInt 2) 1 None.

Definition ex_get_group (url : str) : response (option group) :=
  if str_eqb url (lit "/q/groups/10") then ok_response (Some (ex_group 2))
  else if str_eqb url (lit "/q/groups/20") then ok_response (Some (ex_group 3))
  else if str_eqb url (lit "/q/groups/30") then ok_response (Some (ex_group 1))
  else if str_eqb url (lit "/q/groups/40") then ok_response None
  else error_response None.

Definition ex_question (id : Z) (gid : option Z) (type : string) (text : str)
    (l : list answer) : question :=
  mkQuestion id gid 0 (NInt 1) (lit type) text l [] [] 0 [] [] [] [] [].

Definition ex_q (id : Z) (gid : option Z) : question :=
  ex_question id gid "essay_question" (lit "Why?") [].




(** A question of group 40, whose body is empty on the server *)
Definition ex_wire_empty_group : list question :=
  [ex_q 1 None; ex_q 2 (Some 40); ex_q 3 None].





(** What a path holds, for the statements about files *)
Fixpoint get_file (p : str) (l : list (str * file_content))
    : option file_content :=
  match l with
  | [] => None
  | (p', c) :: l' => if str_eqb p p' then Some c else get_file p l'
  end.

Definition read_file (fs : filesystem) (p : str) : option file_content :=
  get_file p (fs_files fs).

(** The directory part [os.path.join] puts before a relative name *)
Definition dir_prefix (d : str) : str :=
  match d with
  | [] => []
  | _ => if endswith [slash] d then d else d ++ [slash]
  end.

(** The state after a question that the operator skips *)
Definition skipped (st : main_state) (rest : list str) : main_state :=
  mkMain (ms_fs st) rest (ms_groups st) (pl_quiz_questions st) (ms_uuids st).





(** ** An operator session, for the examples *)

(** A printer of floats for the examples: numerator, a slash, denominator *)
Definition ex_repr_float (q : Q) : str :=
  str_of_Z (Qnum q) ++ lit "/" ++ str_of_Z (Zpos (Qden q)).

Definition ex_json_dumps (q : question) : str := lit "{}".
Definition ex_uuid4 (n : nat) : str := lit "uuid-" ++ str_of_Z (Z.of_nat n).
Definition ex_get_image (url : str) : image_response :=
  mkImage true (lit "image/png") (lit "PNG").

Definition ex_process : main_state -> question -> outcome main_state :=
  process_question ex_repr_float ex_json_dumps ex_uuid4 ex_get_image 3
    (lit "Quiz1") (lit "repo/questions/Quiz1") (lit "None").

Definition ex_process_all : main_state -> list question -> outcome main_state :=
  process_questions ex_repr_float ex_json_dumps ex_uuid4 ex_get_image 3
    (lit "Quiz1") (lit "repo/questions/Quiz1") (lit "None").

Definition ex_fs : filesystem := mkFs [lit "repo/questions/Quiz1"] [].

Definition ex_state (inputs : list str) (groups : Dict.t group) : main_state :=
  mkMain ex_fs inputs groups [] 0.

Definition ex_after (st : main_state) (qs : list question) : main_state :=
  match ex_process_all st qs with
  | Ret st' => st'
  | _ => st
  end.

Definition ex_answer (text : string) (weight : Z) (blank : string) : answer :=
  mkAnswer (lit text) (NInt weight) (lit blank) 0 [] (NInt 0) (NInt 0)
    (NInt 0) (NInt 0) (NInt 0) (NInt 0).


(** A fill-in-multiple-blanks question with one blank *)
Definition ex_blanks : question :=
  ex_question 7 None "fill_in_multiple_blanks_question"
    (lit "Capital of France: [b1]") [ex_answer "Paris" 100 "b1"].

(** The same body as a multiple-dropdowns question *)
Definition ex_dropdowns : question :=
  ex_question 8 None "multiple_dropdowns_question"
    (lit "Capital of France: [b1]") [ex_answer "Paris" 100 "b1"].



(** ** Vocabulary of the statements about the assembler *)

(** The key under which [main] looks up the group of a question: a
    group id that is neither null nor zero *)
Definition group_key (q : question) : option Z :=
  match quiz_group_id q with
  | Some k => if k =? 0 then None else Some k
  | None => None
  end.

Definition in_group (k : Z) (q : question) : bool :=
  match group_key q with
  | Some k' => k' =? k
  | None => false
  end.






(** [l1] is [l2] with some elements left out *)
Inductive subsequence {A : Type} : list A -> list A -> Prop :=
| subsequence_nil : subsequence [] []
| subsequence_skip x l1 l2 : subsequence l1 l2 -> subsequence l1 (x :: l2)
| subsequence_keep x l1 l2 : subsequence l1 l2 -> subsequence (x :: l1) (x :: l2).



(** A quiz with an ungrouped question and two members of group 10, as
    the reconciler returns it, all three confirmed by the operator *)
Definition ex_reconciled : Dict.t question * Dict.t group :=
  match reconcile ex_get_group 1 (lit "/q")
          [ex_q 1 None; ex_q 2 (Some 10); ex_q 3 (Some 10)] with
  | Ret r => r
  | _ => ([], [])
  end.




(** ** Vocabulary of the statements about the sanitizer *)

(** [c] does not occur in [s] *)
Definition lacks (c : ascii) (s : str) : bool := forallb (not_char c) s.









(** ** Vocabulary of the statements about the image extractor *)

Definition src_eq : str := lit "src=" ++ dq.
Definition alt_eq : str := lit "alt=" ++ dq.

(** An img tag with a src attribute and, after it, an alt attribute,
    possibly behind an opening paragraph tag and before a closing one *)
Record img : Type := mkImg {
  p_open : bool;               (* an opening paragraph tag just before *)
  before_src : str;            (* what stands between the tag name and src *)
  img_url : str;
  before_alt : str;            (* what stands between src and alt *)
  img_alt : str;
  after_alt : str;             (* what stands between alt and the end *)
  p_close : bool               (* a closing paragraph tag just after *)
}.

(** What follows the URL's closing quote inside the tag *)
Definition after_src (i : img) : str :=
  before_alt i ++ alt_eq ++ img_alt i ++ dq ++ after_alt i.

Definition img_tag (i : img) : str :=
  lit "<img" ++ before_src i ++ src_eq ++ img_url i ++ dq ++ after_src i
    ++ lit ">".

Definition opening (i : img) : str := if p_open i then lit "<p>" else [].
Definition closing (i : img) : str := if p_close i then lit "</p>" else [].

(** The tag with the paragraph tags that stand right around it *)
Definition img_block (i : img) : str := opening i ++ img_tag i ++ closing i.

(** The attributes hold no closing angle bracket, the URL is absolute,
    holds no double quote and is the value of the only src attribute, the
    alt attribute is the first of the tag, its text holds neither a double
    quote nor an opening angle bracket. *)
Definition plain_img (i : img) : bool :=
  lacks gt_sign (before_src i) && lacks gt_sign (img_url i)
  && lacks gt_sign (after_src i)
  && lacks dquote (img_url i) && startswith (lit "http") (img_url i)
  && negb (occurs src_eq (img_url i ++ dq ++ after_src i))
  && negb (occurs alt_eq
             (lit "<img" ++ before_src i ++ src_eq ++ img_url i ++ dq
                ++ before_alt i))
  && lacks dquote (img_alt i) && lacks lt_sign (img_alt i).




(** Text between images: it holds no img tag, does not end with an
    opening paragraph tag that would enclose the next image, and does not
    start with a closing one that would enclose the previous image. *)
Definition plain_text (prev_closed : bool) (t : str) (next_opened : bool)
    : bool :=
  negb (occurs (lit "<img") t)
  && (next_opened || negb (endswith (lit "<p>") t))
  && (prev_closed || negb (startswith (lit "</p>") t)).

(** No match of the img pattern and no occurrence of an img tag, with or
    without its paragraph tag, starts inside [t] when [next] follows. *)
Definition quiet (t next : str) : Prop :=
  forall i, (i < List.length t)%nat ->
    startswith (lit "<img") (skipn i t ++ next) = false /\
    startswith (lit "<p><img") (skipn i t ++ next) = false.



(** The groups of the match of an img block, last closed first *)
Definition img_captures (i : img) : captures :=
  (if p_close i then [(4%nat, lit "</p>")] else [])
  ++ [(2%nat, img_tag i); (3%nat, img_url i)]
  ++ (if p_open i then [(1%nat, lit "<p>")] else []).


(** ** Two images, for the examples *)

(** The server answers with an SVG for URLs that end in 2, with a PNG for
    the others. *)
Definition ex_image_server (url : str) : image_response :=
  if endswith (lit "2") url then mkImage true (lit "image/svg+xml") (lit "SVG")
  else mkImage true (lit "image/png") (lit "PNG").

(** An image in a paragraph of its own *)
Definition ex_img_enclosed : img :=
  mkImg true (lit " ") (lit "http://c/1") (lit " ") (lit "one") [] true.

(** An image at the start of a paragraph that goes on *)
Definition ex_img_in_text : img :=
  mkImg true (lit " ") (lit "http://c/2") (lit " ") (lit "two") [] false.

(** An image outside any paragraph *)
Definition ex_img_bare : img :=
  mkImg false (lit " ") (lit "http://c/1") (lit " ") (lit "one") [] false.

Definition ex_two_images : str :=
  lit "Look:" ++ img_block ex_img_enclosed ++ lit "then"
    ++ img_block ex_img_in_text ++ lit " more</p>".

(** The same tag twice *)
Definition ex_same_image_twice : str :=
  img_block ex_img_bare ++ lit "x" ++ img_block ex_img_bare.

(** ** Choosing the course and the quiz

    [Canvas.courses], [Canvas.course], [Course.quizzes], [Course.quiz]
    and the URL prefixes of [CourseSubObject].  What the menus print is
    left out. *)

Record course_data : Type := mkCourse {
  course_id : Z;
  term_name : option str;      (* the name of the term; None: a key is absent *)
  course_code : option str     (* None: the key is absent *)
}.

(** A quiz record of the wire: the fields [main] reads and its type *)
Record quiz_data : Type := mkQuizData {
  quiz_type : str;
  quiz_fields : quiz
}.

(** [l[i]] for a Python list: a negative index counts from the end *)
Definition list_index {A} (l : list A) (i : Z) : outcome A :=
  let n := Z.of_nat (List.length l) in
  let j := if i <? 0 then i + n else i in
  if (0 <=? j) && (j <? n) then
    match nth_error l (Z.to_nat j) with
    | Some x => Ret x
    | None => Raise IndexError
    end
  else Raise IndexError.

(** [for x in pages: return x], and nothing when there is no page *)
Definition first_page {A} (pages : list A) : option A :=
  match pages with
  | x :: _ => Some x
  | [] => None
  end.

(** [CourseSubObject.compute_base_url] and [compute_url_prefix] *)
Definition compute_base_url (parent_url_prefix route_name : str) : str :=
  parent_url_prefix ++ lit "/" ++ route_name.

Definition compute_url_prefix (parent_url_prefix route_name : str) (id : Z)
    : str :=
  compute_base_url parent_url_prefix route_name ++ lit "/" ++ str_of_Z id.

(** [Course.url_prefix] and the prefix of a [Quiz] of that course *)
Definition course_url_prefix (c : course_data) : str :=
  lit "/courses/" ++ str_of_Z (course_id c).

Definition quiz_url_prefix (c : course_data) (qz : quiz_data) : str :=
  compute_url_prefix (course_url_prefix c) (lit "quizzes")
    (quiz_id (quiz_fields qz)).

Section Selection.
(** [int(s)] for a line the operator types: None when it raises *)
Variable parse_int : str -> option Z.
Variable fuel : nat.
(** The endpoints that list courses and quizzes, and those of one
    course and one quiz *)
Variable get_courses : str -> response (list course_data).
Variable get_course : str -> response course_data.
Variable get_quizzes : str -> response (list quiz_data).
Variable get_quiz : str -> response quiz_data.

(** [int(input(prompt))] and the indexing of the menu *)
Definition choose {A} (menu : list A) (inputs : list str)
    : outcome (A * list str) :=
  '(line, inputs) <- input inputs ;;
  match parse_int line with
  | None => Raise ValueError
  | Some index => x <- list_index menu index ;; Ret (x, inputs)
  end.

(** [Canvas.courses] *)
Definition courses : outcome (list course_data) :=
  pages <- request get_courses fuel
             (lit "/courses?include[]=term&state[]=available") ;;
  Ret (List.concat pages).

(** [Canvas.course] *)
Definition course (id : option Z) (inputs : list str)
    : outcome (course_data * list str) :=
  by_id <- match id with
           | Some k =>
               pages <- request get_course fuel
                          (lit "/courses/" ++ str_of_Z k
                             ++ lit "?include[]=term") ;;
               Ret (first_page pages)
           | None => Ret None
           end ;;
  match by_id with
  | Some c => Ret (c, inputs)
  | None => cs <- courses ;; choose cs inputs
  end.

Definition is_assignment (qz : quiz_data) : bool :=
  str_eqb (quiz_type qz) (lit "assignment").

(** [Course.quizzes] *)
Definition quizzes (c : course_data) : outcome (list quiz_data) :=
  pages <- request get_quizzes fuel (course_url_prefix c ++ lit "/quizzes") ;;
  Ret (fold_left (fun acc result => acc ++ filter is_assignment result)
         pages []).

(** [Course.quiz] *)
Definition Course_quiz (c : course_data) (id : option Z) (inputs : list str)
    : outcome (quiz_data * list str) :=
  by_id <- match id with
           | Some k =>
               pages <- request get_quiz fuel
                          (course_url_prefix c ++ lit "/quizzes/"
                             ++ str_of_Z k) ;;
               Ret (first_page pages)
           | None => Ret None
           end ;;
  match by_id with
  | Some qz => Ret (qz, inputs)
  | None => qs <- quizzes c ;; choose qs inputs
  end.
End Selection.

Section Command.
Variable repr_float : Q -> str.
Variable json_dumps_question : question -> str.
Variable uuid4 : nat -> str.
Variable parse_int : str -> option Z.
Variable get_image : str -> image_response.
Variable get_group : str -> response (option group).
Variable get_questions : str -> response (list question).
Variable get_courses : str -> response (list course_data).
Variable get_course : str -> response course_data.
Variable get_quizzes : str -> response (list quiz_data).
Variable get_quiz : str -> response quiz_data.
Variable fuel : nat.

(** Lines 293-301 before [main] goes on with the chosen quiz: the check
    of the repository, the choice of the course, the line that prints
    its term and code, the choice of the quiz. *)
Definition main_command (o : main_options) (course_option quiz_option : option Z)
    (fs : filesystem) (inputs : list str) : outcome main_state :=
  if negb (path_exists fs (path_join (pl_repo o) (lit "infoCourse.json")))
  then Raise ValueError
  else
    '(c, inputs) <-
       course parse_int fuel get_courses get_course course_option inputs ;;
    match term_name c, course_code c with
    | Some _, Some _ =>
        '(qz, inputs) <-
           Course_quiz parse_int fuel get_quizzes get_quiz c quiz_option
             inputs ;;
        main repr_float json_dumps_question uuid4 get_image get_group
          get_questions fuel o (quiz_fields qz) (quiz_url_prefix c qz) fs inputs
    | _, _ => Raise KeyError
    end.
End Command.

(** ** Vocabulary of the statements about [Canvas.request] *)

(** Starting at [url], the pages [rs] are served one after the other,
    each with a success status, none of them the last, each naming the
    next one; the page after them is the one at [v]. *)
Inductive follows {A : Type} (get : str -> response A)
    : str -> list (response A) -> str -> Prop :=
| follows_nil url : follows get url [] url
| follows_cons url u rs v :
    status_ok (get url) = true ->
    last_page (get url) = false ->
    link_next (get url) = Some u ->
    follows get u rs v ->
    follows get url (get url :: rs) v.

(** ** Servers, for the examples about [Canvas.request] *)

(** Three pages of numbers under [/p1], [/p2] and [/p3]; a page under
    [/loop] that names itself as the next one; a page under [/open] that
    is not the last and names no next one; an error status elsewhere. *)
Definition ex_page (body : list Z) (current last : string) (next : option str)
    : response (list Z) :=
  mkResponse true body (Some (lit current)) (Some (lit last)) next.

Definition ex_pages (url : str) : response (list Z) :=
  if str_eqb url (lit "/p1")
  then ex_page [1; 2] "/p1" "/p3" (Some (lit "/p2"))
  else if str_eqb url (lit "/p2")
  then ex_page [3] "/p2" "/p3" (Some (lit "/p3"))
  else if str_eqb url (lit "/p3")
  then ex_page [4; 5] "/p3" "/p3" None
  else if str_eqb url (lit "/loop")
  then ex_page [] "/loop" "/end" (Some (lit "/loop"))
  else if str_eqb url (lit "/open")
  then ex_page [] "/open" "/end" None
  else if str_eqb url (lit "/q1")
  then ex_page [6] "/q1" "/q9" (Some (lit "/gone"))
  else error_response [].

(** ** A course and its quizzes, for the examples *)

(** [int(s)] for the lines of the examples: decimal digits, possibly
    after a minus sign *)
Fixpoint ex_digits (acc : Z) (s : str) : option Z :=
  match s with
  | [] => Some acc
  | x :: s' =>
      let n := nat_of_ascii x in
      if ((48 <=? n) && (n <=? 57))%nat
      then ex_digits (10 * acc + Z.of_nat (n - 48)) s'
      else None
  end.

Definition ex_parse_int (s : str) : option Z :=
  match s with
  | [] => None
  | x :: s' =>
      if ascii_eqb x "-"%char
      then match s' with
           | [] => None
           | _ => option_map Z.opp (ex_digits 0 s')
           end
      else ex_digits 0 s
  end.

Definition ex_course (id : Z) (term : string) : course_data :=
  mkCourse id (Some (lit term)) (Some (lit "CS 101")).

Definition ex_get_courses (url : str) : response (list course_data) :=
  ok_response [ex_course 11 "Fall"; ex_course 12 "Winter"; ex_course 13 "Spring"].

Definition ex_get_course (url : str) : response course_data :=
  if str_eqb url (lit "/courses/12?include[]=term")
  then ok_response (ex_course 12 "Winter")
  else error_response (mkCourse 0 None None).

Definition ex_quiz (id : Z) (type title : string) : quiz_data :=
  mkQuizData (lit type) (mkQuiz id (lit title) [] [] [] [] 0).

Definition ex_get_quizzes (url : str) : response (list quiz_data) :=
  ok_response [ex_quiz 1 "practice_quiz" "Warm-up";
               ex_quiz 2 "assignment" "Quiz 1";
               ex_quiz 3 "survey" "Feedback";
               ex_quiz 4 "assignment" "Quiz 2"].

Definition ex_get_quiz (url : str) : response quiz_data :=
  if str_eqb url (lit "/courses/12/quizzes/1")
  then ok_response (ex_quiz 1 "practice_quiz" "Warm-up")
  else error_response (ex_quiz 0 "" "").

(** ** A run of the command, for the examples *)

Definition ex_options : main_options :=
  mkOptions (lit "repo") (lit "Fa24") [] (lit "Quiz") (lit "1") (lit "None").

(** A repository that holds its course file and nothing else *)
Definition ex_repo : filesystem :=
  mkFs [lit "repo"] [(lit "repo/infoCourse.json", Text [])].

(** The questions of quiz 1 of course 12: two essays *)
Definition ex_get_questions (url : str) : response (list question) :=
  if str_eqb url (lit "/courses/12/quizzes/1/questions?per_page=100")
  then ok_response [ex_q 1 None; ex_q 2 None]
  else error_response [].

Definition ex_command (course_option quiz_option : option Z)
    (inputs : list str) : outcome main_state :=
  main_command ex_repr_float ex_json_dumps ex_uuid4 ex_parse_int ex_get_image
    ex_get_group ex_get_questions ex_get_courses ex_get_course ex_get_quizzes
    ex_get_quiz 3 ex_options course_option quiz_option ex_repo inputs.

Definition ex_command_result (course_option quiz_option : option Z)
    (inputs : list str) : main_state :=
  match ex_command course_option quiz_option inputs with
  | Ret st => st
  | _ => mkMain ex_repo [] [] [] 0
  end.

(** Two pages of questions under the quiz prefix [/q] *)
Definition ex_question_pages (url : str) : response (list question) :=
  if str_eqb url (lit "/q/questions?per_page=100")
  then mkResponse true [ex_q 1 None; ex_q 2 (Some 10)]
         (Some (lit "1")) (Some (lit "2")) (Some (lit "/q/page2"))
  else if str_eqb url (lit "/q/page2")
  then mkResponse true [ex_q 3 (Some 10); ex_q 4 None]
         (Some (lit "2")) (Some (lit "2")) None
  else error_response [].

(** ** Vocabulary of the statements about names *)

Definition is_ascii (x : ascii) : bool := (nat_of_ascii x <? 128)%nat.

(** The letters and digits of ASCII *)
Definition is_ascii_alnum (x : ascii) : bool :=
  let n := nat_of_ascii x in
  ((48 <=? n) && (n <=? 57) || (65 <=? n) && (n <=? 90)
   || (97 <=? n) && (n <=? 122))%nat.

(** The length of the longest prefix of [s] whose characters satisfy [p] *)
Fixpoint run (p : ascii -> bool) (s : str) : nat :=
  match s with
  | x :: s' => if p x then S (run p s') else O
  | [] => O
  end.

(** ** More images, for the examples *)

(** Two img tags whose URLs are not absolute *)
Definition ex_relative_images : str :=
  lit "<p><img src=" ++ dq ++ lit "/files/a.png" ++ dq ++ lit "></p> and "
    ++ lit "<img src=" ++ dq ++ lit "data:x" ++ dq ++ lit ">".

(** The two images of [ex_two_images], extracted in the repository of
    the examples *)
Definition ex_extracted : filesystem * str :=
  match handle_images ex_image_server (lit "q") ex_repo ex_two_images with
  | Ret r => r
  | _ => (ex_repo, [])
  end.

(** A server that answers every image request with an error status *)
Definition ex_failing_server (url : str) : image_response :=
  mkImage false [] [].

(** A questions directory in which Essay and Essay_1 are taken *)
Definition ex_fs_taken : filesystem :=
  mkFs [lit "repo/questions/Quiz1"; lit "repo/questions/Quiz1/Essay";
        lit "repo/questions/Quiz1/Essay_1"] [].

(** ** Vocabulary of the statements about placeholders *)

Definition lbracket : ascii := "["%char.
Definition rbracket : ascii := "]"%char.

(** The distinct elements of [l], each at the place where it stands
    first *)
Fixpoint first_seen (l : list str) : list str :=
  match l with
  | [] => []
  | k :: l' => k :: filter (fun k' => negb (str_eqb k' k)) (first_seen l')
  end.

Definition has_blank (k : str) (a : answer) : bool := str_eqb (a_blank_id a) k.

(** A question text with placeholders: pieces of text and, between
    them, names in square brackets *)
Inductive chunk : Type :=
| CText (t : str)
| CHole (name : str).

Definition chunk_text (c : chunk) : str :=
  match c with
  | CText t => t
  | CHole name => lit "[" ++ name ++ lit "]"
  end.

Definition template_text (cs : list chunk) : str :=
  List.concat (map chunk_text cs).

(** A piece of text holds no opening bracket, a name no bracket *)
Definition plain_chunk (c : chunk) : bool :=
  match c with
  | CText t => lacks lbracket t
  | CHole name => lacks lbracket name && lacks rbracket name
  end.

(** The first text that [subs] gives for the name [k] *)
Fixpoint first_binding (k : str) (subs : list (str * str)) : option str :=
  match subs with
  | [] => None
  | (k', s) :: subs' => if str_eqb k k' then Some s else first_binding k subs'
  end.

(** A chunk with its placeholder filled in, when [subs] has its name *)
Definition fill (subs : list (str * str)) (c : chunk) : str :=
  match c with
  | CText t => t
  | CHole name =>
      match first_binding name subs with
      | Some s => s
      | None => chunk_text c
      end
  end.

Definition filled (subs : list (str * str)) (cs : list chunk) : str :=
  List.concat (map (fill subs) cs).

(** What stands for the placeholder of a variable and of a blank *)
Definition param_of (v : variable) : str * str :=
  (v_name v, lit "{{params." ++ v_name v ++ lit "}}").

Definition dropdown_for (kv : str * list answer) : str * str :=
  (fst kv, dropdown_of (fst kv) (snd kv)).

(** A calculated question with two variables, for the examples *)
Definition ex_calculated : question :=
  mkQuestion 9 None 0 (NInt 1) (lit "calculated_question")
    (lit "What is [a] + [b]?") []
    [mkVariable (lit "a") (NInt 1) (NInt 9) 0;
     mkVariable (lit "b") (NInt 1) (NInt 9) 0]
    [lit "s = a + b"] 0 [] [] [] [] [].

(** The chunk a placeholder is once the name [k] is replaced by [new] *)
Definition put (k new : str) (c : chunk) : chunk :=
  match c with
  | CHole n => if str_eqb n k then CText new else c
  | CText _ => c
  end.

(** * Properties *)

(** ** Strings *)

Lemma ascii_eqb_eq (a b : ascii) : ascii_eqb a b = true <-> a = b.
Proof. unfold ascii_eqb. apply Ascii.eqb_eq. Qed.

Lemma ascii_eqb_refl (a : ascii) : ascii_eqb a a = true.
Proof. apply ascii_eqb_eq. reflexivity. Qed.

Lemma str_eqb_eq (a b : str) : str_eqb a b = true <-> a = b.
Proof.
  revert b. induction a as [|x a IH]; intros [|y b]; simpl; split;
    try congruence; try reflexivity.
  - intros H. apply andb_true_iff in H. destruct H as [H1 H2].
    apply ascii_eqb_eq in H1. apply IH in H2. congruence.
  - intros H. injection H as -> ->.
    rewrite ascii_eqb_refl. simpl. apply IH. reflexivity.
Qed.

Lemma str_eqb_refl (a : str) : str_eqb a a = true.
Proof. apply str_eqb_eq. reflexivity. Qed.

Lemma str_eqb_neq (a b : str) : str_eqb a b = false <-> a <> b.
Proof.
  split.
  - intros H E. apply str_eqb_eq in E. congruence.
  - intros H. destruct (str_eqb a b) eqn:E; [|reflexivity].
    apply str_eqb_eq in E. contradiction.
Qed.

Lemma startswith_app (p s : str) : startswith p (p ++ s) = true.
Proof.
  induction p as [|x p IH]; simpl; [reflexivity|].
  rewrite ascii_eqb_refl. exact IH.
Qed.

Lemma startswith_spec (p s : str) :
  startswith p s = true <-> exists t, s = p ++ t.
Proof.
  revert s. induction p as [|x p IH]; intros s; simpl.
  - split; [exists s; reflexivity | reflexivity].
  - destruct s as [|y s].
    + split; [discriminate | intros [t H]; discriminate].
    + rewrite andb_true_iff, ascii_eqb_eq, IH. split.
      * intros [-> [t ->]]. exists t. reflexivity.
      * intros [t H]. injection H as -> ->. split; [reflexivity | eauto].
Qed.

Lemma skipn_app_exact {A} (p s : list A) : skipn (List.length p) (p ++ s) = s.
Proof. induction p; simpl; auto. Qed.

Lemma firstn_app_exact {A} (p s : list A) : firstn (List.length p) (p ++ s) = p.
Proof. induction p; simpl; congruence. Qed.

(** ** Dicts *)

Lemma dict_get_set_same {V} (k : Z) (v : V) (d : Dict.t V) :
  Dict.get k (Dict.set k v d) = Some v.
Proof.
  induction d as [|[k' v'] d IH]; simpl.
  - rewrite Z.eqb_refl. reflexivity.
  - destruct (k =? k') eqn:E; simpl; rewrite E; auto.
Qed.

Lemma dict_get_set_other {V} (k k' : Z) (v : V) (d : Dict.t V) :
  k <> k' -> Dict.get k (Dict.set k' v d) = Dict.get k d.
Proof.
  intros N. induction d as [|[k2 v2] d IH]; simpl.
  - apply Z.eqb_neq in N. rewrite N. reflexivity.
  - destruct (k' =? k2) eqn:E; simpl.
    + apply Z.eqb_eq in E. subst k2. apply Z.eqb_neq in N. rewrite N.
      reflexivity.
    + destruct (k =? k2); auto.
Qed.

Lemma dict_get_None {V} (k : Z) (d : Dict.t V) :
  Dict.get k d = None <-> ~ In k (Dict.keys d).
Proof.
  induction d as [|[k' v'] d IH]; simpl.
  - tauto.
  - destruct (k =? k') eqn:E.
    + apply Z.eqb_eq in E. split; [discriminate | intros H; exfalso; auto].
    + apply Z.eqb_neq in E. rewrite IH. split; [intros H [H1|H1]; auto | tauto].
Qed.

Lemma dict_get_In {V} (k : Z) (v : V) (d : Dict.t V) :
  Dict.get k d = Some v -> In (k, v) d.
Proof.
  induction d as [|[k' v'] d IH]; simpl; [discriminate|].
  destruct (k =? k') eqn:E.
  - apply Z.eqb_eq in E. intros H. injection H as ->. left. congruence.
  - auto.
Qed.

Lemma dict_In_get {V} (k : Z) (v : V) (d : Dict.t V) :
  NoDup (Dict.keys d) -> In (k, v) d -> Dict.get k d = Some v.
Proof.
  induction d as [|[k' v'] d IH]; simpl; [tauto|].
  intros ND H. inversion ND as [|? ? Hn ND']; subst.
  destruct H as [H|H].
  - injection H as -> ->. rewrite Z.eqb_refl. reflexivity.
  - destruct (k =? k') eqn:E.
    + apply Z.eqb_eq in E. subst k'. exfalso. apply Hn.
      change (In (fst (k, v)) (map fst d)). apply in_map. exact H.
    + auto.
Qed.

(** A new key goes to the end: that is where a Python dict puts it. *)
Lemma dict_set_new {V} (k : Z) (v : V) (d : Dict.t V) :
  ~ In k (Dict.keys d) -> Dict.set k v d = d ++ [(k, v)].
Proof.
  induction d as [|[k' v'] d IH]; simpl; [reflexivity|].
  intros H. destruct (k =? k') eqn:E.
  - apply Z.eqb_eq in E. exfalso. auto.
  - rewrite IH; auto.
Qed.

Lemma dict_keys_set {V} (k : Z) (v : V) (d : Dict.t V) :
  Dict.keys (Dict.set k v d)
  = if existsb (Z.eqb k) (Dict.keys d) then Dict.keys d else Dict.keys d ++ [k].
Proof.
  induction d as [|[k' v'] d IH]; simpl; [reflexivity|].
  destruct (k =? k') eqn:E; simpl; [reflexivity|].
  unfold Dict.keys in *. rewrite IH.
  destruct (existsb (Z.eqb k) (map fst d)); reflexivity.
Qed.

(** ** The stable sort *)

Section StableSortFacts.
Context {V : Type} (key : V -> Z).

Lemma insert_by_perm (x : Z * V) (l : list (Z * V)) :
  Permutation (insert_by key x l) (x :: l).
Proof.
  induction l as [|y l IH]; simpl; [reflexivity|].
  destruct (key (snd x) <=? key (snd y)); [reflexivity|].
  rewrite IH. apply perm_swap.
Qed.

Lemma sorted_by_perm (l : list (Z * V)) : Permutation (sorted_by key l) l.
Proof.
  induction l as [|x l IH]; simpl; [reflexivity|].
  rewrite insert_by_perm. constructor. exact IH.
Qed.



Lemma sorted_by_In (x : Z * V) (l : list (Z * V)) :
  In x (sorted_by key l) <-> In x l.
Proof.
  split; apply Permutation_in;
    [apply sorted_by_perm | symmetry; apply sorted_by_perm].
Qed.

(** A list already in strictly increasing order is left as it is. *)
Lemma sorted_by_id (l : list (Z * V)) :
  StronglySorted (fun a b => key (snd a) < key (snd b)) l ->
  sorted_by key l = l.
Proof.
  induction 1 as [|x l Hs IH Hall]; simpl; [reflexivity|].
  rewrite IH. destruct l as [|y l]; simpl; [reflexivity|].
  inversion Hall; subst.
  destruct (key (snd x) <=? key (snd y)) eqn:E; [reflexivity|].
  apply Z.leb_gt in E. lia.
Qed.
End StableSortFacts.

(** ** The reconciler *)

Lemma quiz_group_id_set_position q p :
  quiz_group_id (set_position q p) = quiz_group_id q.
Proof. reflexivity. Qed.

Lemma position_set_position q p : position (set_position q p) = p.
Proof. reflexivity. Qed.

Lemma set_position_twice q a b :
  set_position (set_position q a) b = set_position q b.
Proof. reflexivity. Qed.

Lemma set_position_same q : set_position q (position q) = q.
Proof. destruct q; reflexivity. Qed.

Lemma shift_question_bump grp q :
  shift_question grp q = shift_by [g_position grp] q.
Proof.
  unfold shift_question, shift_by, bump. simpl.
  destruct (is_None (quiz_group_id q)); rewrite ?andb_true_r, ?andb_false_r;
    [|reflexivity].
  destruct (g_position grp <=? position q); [reflexivity|].
  symmetry. apply set_position_same.
Qed.

Lemma shift_by_cons p ps q :
  shift_by ps (shift_by [p] q) = shift_by (p :: ps) q.
Proof.
  unfold shift_by. simpl.
  destruct (is_None (quiz_group_id q)) eqn:E; simpl; rewrite ?E; reflexivity.
Qed.

Lemma shift_by_nil q : shift_by [] q = q.
Proof.
  unfold shift_by. simpl. destruct (is_None _); [apply set_position_same | reflexivity].
Qed.

Lemma shift_pass_spec (gs : Dict.t group) (qs : Dict.t question) :
  shift_pass gs qs
  = map (fun kv => (fst kv, shift_by (group_positions gs) (snd kv))) qs.
Proof.
  unfold shift_pass, group_positions, Dict.values.
  revert qs. induction gs as [|[k g] gs IH]; intros qs; simpl.
  - rewrite <- (map_id qs) at 1. apply map_ext. intros [a b]. simpl.
    rewrite shift_by_nil. reflexivity.
  - rewrite IH. unfold shift_for_group. rewrite map_map. apply map_ext.
    intros [a b]. simpl. rewrite shift_question_bump. rewrite shift_by_cons.
    reflexivity.
Qed.


Lemma existsb_eqb_In (k : Z) (l : list Z) :
  existsb (Z.eqb k) l = true <-> In k l.
Proof.
  rewrite existsb_exists. split.
  - intros [x [H E]]. apply Z.eqb_eq in E. congruence.
  - intros H. exists k. split; [exact H | apply Z.eqb_refl].
Qed.

Lemma dict_set_In {V} (k k' : Z) (v v' : V) (d : Dict.t V) :
  In (k, v) (Dict.set k' v' d) -> (k, v) = (k', v') \/ In (k, v) d.
Proof.
  induction d as [|[k2 v2] d IH]; simpl.
  - intros [H|[]]. left. congruence.
  - destruct (k' =? k2) eqn:E; simpl.
    + apply Z.eqb_eq in E. subst k2. intros [H|H]; [left; congruence | auto].
    + intros [H|H]; [auto|]. apply IH in H. tauto.
Qed.



Section ReconcilerFacts.
Variable get_group : str -> response (option group).
Variable fuel : nat.
Variable url_prefix : str.

Local Abbreviation lookup := (question_group get_group fuel url_prefix).
Local Abbreviation resolve := (resolve_group get_group fuel url_prefix).
Local Abbreviation step := (reconcile_question get_group fuel url_prefix).
Local Abbreviation pass := (first_pass get_group fuel url_prefix).

Local Abbreviation cache_ok := (cache_ok (question_group get_group fuel url_prefix)).

Lemma lookup_None : lookup None = Ret None.
Proof. reflexivity. Qed.

Lemma cache_ok_nil : cache_ok [].
Proof. split; [constructor | discriminate]. Qed.

Lemma resolve_group_ret groups gid g groups' :
  cache_ok groups ->
  resolve groups gid = Ret (g, groups') ->
  lookup gid = Ret g /\ cache_ok groups' /\
  groups' = match gid, g with
            | Some k, Some g' =>
                if existsb (Z.eqb k) (Dict.keys groups) then groups
                else groups ++ [(k, g')]
            | _, _ => groups
            end.
Proof.
  intros [ND OK] H. unfold resolve_group in H. destruct gid as [k|].
  - destruct (Dict.get k groups) as [g0|] eqn:E.
    + injection H as <- <-. split; [auto|]. split; [split; auto|].
      assert (In k (Dict.keys groups)) as HI.
      { destruct (existsb (Z.eqb k) (Dict.keys groups)) eqn:X.
        - apply existsb_eqb_In. exact X.
        - exfalso. assert (Dict.get k groups = None) as C; [|congruence].
          apply dict_get_None. intros HI. apply existsb_eqb_In in HI.
          congruence. }
      apply existsb_eqb_In in HI. rewrite HI. reflexivity.
    + destruct (lookup (Some k)) as [r| |] eqn:L; simpl in H; try discriminate.
      apply dict_get_None in E.
      assert (existsb (Z.eqb k) (Dict.keys groups) = false) as X.
      { destruct (existsb _ _) eqn:X; [|reflexivity].
        apply existsb_eqb_In in X. contradiction. }
      destruct r as [g'|]; injection H as <- <-.
      * split; [reflexivity|]. rewrite X. rewrite dict_set_new by exact E.
        split; [|reflexivity]. split.
        -- unfold Dict.keys. rewrite map_app. simpl.
           apply NoDup_app; [exact ND | repeat constructor; simpl; tauto |].
           intros a Ha [Hb|[]]. subst a. contradiction.
        -- intros k2 g2 G. destruct (Z.eq_dec k2 k) as [->|N].
           ++ rewrite <- dict_set_new in G by exact E.
              rewrite dict_get_set_same in G. congruence.
           ++ rewrite <- dict_set_new in G by exact E.
              rewrite dict_get_set_other in G by exact N. auto.
      * split; [reflexivity|]. split; [split; auto | reflexivity].
  - simpl in H. injection H as <- <-. split; [reflexivity|].
    split; [split; auto | reflexivity].
Qed.

Lemma resolved_by_lookup q g :
  lookup (quiz_group_id q) = Ret g -> resolved_by lookup q = g.
Proof. unfold resolved_by. intros ->. destruct g; reflexivity. Qed.

(** One step of the first pass, in terms of what the lookup returns *)
Lemma reconcile_question_ret st q st' :
  cache_ok (r_groups st) ->
  step st q = Ret st' ->
  exists g groups',
    lookup (quiz_group_id q) = Ret g /\
    resolve (r_groups st) (quiz_group_id q) = Ret (g, groups') /\
    cache_ok groups' /\
    st' = match g with
          | Some g' =>
              mkReconciler
                (Dict.set (q_id q)
                   (set_position (set_points_possible q (question_points g'))
                      (g_position g')) (r_questions st))
                groups' (r_i st)
          | None =>
              mkReconciler
                (Dict.set (q_id q) (set_position q (r_i st)) (r_questions st))
                groups' (r_i st + 1)
          end.
Proof.
  intros OK H. unfold reconcile_question in H.
  destruct (resolve (r_groups st) (quiz_group_id q)) as [[g groups']| |] eqn:R;
    simpl in H; try discriminate.
  destruct (resolve_group_ret _ _ _ _ OK R) as [L [OK' _]].
  exists g, groups'. repeat split; try assumption; try apply OK'.
  destruct g; injection H as <-; reflexivity.
Qed.


Lemma first_pass_cache st wire st' :
  cache_ok (r_groups st) -> pass st wire = Ret st' -> cache_ok (r_groups st').
Proof.
  revert st. induction wire as [|q wire IH]; intros st OK H; simpl in H.
  - injection H as <-. exact OK.
  - destruct (step st q) as [st1| |] eqn:S1; simpl in H; try discriminate.
    destruct (reconcile_question_ret _ _ _ OK S1) as [g [gs [_ [_ [OK1 ->]]]]].
    destruct g; (eapply IH; [|exact H]; simpl; exact OK1).
Qed.

Lemma first_pass_spec st wire st' :
  cache_ok (r_groups st) -> pass st wire = Ret st' ->
  r_questions st'
  = fold_left (fun d q' => Dict.set (q_id q') q' d)
      (annotate lookup (r_i st) wire) (r_questions st)
  /\ r_i st' = r_i st + Z.of_nat (List.length (sequential lookup wire)).
Proof.
  revert st. induction wire as [|q wire IH]; intros st OK H; simpl in H.
  - injection H as <-. simpl. split; [reflexivity | lia].
  - destruct (step st q) as [st1| |] eqn:S1; simpl in H; try discriminate.
    destruct (reconcile_question_ret _ _ _ OK S1) as [g [gs [L [_ [OK1 ->]]]]].
    unfold sequential. simpl. rewrite (resolved_by_lookup _ _ L).
    destruct g as [g|]; simpl.
    + apply IH in H; [|exact OK1]. destruct H as [Q I]. simpl in Q, I.
      split; assumption.
    + apply IH in H; [|exact OK1]. destruct H as [Q I]. simpl in Q, I.
      split; [assumption|]. unfold sequential in I. lia.
Qed.


(** The keys of the cache are group ids of questions of the wire. *)
Lemma first_pass_keys st wire st' :
  cache_ok (r_groups st) -> pass st wire = Ret st' ->
  forall k, In k (Dict.keys (r_groups st')) ->
    In k (Dict.keys (r_groups st)) \/
    exists q, In q wire /\ quiz_group_id q = Some k.
Proof.
  revert st. induction wire as [|q wire IH]; intros st OK H k Hk; simpl in H.
  - injection H as <-. left. exact Hk.
  - destruct (step st q) as [st1| |] eqn:S1; simpl in H; try discriminate.
    destruct (reconcile_question_ret _ _ _ OK S1) as [g [gs [L [R [OK1 E]]]]].
    destruct (resolve_group_ret _ _ _ _ OK R) as [_ [_ G]].
    assert (r_groups st1 = gs) as E1 by (subst st1; destruct g; reflexivity).
    assert (cache_ok (r_groups st1)) as OK2 by (rewrite E1; exact OK1).
    destruct (IH _ OK2 H k Hk) as [Hin|[q' [Hq' Gq']]].
    + rewrite E1, G in Hin.
      destruct (quiz_group_id q) as [k'|] eqn:Gq; [|left; exact Hin].
      destruct g as [g'|]; [|left; exact Hin].
      destruct (existsb (Z.eqb k') (Dict.keys (r_groups st)));
        [left; exact Hin|].
      unfold Dict.keys in Hin. rewrite map_app in Hin.
      apply in_app_or in Hin. destruct Hin as [Hin|[Hin|[]]];
        [left; exact Hin|].
      simpl in Hin. subst k'. right. exists q. split; [left; reflexivity | exact Gq].
    + right. exists q'. split; [right; exact Hq' | exact Gq'].
Qed.

Lemma annotate_ids i wire :
  map q_id (annotate lookup i wire) = map q_id wire.
Proof.
  revert i. induction wire as [|q wire IH]; intros i; simpl; [reflexivity|].
  destruct (resolved_by lookup q); simpl; rewrite IH; reflexivity.
Qed.

Lemma fold_set_new (l : list question) (d : Dict.t question) :
  NoDup (Dict.keys d ++ map q_id l) ->
  fold_left (fun d q' => Dict.set (q_id q') q' d) l d = d ++ map entry_of l.
Proof.
  revert d. induction l as [|q l IH]; intros d ND; simpl.
  - rewrite app_nil_r. reflexivity.
  - rewrite dict_set_new.
    + rewrite IH.
      * rewrite <- app_assoc. reflexivity.
      * unfold Dict.keys. rewrite map_app. simpl. rewrite <- app_assoc.
        exact ND.
    + intros Hin. apply NoDup_remove_2 in ND. apply ND.
      apply in_or_app. left. exact Hin.
Qed.

(** With distinct ids the first pass stores one record per question, in
    wire order. *)
Lemma first_pass_questions wire st' :
  NoDup (map q_id wire) ->
  pass (mkReconciler [] [] 1) wire = Ret st' ->
  r_questions st' = map entry_of (annotate lookup 1 wire).
Proof.
  intros ND H.
  apply first_pass_spec in H; [|exact cache_ok_nil]. destruct H as [Q _].
  simpl in Q. rewrite Q. rewrite fold_set_new; [reflexivity|].
  simpl. rewrite annotate_ids. exact ND.
Qed.
End ReconcilerFacts.

(** ** Inserting groups into a sequence of positions *)















Section ReconcilerTheorems.
Variable get_group : str -> response (option group).
Variable fuel : nat.
Variable url_prefix : str.

Local Abbreviation lookup := (question_group get_group fuel url_prefix).
Local Abbreviation pass := (first_pass get_group fuel url_prefix).
Local Abbreviation step := (reconcile_question get_group fuel url_prefix).
Local Abbreviation init := (mkReconciler [] [] 1).


Lemma first_pass_grouped st wire st' :
  cache_ok lookup (r_groups st) -> grouped_ok lookup (r_questions st) ->
  pass st wire = Ret st' -> grouped_ok lookup (r_questions st').
Proof.
  revert st. induction wire as [|q wire IH]; intros st OK GO H; simpl in H.
  - injection H as <-. exact GO.
  - destruct (step st q) as [st1| |] eqn:S1; simpl in H; try discriminate.
    destruct (reconcile_question_ret _ _ _ _ _ _ OK S1)
      as [g [gs [L [_ [OK1 E]]]]].
    apply IH in H; [exact H | subst st1; destruct g; exact OK1 |].
    intros id x k g2 Hin Gx Lx. subst st1.
    destruct g as [g|]; simpl in Hin; apply dict_set_In in Hin;
      destruct Hin as [Hin|Hin]; try (eapply GO; eassumption);
      injection Hin as -> ->; simpl in Gx; rewrite Gx in L.
    + simpl. congruence.
    + congruence.
Qed.


(** When the body of the group request is empty (a success status, no
    further page), the lookup of the group returns nothing. *)
Lemma question_group_empty k n :
  fuel = S n ->
  status_ok (get_group (url_prefix ++ lit "/groups/" ++ str_of_Z k)) = true ->
  last_page (get_group (url_prefix ++ lit "/groups/" ++ str_of_Z k)) = true ->
  resp_json (get_group (url_prefix ++ lit "/groups/" ++ str_of_Z k)) = None ->
  lookup (Some k) = Ret None.
Proof.
  intros -> S L J. unfold question_group, request.
  destruct (k =? 0); [reflexivity|].
  cbn [request_loop]. rewrite S, L, J. reflexivity.
Qed.

(** When the group request is answered with an error status, the lookup
    raises. *)
Lemma question_group_error k n :
  fuel = S n -> k <> 0 ->
  status_ok (get_group (url_prefix ++ lit "/groups/" ++ str_of_Z k)) = false ->
  lookup (Some k) = Raise HTTPError.
Proof.
  intros -> N S. unfold question_group, request.
  apply Z.eqb_neq in N. rewrite N. cbn [request_loop]. rewrite S. reflexivity.
Qed.



End ReconcilerTheorems.






(** What the other conditions of the permutation rule out: a question
    whose group is empty takes a sequential number that no ungrouped
    question gets, a repeated question id drops a record, and a group
    position beyond the end leaves a gap. *)
Lemma positions_need_a_consistent_wire :
  (exists qs gs,
      reconcile ex_get_group 1 (lit "/q") [ex_q 1 (Some 40); ex_q 2 None]
      = Ret (qs, gs) /\
      ungrouped_positions qs ++ group_positions gs = [2]) /\
  (exists qs gs,
      reconcile ex_get_group 1 (lit "/q") [ex_q 1 None; ex_q 1 None]
      = Ret (qs, gs) /\
      ungrouped_positions qs ++ group_positions gs = [2]) /\
  (exists qs gs,
      reconcile ex_get_group 1 (lit "/q") [ex_q 1 (Some 20)] = Ret (qs, gs) /\
      ungrouped_positions qs ++ group_positions gs = [3]).
Proof.
repeat split; eexists; eexists; split; vm_compute; reflexivity.
Qed.



(** ** Files and paths *)

Lemma get_file_put_same p c l : get_file p (put_file p c l) = Some c.
Proof.
induction l as [|[p' c'] l IH]; simpl.
- rewrite str_eqb_refl. reflexivity.
- destruct (str_eqb p p') eqn:E; simpl; rewrite E; auto.
Qed.

Lemma get_file_put_other p p' c l :
  p <> p' -> get_file p (put_file p' c l) = get_file p l.
Proof.
intros N. apply str_eqb_neq in N.
induction l as [|[p2 c2] l IH]; simpl.
- rewrite N. reflexivity.
- destruct (str_eqb p' p2) eqn:E; simpl.
  + apply str_eqb_eq in E. subst p2. rewrite N. reflexivity.
  + destruct (str_eqb p p2); auto.
Qed.

Lemma read_write_same fs p c : read_file (write_file fs p c) p = Some c.
Proof. apply get_file_put_same. Qed.

Lemma read_write_other fs p p' c :
  p <> p' -> read_file (write_file fs p' c) p = read_file fs p.
Proof. apply get_file_put_other. Qed.

Lemma read_makedirs_exist_ok fs d p :
  read_file (makedirs_exist_ok fs d) p = read_file fs p.
Proof. reflexivity. Qed.

Lemma read_makedirs fs d fs' p :
  makedirs fs d = Ret fs' -> read_file fs' p = read_file fs p.
Proof.
unfold makedirs. destruct (path_exists fs d); [discriminate|].
intros H. injection H as <-. reflexivity.
Qed.

Lemma path_join_relative d x :
  startswith [slash] x = false -> path_join d x = dir_prefix d ++ x.
Proof.
intros H. unfold path_join, dir_prefix. rewrite H.
destruct d as [|a d]; [reflexivity|].
destruct (endswith [slash] (a :: d)); [reflexivity|].
rewrite <- app_assoc. reflexivity.
Qed.

Lemma endswith_slash_app d a w :
  a <> slash -> endswith [slash] (d ++ w ++ [a]) = false.
Proof.
intros N. unfold endswith. rewrite app_assoc, rev_app_distr. simpl.
destruct (ascii_eqb slash a) eqn:E; [|reflexivity].
apply ascii_eqb_eq in E. congruence.
Qed.

(** The path of an extracted image differs from the path of any file that
    [main] writes next to the question. *)
Lemma image_path_other d f x :
  startswith [slash] f = false ->
  startswith (lit "c") x = false ->
  startswith [slash] x = false ->
  path_join (path_join d (lit "clientFilesQuestion")) f <> path_join d x.
Proof.
intros Hf Hx Hs.
rewrite (path_join_relative d (lit "clientFilesQuestion")) by reflexivity.
rewrite (path_join_relative _ f Hf), (path_join_relative d x Hs).
unfold dir_prefix at 1.
change (lit "clientFilesQuestion")
  with (lit "clientFilesQuestio" ++ [("n"%char : ascii)]).
rewrite endswith_slash_app by discriminate.
destruct (dir_prefix d ++ lit "clientFilesQuestio" ++ ["n"%char]) eqn:E.
- destruct (dir_prefix d); discriminate E.
- rewrite <- E. rewrite <- !app_assoc. intros C. apply app_inv_head in C.
  subst x. vm_compute in Hx. discriminate.
Qed.

Lemma path_join_inj d x y :
  startswith [slash] x = false -> startswith [slash] y = false ->
  x <> y -> path_join d x <> path_join d y.
Proof.
intros Hx Hy N. rewrite (path_join_relative d x Hx), (path_join_relative d y Hy).
intros C. apply app_inv_head in C. contradiction.
Qed.

Section ImageFiles.
Variable get_image : str -> image_response.
Variable question_dir : str.

Lemma handle_image_read st m st' x :
  handle_image get_image question_dir st m = Ret st' ->
  startswith (lit "c") x = false -> startswith [slash] x = false ->
  read_file (im_fs st') (path_join question_dir x)
  = read_file (im_fs st) (path_join question_dir x).
Proof.
intros H Hc Hs. unfold handle_image in H.
destruct (negb (startswith (lit "http") (text_of (match_group m 3)))).
- injection H as <-. reflexivity.
- destruct (negb (img_ok (get_image (text_of (match_group m 3)))));
    [discriminate|].
  destruct (image_file_extension _) as [ext| |]; simpl in H; try discriminate.
  injection H as <-. simpl.
  rewrite read_write_other.
  + apply read_makedirs_exist_ok.
  + intros C. symmetry in C. revert C. apply image_path_other; auto.
Qed.

Lemma handle_matches_read ms st st' x :
  handle_matches get_image question_dir st ms = Ret st' ->
  startswith (lit "c") x = false -> startswith [slash] x = false ->
  read_file (im_fs st') (path_join question_dir x)
  = read_file (im_fs st) (path_join question_dir x).
Proof.
revert st. induction ms as [|m ms IH]; intros st H Hc Hs; simpl in H.
- injection H as <-. reflexivity.
- destruct (handle_image get_image question_dir st m) as [st1| |] eqn:E;
    simpl in H; try discriminate.
  rewrite (IH _ H Hc Hs). apply (handle_image_read _ _ _ _ E Hc Hs).
Qed.

Lemma handle_images_read fs text fs' text' x :
  handle_images get_image question_dir fs text = Ret (fs', text') ->
  startswith (lit "c") x = false -> startswith [slash] x = false ->
  read_file fs' (path_join question_dir x)
  = read_file fs (path_join question_dir x).
Proof.
unfold handle_images. intros H Hc Hs.
destruct (handle_matches _ _ _ _) as [st| |] eqn:E; simpl in H; try discriminate.
injection H as <- <-. apply (handle_matches_read _ _ _ _ E Hc Hs).
Qed.
End ImageFiles.

(** ** The loop of [main] *)

Section MainFacts.
Variable repr_float : Q -> str.
Variable json_dumps_question : question -> str.
Variable uuid4 : nat -> str.
Variable get_image : str -> image_response.
Variable fuel : nat.
Variable quiz_slug : str.
Variable questions_dir : str.
Variable topic : str.

Local Abbreviation process :=
  (process_question repr_float json_dumps_question uuid4 get_image fuel
     quiz_slug questions_dir topic).
Local Abbreviation process_all :=
  (process_questions repr_float json_dumps_question uuid4 get_image fuel
     quiz_slug questions_dir topic).

Lemma process_questions_app st qs1 qs2 :
  process_all st (qs1 ++ qs2) = (st1 <- process_all st qs1 ;; process_all st1 qs2).
Proof.
revert st. induction qs1 as [|q qs1 IH]; intros st; simpl; [reflexivity|].
destruct (process st q); simpl; auto.
Qed.

(** C7: when the operator answers the title prompt of a question with an
    empty line, the question leaves the file system, the groups and the
    assessment's question list as they were (only the line is consumed),
    and the questions after it are processed from that state as if the
    question had not been there. *)
Theorem blank_title_skips st qs1 st1 q qs2 rest :
  process_all st qs1 = Ret st1 ->
  ms_inputs st1 = [] :: rest ->
  process st1 q = Ret (skipped st1 rest) /\
  ms_fs (skipped st1 rest) = ms_fs st1 /\
  pl_quiz_questions (skipped st1 rest) = pl_quiz_questions st1 /\
  ms_groups (skipped st1 rest) = ms_groups st1 /\
  process_all st (qs1 ++ q :: qs2) = process_all (skipped st1 rest) qs2.
Proof.
intros H1 I.
assert (process st1 q = Ret (skipped st1 rest)) as P.
{ unfold process_question. rewrite I. reflexivity. }
split; [exact P|]. repeat (split; [reflexivity|]).
rewrite process_questions_app, H1. simpl. rewrite P. reflexivity.
Qed.

Lemma is_manual_iff q :
  is_manual q = true <->
  question_type q = lit "text_only_question" \/
  question_type q = lit "essay_question".
Proof.
unfold is_manual, has_type. rewrite orb_true_iff, !str_eqb_eq. reflexivity.
Qed.

(** C10: for every question that is emitted (its title is not empty and
    its processing returns), [info.json] in the question's directory is
    the descriptor built from the question, and that descriptor has
    [gradingMethod] set to Manual exactly when the question's type is
    [text_only_question] or [essay_question]; for any other type the key
    is absent. *)
Theorem manual_grading_flag st q st' title rest :
  ms_inputs st = title :: rest ->
  title <> [] ->
  process st q = Ret st' ->
  exists question_name o,
    question_name_for fuel questions_dir (ms_fs st) title = Ret question_name /\
    read_file (ms_fs st')
      (path_join (path_join questions_dir question_name) (lit "info.json"))
    = Some (InfoJson o) /\
    o = info_json topic q title (uuid4 (ms_uuids st)) /\
    (gradingMethod o = Some (lit "Manual") <->
     question_type q = lit "text_only_question" \/
     question_type q = lit "essay_question") /\
    (gradingMethod o = None <->
     ~ (question_type q = lit "text_only_question" \/
        question_type q = lit "essay_question")).
Proof.
intros I T H. unfold process_question in H. rewrite I in H. simpl in H.
destruct title as [|c title]; [congruence|]. simpl in H.
destruct (question_name_for fuel questions_dir (ms_fs st) (c :: title))
  as [name| |] eqn:N; simpl in H; try discriminate.
destruct (makedirs (ms_fs st) (path_join questions_dir name))
  as [fs0| |] eqn:M; simpl in H; try discriminate.
destruct (add_alternative _ _ _ _) as [[groups plq]| |]; simpl in H;
  try discriminate.
destruct (handle_images _ _ _ _) as [[fs2 text2]| |] eqn:HI; simpl in H;
  try discriminate.
destruct (render_template _ _ _ _ _) as [[template inputs]| |]; simpl in H;
  try discriminate.
exists name, (info_json topic q (c :: title) (uuid4 (ms_uuids st))).
split; [reflexivity|]. split; [|split; [reflexivity|]].
- assert (read_file fs2 (path_join (path_join questions_dir name) (lit "info.json"))
          = Some (InfoJson (info_json topic q (c :: title) (uuid4 (ms_uuids st)))))
    as R2.
  { rewrite (handle_images_read _ _ _ _ _ _ _ HI) by reflexivity.
    apply read_write_same. }
  assert (forall c0,
             read_file
               (write_file fs2
                  (path_join (path_join questions_dir name) (lit "question.html"))
                  c0)
               (path_join (path_join questions_dir name) (lit "info.json"))
             = Some (InfoJson (info_json topic q (c :: title) (uuid4 (ms_uuids st)))))
    as R3.
  { intros c0. rewrite read_write_other; [exact R2|].
    apply path_join_inj; try reflexivity. discriminate. }
  destruct (has_type q "calculated_question").
  + destruct (server_py repr_float q) as [script| |]; simpl in H;
      try discriminate.
    injection H as <-. simpl. rewrite read_write_other; [apply R3|].
    apply path_join_inj; try reflexivity. discriminate.
  + simpl in H. injection H as <-. simpl. apply R3.
- unfold info_json. simpl. rewrite <- is_manual_iff.
  destruct (is_manual q); split; split; congruence.
Qed.
End MainFacts.

Lemma blank_title_skips_witness :
  ex_process (ex_state [[]; lit "Second"] []) (ex_q 1 None)
  = Ret (skipped (ex_state [[]; lit "Second"] []) [lit "Second"]) /\
  ex_process_all (ex_state [[]; lit "Second"] [])
    ([] ++ ex_q 1 None :: [ex_q 2 None])
  = ex_process_all (skipped (ex_state [[]; lit "Second"] []) [lit "Second"])
      [ex_q 2 None].
Proof.
destruct (blank_title_skips ex_repr_float ex_json_dumps ex_uuid4 ex_get_image 3
            (lit "Quiz1") (lit "repo/questions/Quiz1") (lit "None")
            (ex_state [[]; lit "Second"] []) [] (ex_state [[]; lit "Second"] [])
            (ex_q 1 None) [ex_q 2 None] [lit "Second"] eq_refl eq_refl)
  as (A & _ & _ & _ & B).
split; [exact A | exact B].
Defined.

Lemma ex_process_essay :
  ex_process (ex_state [lit "My Essay!"] []) (ex_q 1 None)
  = Ret (ex_after (ex_state [lit "My Essay!"] []) [ex_q 1 None]).
Proof. vm_compute. reflexivity. Qed.

Lemma manual_grading_flag_witness :
  exists question_name o,
    question_name_for 3 (lit "repo/questions/Quiz1") ex_fs (lit "My Essay!")
    = Ret question_name /\
    read_file (ms_fs (ex_after (ex_state [lit "My Essay!"] []) [ex_q 1 None]))
      (path_join (path_join (lit "repo/questions/Quiz1") question_name)
         (lit "info.json"))
    = Some (InfoJson o) /\
    gradingMethod o = Some (lit "Manual").
Proof.
destruct (manual_grading_flag ex_repr_float ex_json_dumps ex_uuid4 ex_get_image
            3 (lit "Quiz1") (lit "repo/questions/Quiz1") (lit "None")
            (ex_state [lit "My Essay!"] []) (ex_q 1 None) _
            (lit "My Essay!") [] eq_refl ltac:(discriminate) ex_process_essay)
  as (name & o & N & R & _ & M & _).
exists name, o. split; [exact N|]. split; [exact R|].
apply M. right. reflexivity.
Defined.

(** ** The renderer *)

Section RendererFacts.
Variable repr_float : Q -> str.
Variable json_dumps_question : question -> str.

(** The loop over the blanks leaves the text as it found it. *)
Lemma fill_in_blanks_text_noop q text : fill_in_blanks_text q text = text.
Proof.
unfold fill_in_blanks_text. induction (by_blank_id (answers q)); simpl; auto.
Qed.

Lemma render_blanks q text inputs :
  has_type q "fill_in_multiple_blanks_question" = true ->
  render_template repr_float json_dumps_question q text inputs
  = Ret (text ++ nl ++ answer_panel q, inputs).
Proof.
intros T. assert (question_type q = lit "fill_in_multiple_blanks_question") as E
  by (apply str_eqb_eq; exact T).
unfold render_template, render_element, question_panel, has_type.
rewrite E. vm_compute str_eqb. cbn [negb andb orb bind].
rewrite fill_in_blanks_text_noop. rewrite <- app_assoc. reflexivity.
Qed.

(** C1, on the code: for the question whose body is
    [Capital of France: [b1]] and whose only answer gives the text Paris
    for the blank b1, the markup written is the body itself followed by a
    line break: the placeholder is still there and no input element was
    put in its place, whereas the same body as a multiple-dropdowns
    question has its placeholder replaced. *)
Theorem blank_placeholder_survives :
  render_template repr_float json_dumps_question ex_blanks
    (lit "Capital of France: [b1]") []
  = Ret (lit "Capital of France: [b1]" ++ nl, []) /\
  occurs (lit "[b1]") (lit "Capital of France: [b1]" ++ nl) = true /\
  occurs (lit "<pl-string-input") (lit "Capital of France: [b1]" ++ nl) = false /\
  exists markup,
    render_template repr_float json_dumps_question ex_dropdowns
      (lit "Capital of France: [b1]") [] = Ret (markup, []) /\
    occurs (lit "[b1]") markup = false.
Proof.
split; [vm_compute; reflexivity|]. split; [vm_compute; reflexivity|].
split; [vm_compute; reflexivity|].
eexists. split; vm_compute; reflexivity.
Qed.




(** The truncation [int] of a number lies toward zero, less than one
    away. *)
Lemma int_truncates a :
  (Qabs (inject_Z (int a)) <= Qabs (Q_of_number a))%Q /\
  (Qabs (Q_of_number a - inject_Z (int a)) < 1)%Q.
Proof.
destruct a as [x|[n d]]; simpl.
- split; [apply Qle_refl|].
  unfold Qlt, Qabs, Qminus, Qplus, Qopp, inject_Z. simpl. lia.
- unfold Qle, Qlt, Qabs, Qminus, Qplus, Qopp, inject_Z. simpl.
  rewrite Pos.mul_1_r.
  pose proof (Z.quot_rem' n (Zpos d)) as E.
  pose proof (Z.rem_bound_abs n (Zpos d) ltac:(lia)) as B.
  pose proof (Z.quot_abs n (Zpos d) ltac:(lia)) as A.
  pose proof (Z.mul_quot_le (Z.abs n) (Zpos d) ltac:(lia) ltac:(lia)) as M.
  replace (Z.abs (Zpos d)) with (Zpos d) in * by lia.
  rewrite A in M.
  generalize dependent (Z.rem n (Zpos d)). generalize dependent (n ÷ Zpos d).
  intros t A M r E B. split; [lia|].
  replace (n * 1 + - t * Zpos d) with r by lia. lia.
Qed.



End RendererFacts.



(** ** The assembler *)














Section AssemblerFacts.
Variable repr_float : Q -> str.
Variable json_dumps_question : question -> str.
Variable uuid4 : nat -> str.
Variable get_image : str -> image_response.
Variable fuel : nat.
Variable quiz_slug : str.
Variable questions_dir : str.
Variable topic : str.

Local Abbreviation process :=
  (process_question repr_float json_dumps_question uuid4 get_image fuel
     quiz_slug questions_dir topic).
Local Abbreviation process_all :=
  (process_questions repr_float json_dumps_question uuid4 get_image fuel
     quiz_slug questions_dir topic).



End AssemblerFacts.



(** ** The matcher *)

Lemma lacks_app c s t : lacks c (s ++ t) = lacks c s && lacks c t.
Proof. apply forallb_app. Qed.

Lemma lacks_cons c x s : lacks c (x :: s) = not_char c x && lacks c s.
Proof. reflexivity. Qed.

Lemma firstn_length_diff {A} (p s : list A) :
  firstn (List.length (p ++ s) - List.length s) (p ++ s) = p.
Proof.
rewrite length_app. replace (List.length p + List.length s - List.length s)%nat
  with (List.length p) by lia.
apply firstn_app_exact.
Qed.

(** A greedy repetition takes the whole run when what follows accepts. *)
Lemma star_greedy_run p (k : cont) a x rest c r :
  forallb p a = true -> p x = false ->
  k (x :: rest) c = Some r ->
  star_greedy p k (a ++ x :: rest) c = Some r.
Proof.
intros A X K. induction a as [|y a IH]; simpl.
- rewrite X. exact K.
- simpl in A. apply andb_true_iff in A. destruct A as [Y A].
  rewrite Y, (IH A). reflexivity.
Qed.


Lemma sub_from_skip r repl p s :
  sub_from r repl (List.length p) (p ++ s) = sub_from r repl 0 s.
Proof.
induction p as [|x p IH]; simpl; [reflexivity | exact IH].
Qed.

Lemma sub_from_keep r repl x s :
  match_here r (x :: s) = None ->
  sub_from r repl 0 (x :: s) = x :: sub_from r repl 0 s.
Proof. intros H. simpl. rewrite H. reflexivity. Qed.

Lemma sub_from_match r repl x p rest m :
  match_here r (x :: p ++ rest) = Some m -> group0 m = x :: p ->
  sub_from r repl 0 (x :: p ++ rest) = repl ++ sub_from r repl 0 rest.
Proof.
intros H G. simpl. rewrite H, G. simpl. rewrite sub_from_skip. reflexivity.
Qed.

(** Where the literal that opens a pattern is not found, the pattern
    does not match. *)
Lemma match_here_literal_fails l r s :
  startswith l s = false -> match_here (RSeq (RLit l) r) s = None.
Proof. intros H. unfold match_here. simpl. rewrite H. reflexivity. Qed.

Lemma startswith_other l x y s :
  x <> y -> startswith (y :: l) (x :: s) = false.
Proof.
intros N. simpl. destruct (ascii_eqb y x) eqn:E; [|reflexivity].
apply ascii_eqb_eq in E. congruence.
Qed.

Lemma not_char_neq c x : not_char c x = true <-> x <> c.
Proof.
unfold not_char. rewrite negb_true_iff. split.
- intros H E. apply ascii_eqb_eq in E. congruence.
- intros H. destruct (ascii_eqb x c) eqn:E; [|reflexivity].
  apply ascii_eqb_eq in E. contradiction.
Qed.


(** ** The sanitizer *)



Lemma skipn_head_lacks c b i :
  lacks c b = true -> (i < List.length b)%nat ->
  exists x u, skipn i b = x :: u /\ x <> c.
Proof.
revert i. induction b as [|y b IH]; intros i L Hi; simpl in Hi; [lia|].
rewrite lacks_cons in L. apply andb_true_iff in L. destruct L as [Y L].
destruct i as [|i]; simpl.
- exists y, b. split; [reflexivity | apply not_char_neq; exact Y].
- apply IH; [exact L | lia].
Qed.










(** A script block whose body holds a line break is not matched by the
    pattern and stays in the output. *)
Lemma multiline_script_stays :
  clean_question_text (lit "a<script>" ++ nl ++ lit "x()" ++ nl ++ lit "</script>b")
  = lit "a<script>" ++ nl ++ lit "x()" ++ nl ++ lit "</script>b".
Proof. vm_compute. reflexivity. Qed.

(** ** Backtracking into a greedy repetition *)

Lemma star_greedy_fail p (k : cont) m x rest c :
  forallb p m = true -> p x = false ->
  (forall i, (i <= List.length m)%nat -> k (skipn i m ++ x :: rest) c = None) ->
  star_greedy p k (m ++ x :: rest) c = None.
Proof.
induction m as [|y m IH]; intros M X N.
- simpl. rewrite X. apply (N 0%nat). simpl. lia.
- simpl in M. apply andb_true_iff in M. destruct M as [Y M].
  simpl. rewrite Y. rewrite IH; [| exact M | exact X |].
  + apply (N 0%nat). simpl. lia.
  + intros i Hi. apply (N (S i)). simpl. lia.
Qed.

(** The repetition gives back what it took until what follows accepts:
    the match is at the last place where it does. *)
Lemma star_greedy_backtrack p (k : cont) a y m x rest c r :
  forallb p a = true -> forallb p (y :: m) = true -> p x = false ->
  (forall i, (i <= List.length m)%nat -> k (skipn i m ++ x :: rest) c = None) ->
  k (y :: m ++ x :: rest) c = Some r ->
  star_greedy p k (a ++ y :: m ++ x :: rest) c = Some r.
Proof.
intros A M X N K. induction a as [|z a IH].
- simpl in M. apply andb_true_iff in M. destruct M as [Y M].
  simpl. rewrite Y. rewrite (star_greedy_fail p k m x rest c M X N). exact K.
- simpl in A. apply andb_true_iff in A. destruct A as [Z A].
  simpl. rewrite Z, (IH A). reflexivity.
Qed.

(** ** Where a string can start inside a concatenation *)

Lemma occurs_skipn p t i : occurs p t = false -> startswith p (skipn i t) = false.
Proof.
revert i. induction t as [|x t IH]; intros i O.
- destruct i; simpl in *; apply orb_false_iff in O; tauto.
- cbn [occurs] in O. apply orb_false_iff in O. destruct O as [O1 O2].
  destruct i as [|i]; [exact O1 | apply IH; exact O2].
Qed.

(** A string that starts [u ++ v] either starts [u], or starts in [u] and
    goes on in [v]. *)
Lemma startswith_app_split p u v :
  startswith p (u ++ v) = true ->
  startswith p u = true \/
  ((List.length u < List.length p)%nat /\ u = firstn (List.length u) p /\
   startswith (skipn (List.length u) p) v = true).
Proof.
revert u. induction p as [|x p IH]; intros u H.
- left. reflexivity.
- destruct u as [|y u].
  + right. simpl. split; [lia|]. split; [reflexivity | exact H].
  + simpl in H. apply andb_true_iff in H. destruct H as [E H].
    apply ascii_eqb_eq in E. subst y.
    destruct (IH u H) as [S|(L & F & S)].
    * left. simpl. rewrite ascii_eqb_refl. exact S.
    * right. simpl. split; [lia|]. split; [f_equal; exact F | exact S].
Qed.

Lemma endswith_skipn u t i : skipn i t = u -> endswith u t = true.
Proof.
intros E. unfold endswith. rewrite <- (firstn_skipn i t), E, rev_app_distr.
apply startswith_app.
Qed.

Lemma skipn_nonempty {A} (t : list A) i :
  (i < List.length t)%nat -> exists x u, skipn i t = x :: u.
Proof.
revert i. induction t as [|y t IH]; intros i Hi; simpl in Hi; [lia|].
destruct i as [|i]; simpl; [eauto | apply IH; lia].
Qed.

(** Text is quiet before something that opens with an angle bracket when
    it holds no img tag and does not end with the paragraph tag of an img
    tag that follows. *)
Lemma quiet_before t n :
  occurs (lit "<img") t = false ->
  (startswith (lit "<img") (lt_sign :: n) = true -> endswith (lit "<p>") t = false) ->
  quiet t (lt_sign :: n).
Proof.
intros O E i Hi.
destruct (skipn_nonempty t i Hi) as (x & u & S).
assert (startswith (lit "<img") (skipn i t) = false) as O1
  by (apply occurs_skipn; exact O).
split.
- destruct (startswith (lit "<img") (skipn i t ++ lt_sign :: n)) eqn:H;
    [|reflexivity].
  destruct (startswith_app_split _ _ _ H) as [C|(L & _ & C)]; [congruence|].
  rewrite S in L, C. simpl in L.
  destruct u as [|? [|? [|? u]]]; simpl in L; try lia; discriminate C.
- destruct (startswith (lit "<p><img") (skipn i t ++ lt_sign :: n)) eqn:H;
    [|reflexivity].
  destruct (startswith_app_split _ _ _ H) as [C|(L & F & C)].
  + exfalso. assert (startswith (lit "<img") (skipn (3 + i) t) = false) as O3
      by (apply occurs_skipn; exact O).
    rewrite <- skipn_skipn in O3. apply startswith_spec in C.
    destruct C as [w C]. rewrite C in O3. discriminate O3.
  + rewrite S in L, F, C. simpl in L.
    destruct u as [|? [|? [|? [|? [|? [|? u]]]]]]; simpl in L; try lia;
      try discriminate C.
    assert (endswith (lit "<p>") t = true) as Q.
    { apply (endswith_skipn _ t i). rewrite S. exact F. }
    rewrite (E C) in Q. discriminate Q.
Qed.

Lemma quiet_at_end t : occurs (lit "<img") t = false -> quiet t [].
Proof.
intros O i Hi. rewrite app_nil_r. split.
- apply occurs_skipn. exact O.
- destruct (startswith (lit "<p><img") (skipn i t)) eqn:C; [|reflexivity].
  exfalso. assert (startswith (lit "<img") (skipn (3 + i) t) = false) as O3
    by (apply occurs_skipn; exact O).
  rewrite <- skipn_skipn in O3. apply startswith_spec in C.
  destruct C as [w C]. rewrite C in O3. discriminate O3.
Qed.





(** ** The match of an img block *)

Lemma startswith_no_cross p W x rest j :
  occurs p W = false -> lacks x p = true ->
  startswith p (skipn j W ++ x :: rest) = false.
Proof.
intros O L. destruct (startswith p (skipn j W ++ x :: rest)) eqn:H;
  [|reflexivity].
destruct (startswith_app_split _ _ _ H) as [C|(Hl & _ & C)].
- rewrite (occurs_skipn p W j O) in C. discriminate C.
- destruct (skipn_head_lacks x p _ L Hl) as (z & q & E & N).
  rewrite E in C. rewrite startswith_other in C by congruence. discriminate C.
Qed.

Lemma plain_img_parts i :
  plain_img i = true ->
  lacks gt_sign (before_src i) = true /\ lacks gt_sign (img_url i) = true /\
  lacks gt_sign (after_src i) = true /\ lacks dquote (img_url i) = true /\
  startswith (lit "http") (img_url i) = true /\
  occurs src_eq (img_url i ++ dq ++ after_src i) = false /\
  occurs alt_eq
    (lit "<img" ++ before_src i ++ src_eq ++ img_url i ++ dq ++ before_alt i)
  = false /\
  lacks dquote (img_alt i) = true /\ lacks lt_sign (img_alt i) = true.
Proof.
unfold plain_img. rewrite !andb_true_iff, !negb_true_iff. tauto.
Qed.

(** The tag pattern matches the tag, the URL being group 3. *)
Lemma match_tag i (k : cont) rest c r :
  plain_img i = true ->
  k rest ((3%nat, img_url i) :: c) = Some r ->
  rmatch img_tag_re k (img_tag i ++ rest) c = Some r.
Proof.
intros P K.
destruct (plain_img_parts i P) as (A & U & B & Q & H & Hs & _).
destruct (img_url i) as [|u0 u] eqn:EU; [discriminate H|].
unfold img_tag_re, img_tag. cbn [rmatch]. rewrite <- !app_assoc.
rewrite startswith_app, skipn_app_exact. rewrite EU.
change (lit ">" ++ rest) with (gt_sign :: rest).
change (src_eq ++ (u0 :: u) ++ dq ++ after_src i ++ gt_sign :: rest)
  with ("s"%char :: (lit "rc=" ++ dq) ++ (u0 :: u) ++ dq ++ after_src i
          ++ gt_sign :: rest).
replace ((lit "rc=" ++ dq) ++ (u0 :: u) ++ dq ++ after_src i ++ gt_sign :: rest)
  with (((lit "rc=" ++ dq) ++ (u0 :: u) ++ dq ++ after_src i) ++ gt_sign :: rest)
  by (rewrite <- !app_assoc; reflexivity).
apply star_greedy_backtrack.
- exact A.
- change (forallb not_gt) with (lacks gt_sign). rewrite lacks_cons, !lacks_app.
  rewrite U, B. reflexivity.
- reflexivity.
- intros n Hn.
  assert (startswith (lit "src=" ++ dq)
            (skipn n ((lit "rc=" ++ dq) ++ (u0 :: u) ++ dq ++ after_src i)
               ++ gt_sign :: rest) = false) as F.
  { destruct n as [|[|[|[|n]]]]; try reflexivity.
    change (skipn (S (S (S (S n))))
              ((lit "rc=" ++ dq) ++ (u0 :: u) ++ dq ++ after_src i))
      with (skipn n ((u0 :: u) ++ dq ++ after_src i)).
    apply startswith_no_cross; [exact Hs | reflexivity]. }
  rewrite F. reflexivity.
- rewrite <- !app_assoc.
  assert (forall T : str,
             "s"%char :: lit "rc=" ++ dq ++ T = (lit "src=" ++ dq) ++ T) as E
    by reflexivity.
  rewrite E. rewrite startswith_app, skipn_app_exact.
  rewrite lacks_cons in Q. apply andb_true_iff in Q. destruct Q as [Q0 Q].
  change ((u0 :: u) ++ dq ++ after_src i ++ gt_sign :: rest)
    with (u0 :: u ++ dquote :: after_src i ++ gt_sign :: rest).
  change (not_char dquote u0) with (not_dquote u0) in Q0.
  cbv beta iota. rewrite Q0.
  rewrite (star_greedy_run not_dquote _ u dquote
             (after_src i ++ gt_sign :: rest) c r); [reflexivity | exact Q | reflexivity |].
  change (dquote :: after_src i ++ gt_sign :: rest)
    with (dq ++ after_src i ++ gt_sign :: rest).
  rewrite startswith_app, skipn_app_exact.
  rewrite (star_greedy_run not_gt _ (after_src i) gt_sign rest _ r);
    [reflexivity | exact B | reflexivity |].
  change (startswith (lit ">") (gt_sign :: rest)) with true.
  cbn [skipn List.length lit list_ascii_of_string].
  replace (firstn _ _) with (u0 :: u); [exact K|].
  symmetry.
  exact (firstn_length_diff (u0 :: u) (dquote :: after_src i ++ gt_sign :: rest)).
Qed.

Lemma match_tag_close i rest c :
  plain_img i = true ->
  (p_close i = false -> startswith (lit "</p>") rest = false) ->
  rmatch (RSeq (RGroup 2 img_tag_re) (ROpt (RGroup 4 (RLit (lit "</p>")))))
    (fun s' c' => Some (s', c')) (img_tag i ++ closing i ++ rest) c
  = Some (rest,
          (if p_close i then [(4%nat, lit "</p>")] else [])
          ++ (2%nat, img_tag i) :: (3%nat, img_url i) :: c).
Proof.
intros P C. cbn [rmatch]. apply match_tag; [exact P|].
rewrite firstn_length_diff. unfold closing in *.
destruct (p_close i).
- rewrite startswith_app, skipn_app_exact.
  rewrite (firstn_length_diff (lit "</p>") rest). reflexivity.
- simpl app. rewrite (C eq_refl). reflexivity.
Qed.

(** The img pattern matches the block: the tag with the paragraph tags
    that stand right around it. *)
Lemma match_block i rest :
  plain_img i = true ->
  (p_close i = false -> startswith (lit "</p>") rest = false) ->
  match_here img_re (img_block i ++ rest)
  = Some (mkMatchObj (img_block i) (img_captures i)).
Proof.
intros P C. unfold match_here, img_re, img_block, img_captures.
rewrite <- !app_assoc.
change (rmatch (RSeq (ROpt (RGroup 1 (RLit (lit "<p>"))))
                  (RSeq (RGroup 2 img_tag_re)
                     (ROpt (RGroup 4 (RLit (lit "</p>"))))))
          (fun s' c => Some (s', c))
          (opening i ++ img_tag i ++ closing i ++ rest) [])
  with (match
           rmatch (RGroup 1 (RLit (lit "<p>")))
             (rmatch (RSeq (RGroup 2 img_tag_re)
                        (ROpt (RGroup 4 (RLit (lit "</p>")))))
                (fun s' c => Some (s', c)))
             (opening i ++ img_tag i ++ closing i ++ rest) []
         with
         | Some res => Some res
         | None =>
             rmatch (RSeq (RGroup 2 img_tag_re)
                       (ROpt (RGroup 4 (RLit (lit "</p>")))))
               (fun s' c => Some (s', c))
               (opening i ++ img_tag i ++ closing i ++ rest) []
         end).
assert (forall p q r s : str, p ++ q ++ r ++ s = (p ++ q ++ r) ++ s) as E
  by (intros; rewrite <- !app_assoc; reflexivity).
unfold opening. destruct (p_open i).
- change (rmatch (RGroup 1 (RLit (lit "<p>"))) ?k (lit "<p>" ++ ?s) [])
    with (if startswith (lit "<p>") (lit "<p>" ++ s)
          then k (skipn (List.length (lit "<p>")) (lit "<p>" ++ s))
                 [(1%nat,
                   firstn (List.length (lit "<p>" ++ s)
                           - List.length
                               (skipn (List.length (lit "<p>")) (lit "<p>" ++ s)))
                     (lit "<p>" ++ s))]
          else None).
  rewrite startswith_app, skipn_app_exact.
  rewrite (firstn_length_diff (lit "<p>")).
  rewrite (match_tag_close i rest _ P C).
  rewrite E, firstn_length_diff.
  destruct (p_close i); reflexivity.
- change (rmatch (RGroup 1 (RLit (lit "<p>"))) ?k ([] ++ img_tag i ++ ?s) [])
    with (@None (str * captures)).
  change ([] ++ img_tag i ++ closing i ++ rest)
    with (img_tag i ++ closing i ++ rest) at 1.
  rewrite (match_tag_close i rest _ P C).
  rewrite E, firstn_length_diff.
  destruct (p_close i); reflexivity.
Qed.

(** ** Scanning text that holds no img tag *)

Lemma startswith_trans p q s :
  startswith p q = true -> startswith q s = true -> startswith p s = true.
Proof.
intros A B. apply startswith_spec in A. apply startswith_spec in B.
destruct A as [a ->]. destruct B as [b ->]. rewrite <- app_assoc.
apply startswith_app.
Qed.

Lemma startswith_app_l p q s :
  startswith (p ++ q) s = startswith p s && startswith q (skipn (List.length p) s).
Proof.
revert s. induction p as [|x p IH]; intros s; [reflexivity|].
destruct s as [|y s]; [reflexivity|].
simpl. rewrite IH. apply andb_assoc.
Qed.

Lemma match_here_quiet s :
  startswith (lit "<img") s = false ->
  startswith (lit "<p><img") s = false ->
  match_here img_re s = None.
Proof.
intros A B. unfold match_here, img_re, img_tag_re. cbn [rmatch].
change (lit "<p><img") with (lit "<p>" ++ lit "<img") in B.
rewrite startswith_app_l in B.
destruct (startswith (lit "<p>") s); cbn [andb] in B.
- rewrite B, A. reflexivity.
- rewrite A. reflexivity.
Qed.

Lemma finditer_from_skip r p s :
  finditer_from r (List.length p) (p ++ s) = finditer_from r 0 s.
Proof. induction p as [|x p IH]; simpl; [reflexivity | exact IH]. Qed.

Lemma finditer_from_match r x p rest m :
  match_here r (x :: p ++ rest) = Some m -> group0 m = x :: p ->
  finditer_from r 0 (x :: p ++ rest) = m :: finditer_from r 0 rest.
Proof.
intros H G. simpl. rewrite H, G. simpl. rewrite Nat.sub_0_r.
rewrite finditer_from_skip. reflexivity.
Qed.

Lemma finditer_from_quiet t next :
  quiet t next ->
  finditer_from img_re 0 (t ++ next) = finditer_from img_re 0 next.
Proof.
induction t as [|x t IH]; intros Q; [reflexivity|].
destruct (Q 0%nat ltac:(simpl; lia)) as [A B]. cbn [skipn app] in A, B.
change ((x :: t) ++ next) with (x :: (t ++ next)).
cbn [finditer_from]. rewrite (match_here_quiet _ A B).
apply IH. intros i Hi. apply (Q (S i)). simpl. lia.
Qed.



(** ** The alt text of a tag *)




(** ** One image *)

Lemma img_groups i :
  match_group (mkMatchObj (img_block i) (img_captures i)) 3 = Some (img_url i) /\
  match_group (mkMatchObj (img_block i) (img_captures i)) 2 = Some (img_tag i) /\
  match_group (mkMatchObj (img_block i) (img_captures i)) 1
  = (if p_open i then Some (lit "<p>") else None) /\
  match_group (mkMatchObj (img_block i) (img_captures i)) 4
  = (if p_close i then Some (lit "</p>") else None).
Proof.
unfold match_group, img_captures. simpl m_groups.
destruct (p_open i), (p_close i); repeat split; reflexivity.
Qed.




Lemma block_head i rest :
  exists n, img_block i ++ rest = lt_sign :: n /\
            startswith (lit "<img") (lt_sign :: n) = negb (p_open i) /\
            startswith (lit "</p>") (lt_sign :: n) = false.
Proof.
unfold img_block, opening, img_tag. destruct (p_open i).
- eexists. rewrite <- !app_assoc. split; [reflexivity|]. split; reflexivity.
- eexists. rewrite <- !app_assoc. split; [reflexivity|]. split; reflexivity.
Qed.

Lemma plain_text_parts a t b :
  plain_text a t b = true ->
  occurs (lit "<img") t = false /\
  (b = false -> endswith (lit "<p>") t = false) /\
  (a = false -> startswith (lit "</p>") t = false).
Proof.
unfold plain_text. rewrite !andb_true_iff, !orb_true_iff, !negb_true_iff.
intros [[O E] S]. split; [exact O|].
split; intros ->; [destruct E | destruct S]; congruence.
Qed.

(** Plain text is quiet before an img block. *)
Lemma quiet_before_block a t i rest :
  plain_text a t (p_open i) = true -> quiet t (img_block i ++ rest).
Proof.
intros P. destruct (plain_text_parts _ _ _ P) as (O & E & _).
destruct (block_head i rest) as (n & -> & I & _).
apply quiet_before; [exact O|]. rewrite I. intros N. apply E.
destruct (p_open i); [discriminate N | reflexivity].
Qed.


(** ** The figure that replaces a block *)






Lemma img_block_split i : exists p, img_block i = lt_sign :: p.
Proof.
unfold img_block, opening, img_tag. destruct (p_open i); eexists;
  rewrite <- ?app_assoc; reflexivity.
Qed.



(** ** The file extension of an image *)



(** ** Two images *)

Section TwoImages.
Variable get_image : str -> image_response.
Variable question_dir : str.


End TwoImages.



(** * Further properties *)

(** ** The pages of [Canvas.request] *)

Lemma request_loop_follows {A} (get : str -> response A) url rs v :
  follows get url rs v ->
  forall fuel retval,
    request_loop get false (List.length rs + fuel) (get url) retval
    = request_loop get false fuel (get v) (retval ++ map resp_json rs).
Proof.
induction 1 as [url | url u rs v OK NL NX F IH]; intros fuel retval.
- cbn [List.length map plus]. rewrite app_nil_r. reflexivity.
- cbn [List.length map plus request_loop]. rewrite OK, NL, NX. cbn [negb orb].
  rewrite IH. rewrite <- app_assoc. reflexivity.
Qed.

Lemma request_loop_head {A} (get : str -> response A) stop fuel :
  forall resp retval l,
    request_loop get stop fuel resp retval = Ret l ->
    exists rest, l = retval ++ resp_json resp :: rest.
Proof.
induction fuel as [|fuel IH]; intros resp retval l E; [discriminate|].
cbn [request_loop] in E.
destruct (status_ok resp); cbn [negb] in E; [|discriminate].
destruct (stop || last_page resp).
- injection E as <-. exists []. reflexivity.
- destruct (link_next resp) as [u|]; [|discriminate].
  apply IH in E. destruct E as (rest & ->).
  rewrite <- app_assoc. eexists. reflexivity.
Qed.

(** X1: when the server serves the pages one after the other, each but
    the last naming the next one, and the page whose current link equals
    its last link (or that lacks one of them) ends the run, the request
    returns the bodies of all pages in the order served. *)
Theorem request_collects_pages {A} (get : str -> response A) url rs v fuel :
  follows get url rs v ->
  status_ok (get v) = true ->
  last_page (get v) = true ->
  (List.length rs < fuel)%nat ->
  request get fuel url = Ret (map resp_json rs ++ [resp_json (get v)]).
Proof.
intros F OK L N. unfold request.
replace fuel with (List.length rs + S (fuel - S (List.length rs)))%nat by lia.
rewrite (request_loop_follows _ _ _ _ F). cbn [request_loop app].
rewrite OK, L. reflexivity.
Qed.

(** X2: a page with an error status makes the request raise, whatever
    number of pages was read before it; so does a page that is not the
    last one and names no next page (the [next] key is missing). *)
Theorem request_fails_on_a_bad_page {A} (get : str -> response A) url rs v fuel :
  follows get url rs v ->
  (List.length rs < fuel)%nat ->
  (status_ok (get v) = false -> request get fuel url = Raise HTTPError) /\
  (status_ok (get v) = true -> last_page (get v) = false ->
   link_next (get v) = None -> request get fuel url = Raise KeyError).
Proof.
intros F N. unfold request.
replace fuel with (List.length rs + S (fuel - S (List.length rs)))%nat by lia.
rewrite (request_loop_follows _ _ _ _ F). cbn [request_loop app].
split.
- intros ->. reflexivity.
- intros -> -> ->. reflexivity.
Qed.

(** X3: a request that returns has read at least one page, and the first
    element of its result is the body of the page at the URL asked for. *)
Theorem request_returns_first_page {A} (get : str -> response A) fuel url l :
  request get fuel url = Ret l ->
  exists rest, l = resp_json (get url) :: rest.
Proof.
unfold request. intros E. apply request_loop_head in E. exact E.
Qed.

Lemma request_loop_short {A} (get : str -> response A) url rs v :
  follows get url rs v ->
  forall fuel retval,
    (fuel <= List.length rs)%nat ->
    request_loop get false fuel (get url) retval = Fuel.
Proof.
induction 1 as [url | url u rs v OK NL NX F IH]; intros fuel retval LE.
- simpl in LE. replace fuel with O by lia. reflexivity.
- destruct fuel as [|fuel]; [reflexivity|].
  cbn [request_loop]. rewrite OK, NL, NX. cbn [negb orb].
  apply IH. simpl in LE. lia.
Qed.

Lemma request_loop_cycle {A} (get : str -> response A) url r rs :
  follows get url (r :: rs) url ->
  forall fuel retval, request_loop get false fuel (get url) retval = Fuel.
Proof.
intros F fuel. induction fuel as [fuel IH] using lt_wf_ind. intros retval.
destruct (Nat.le_gt_cases fuel (List.length rs)) as [LE|GT].
- apply (request_loop_short _ _ _ _ F). simpl. lia.
- replace fuel with (List.length (r :: rs) + (fuel - S (List.length rs)))%nat
    by (simpl; lia).
  rewrite (request_loop_follows _ _ _ _ F). apply IH. lia.
Qed.

(** X4: when the pages a server names lead back to a page already read,
    none of them being the last, the request never returns: it runs out
    of any amount of fuel. *)
Theorem request_never_ends_on_a_cycle {A} (get : str -> response A) url r rs :
  follows get url (r :: rs) url ->
  forall fuel, request get fuel url = Fuel.
Proof.
intros F fuel. unfold request. apply (request_loop_cycle _ _ _ _ F).
Qed.

Lemma request_collects_pages_witness :
  request ex_pages 3 (lit "/p1") = Ret [[1; 2]; [3]; [4; 5]].
Proof.
apply (request_collects_pages ex_pages (lit "/p1")
         [ex_pages (lit "/p1"); ex_pages (lit "/p2")] (lit "/p3") 3).
- apply (follows_cons ex_pages (lit "/p1") (lit "/p2")); try reflexivity.
  apply (follows_cons ex_pages (lit "/p2") (lit "/p3")); try reflexivity.
  apply follows_nil.
- reflexivity.
- reflexivity.
- simpl. lia.
Defined.

Lemma request_fails_on_a_bad_page_witness :
  request ex_pages 2 (lit "/q1") = Raise HTTPError /\
  request ex_pages 1 (lit "/open") = Raise KeyError.
Proof.
split.
- apply (proj1 (request_fails_on_a_bad_page ex_pages (lit "/q1")
                  [ex_pages (lit "/q1")] (lit "/gone") 2
                  (follows_cons ex_pages (lit "/q1") (lit "/gone") []
                     (lit "/gone") eq_refl eq_refl eq_refl
                     (follows_nil ex_pages (lit "/gone")))
                  (le_n 2))).
  reflexivity.
- apply (proj2 (request_fails_on_a_bad_page ex_pages (lit "/open") []
                  (lit "/open") 1 (follows_nil ex_pages (lit "/open"))
                  (le_n 1))); reflexivity.
Defined.

Lemma request_returns_first_page_witness :
  exists rest, [[1; 2]; [3]; [4; 5]] = resp_json (ex_pages (lit "/p1")) :: rest.
Proof.
apply (request_returns_first_page ex_pages 3 (lit "/p1")). reflexivity.
Defined.

Lemma request_never_ends_on_a_cycle_witness :
  request ex_pages 1000 (lit "/loop") = Fuel.
Proof.
apply (request_never_ends_on_a_cycle ex_pages (lit "/loop")
         (ex_pages (lit "/loop")) []
         (follows_cons ex_pages (lit "/loop") (lit "/loop") [] (lit "/loop")
            eq_refl eq_refl eq_refl (follows_nil ex_pages (lit "/loop")))
         1000%nat).
Defined.

(** ** The choice of the course and of the quiz *)

Lemma request_first_page {A} (get : str -> response A) fuel url :
  (pages <- request get fuel url ;; Ret (first_page pages))
  = (pages <- request get fuel url ;; Ret (Some (resp_json (get url)))).
Proof.
destruct (request get fuel url) as [l| |] eqn:E; [|reflexivity ..].
unfold request in E. apply request_loop_head in E. destruct E as (rest & ->).
reflexivity.
Qed.

Section SelectionFacts.
Variable parse_int : str -> option Z.
Variable fuel : nat.
Variable get_courses : str -> response (list course_data).
Variable get_course : str -> response course_data.
Variable get_quizzes : str -> response (list quiz_data).
Variable get_quiz : str -> response quiz_data.

Local Abbreviation pick_course :=
  (course parse_int fuel get_courses get_course).
Local Abbreviation pick_quiz :=
  (Course_quiz parse_int fuel get_quizzes get_quiz).

Lemma course_by_id_eq k inputs :
  pick_course (Some k) inputs
  = (pages <- request get_course fuel
                (lit "/courses/" ++ str_of_Z k ++ lit "?include[]=term") ;;
     Ret (resp_json
            (get_course (lit "/courses/" ++ str_of_Z k ++ lit "?include[]=term")),
          inputs)).
Proof.
unfold course.
set (url := lit "/courses/" ++ str_of_Z k ++ lit "?include[]=term").
pose proof (request_first_page get_course fuel url) as E.
destruct (request get_course fuel url); cbn [bind] in *;
  [injection E as ->; reflexivity | reflexivity ..].
Qed.

Lemma quiz_by_id_eq c k inputs :
  pick_quiz c (Some k) inputs
  = (pages <- request get_quiz fuel
                (course_url_prefix c ++ lit "/quizzes/" ++ str_of_Z k) ;;
     Ret (resp_json
            (get_quiz (course_url_prefix c ++ lit "/quizzes/" ++ str_of_Z k)),
          inputs)).
Proof.
unfold Course_quiz.
set (url := course_url_prefix c ++ lit "/quizzes/" ++ str_of_Z k).
pose proof (request_first_page get_quiz fuel url) as E.
destruct (request get_quiz fuel url); cbn [bind] in *;
  [injection E as ->; reflexivity | reflexivity ..].
Qed.

(** X5: with a course id (a quiz id) given, the course (the quiz) is the
    body of the first page served for that id: the operator is not asked,
    the lists of courses and of quizzes are not consulted, and a quiz so
    chosen is taken whatever its type. *)
Theorem chosen_by_id k inputs :
  (forall c inputs',
      pick_course (Some k) inputs = Ret (c, inputs') ->
      c = resp_json
            (get_course (lit "/courses/" ++ str_of_Z k ++ lit "?include[]=term"))
      /\ inputs' = inputs) /\
  (forall c qz inputs',
      pick_quiz c (Some k) inputs = Ret (qz, inputs') ->
      qz = resp_json
             (get_quiz (course_url_prefix c ++ lit "/quizzes/" ++ str_of_Z k))
      /\ inputs' = inputs).
Proof.
split.
- intros c inputs'. rewrite course_by_id_eq.
  destruct (request get_course fuel _); cbn [bind]; [|discriminate ..].
  intros E. injection E as <- <-. split; reflexivity.
- intros c qz inputs'. rewrite quiz_by_id_eq.
  destruct (request get_quiz fuel _); cbn [bind]; [|discriminate ..].
  intros E. injection E as <- <-. split; reflexivity.
Qed.

Lemma list_index_front {A} (l : list A) i :
  0 <= i < Z.of_nat (List.length l) ->
  exists x, nth_error l (Z.to_nat i) = Some x /\ list_index l i = Ret x.
Proof.
intros R. unfold list_index.
destruct (i <? 0) eqn:N; [apply Z.ltb_lt in N; lia|].
destruct (0 <=? i) eqn:L; [|apply Z.leb_gt in L; lia].
destruct (i <? Z.of_nat (List.length l)) eqn:U; [|apply Z.ltb_ge in U; lia].
cbn [andb].
destruct (nth_error l (Z.to_nat i)) as [x|] eqn:E.
- exists x. split; reflexivity.
- apply nth_error_None in E. lia.
Qed.

Lemma list_index_back {A} (l : list A) i :
  - Z.of_nat (List.length l) <= i < 0 ->
  list_index l i = list_index l (i + Z.of_nat (List.length l)).
Proof.
intros R. unfold list_index.
destruct (i <? 0) eqn:N; [|apply Z.ltb_ge in N; lia].
destruct (i + Z.of_nat (List.length l) <? 0) eqn:M;
  [apply Z.ltb_lt in M; lia|].
reflexivity.
Qed.

Lemma list_index_out {A} (l : list A) i :
  i < - Z.of_nat (List.length l) \/ Z.of_nat (List.length l) <= i ->
  list_index l i = Raise IndexError.
Proof.
intros R. unfold list_index.
destruct (i <? 0) eqn:N.
- apply Z.ltb_lt in N.
  destruct (0 <=? i + Z.of_nat (List.length l)) eqn:L;
    [apply Z.leb_le in L; lia | reflexivity].
- apply Z.ltb_ge in N.
  destruct (i <? Z.of_nat (List.length l)) eqn:U;
    [apply Z.ltb_lt in U; lia | rewrite andb_false_r; reflexivity].
Qed.

(** X6: without a course id the operator picks from the courses of all
    pages in the order served.  The line typed is read as an index into
    that list: an index from 0 on picks from the front, a negative index
    counts from the end, any other index raises IndexError, a line that
    is no integer raises ValueError and a missing line EOFError; one line
    is consumed. *)
Theorem course_menu_choice pages inputs :
  request get_courses fuel (lit "/courses?include[]=term&state[]=available")
  = Ret pages ->
  let menu := List.concat pages in
  let n := Z.of_nat (List.length menu) in
  (inputs = [] -> pick_course None inputs = Raise EOFError) /\
  (forall line rest, inputs = line :: rest -> parse_int line = None ->
     pick_course None inputs = Raise ValueError) /\
  (forall line rest i, inputs = line :: rest -> parse_int line = Some i ->
     (0 <= i < n ->
      exists c, nth_error menu (Z.to_nat i) = Some c /\
                pick_course None inputs = Ret (c, rest)) /\
     (- n <= i < 0 ->
      exists c, nth_error menu (Z.to_nat (i + n)) = Some c /\
                pick_course None inputs = Ret (c, rest)) /\
     (i < - n \/ n <= i -> pick_course None inputs = Raise IndexError)).
Proof.
intros E menu n. unfold course, courses. rewrite E. cbn [bind].
fold menu. unfold choose. split; [|split].
- intros ->. reflexivity.
- intros line rest -> P. cbn [input bind]. rewrite P. reflexivity.
- intros line rest i -> P. cbn [input bind]. rewrite P. subst n.
  split; [|split].
  + intros R. destruct (list_index_front menu i R) as (c & N & ->).
    exists c. split; [exact N | reflexivity].
  + intros R. rewrite (list_index_back menu i R).
    destruct (list_index_front menu (i + Z.of_nat (List.length menu)))
      as (c & N & ->); [lia|].
    exists c. split; [exact N | reflexivity].
  + intros R. rewrite (list_index_out menu i R). reflexivity.
Qed.

Lemma quizzes_fold (pages : list (list quiz_data)) (acc : list quiz_data) :
  fold_left (fun acc result => acc ++ filter is_assignment result) pages acc
  = acc ++ filter is_assignment (List.concat pages).
Proof.
revert acc. induction pages as [|p pages IH]; intros acc.
- cbn. rewrite app_nil_r. reflexivity.
- cbn [fold_left List.concat]. rewrite IH, filter_app, app_assoc. reflexivity.
Qed.

Lemma list_index_In {A} (l : list A) i x : list_index l i = Ret x -> In x l.
Proof.
unfold list_index. destruct (_ && _); [|discriminate].
destruct (nth_error l _) as [y|] eqn:E; [|discriminate].
intros H. injection H as <-. apply (nth_error_In _ _ E).
Qed.

(** X7: the menu of quizzes holds the quizzes of type assignment of all
    pages, in the order served, and no other quiz: a quiz picked from
    the menu is one of them. *)
Theorem quiz_menu_holds_assignments c pages inputs :
  request get_quizzes fuel (course_url_prefix c ++ lit "/quizzes") = Ret pages ->
  quizzes fuel get_quizzes c = Ret (filter is_assignment (List.concat pages)) /\
  forall qz inputs',
    pick_quiz c None inputs = Ret (qz, inputs') ->
    quiz_type qz = lit "assignment" /\ In qz (List.concat pages) /\
    exists line, inputs = line :: inputs'.
Proof.
intros E.
assert (quizzes fuel get_quizzes c
        = Ret (filter is_assignment (List.concat pages))) as Q.
{ unfold quizzes. rewrite E. cbn [bind]. rewrite quizzes_fold. reflexivity. }
split; [exact Q|].
intros qz inputs'. unfold Course_quiz. cbn [bind]. rewrite Q.
cbn [bind]. unfold choose.
destruct inputs as [|line rest]; [discriminate|]. cbn [input bind].
destruct (parse_int line) as [i|]; [|discriminate].
destruct (list_index _ i) as [x| |] eqn:X; [|discriminate ..]. cbn [bind].
intros H. injection H as <- <-.
apply list_index_In in X. apply filter_In in X. destruct X as [I T].
split; [apply str_eqb_eq; exact T|]. split; [exact I|].
exists line. reflexivity.
Qed.
End SelectionFacts.

Lemma course_menu_choice_witness :
  course ex_parse_int 1 ex_get_courses ex_get_course None [lit "-1"; lit "x"]
  = Ret (ex_course 13 "Spring", [lit "x"]) /\
  course ex_parse_int 1 ex_get_courses ex_get_course None [lit "3"]
  = Raise IndexError.
Proof.
pose proof (course_menu_choice ex_parse_int 1 ex_get_courses ex_get_course
              [[ex_course 11 "Fall"; ex_course 12 "Winter";
                ex_course 13 "Spring"]]) as W.
split.
- destruct (W [lit "-1"; lit "x"] eq_refl) as (_ & _ & C).
  destruct (C (lit "-1") [lit "x"] (-1) eq_refl eq_refl) as (_ & B & _).
  destruct B as (c & N & E); [simpl; lia|].
  simpl in N. injection N as <-. exact E.
- destruct (W [lit "3"] eq_refl) as (_ & _ & C).
  destruct (C (lit "3") [] 3 eq_refl eq_refl) as (_ & _ & O).
  apply O. simpl. lia.
Defined.

Lemma quiz_menu_holds_assignments_witness :
  quizzes 1 ex_get_quizzes (ex_course 12 "Winter")
  = Ret [ex_quiz 2 "assignment" "Quiz 1"; ex_quiz 4 "assignment" "Quiz 2"].
Proof.
apply (proj1 (quiz_menu_holds_assignments ex_parse_int 1 ex_get_quizzes
                ex_get_quiz (ex_course 12 "Winter")
                [[ex_quiz 1 "practice_quiz" "Warm-up";
                  ex_quiz 2 "assignment" "Quiz 1";
                  ex_quiz 3 "survey" "Feedback";
                  ex_quiz 4 "assignment" "Quiz 2"]] [] eq_refl)).
Defined.

Lemma chosen_by_id_witness :
  Course_quiz ex_parse_int 1 ex_get_quizzes ex_get_quiz (ex_course 12 "Winter")
    (Some 1) [lit "x"]
  = Ret (ex_quiz 1 "practice_quiz" "Warm-up", [lit "x"]) /\
  ex_quiz 1 "practice_quiz" "Warm-up"
  = resp_json
      (ex_get_quiz
         (course_url_prefix (ex_course 12 "Winter") ++ lit "/quizzes/"
            ++ str_of_Z 1)) /\
  [lit "x"] = [lit "x"].
Proof.
split; [reflexivity|].
apply (proj2 (chosen_by_id ex_parse_int 1 ex_get_courses ex_get_course
                ex_get_quizzes ex_get_quiz 1 [lit "x"])
         (ex_course 12 "Winter") (ex_quiz 1 "practice_quiz" "Warm-up")
         [lit "x"]).
reflexivity.
Defined.

Section CommandFacts.
Variable repr_float : Q -> str.
Variable json_dumps_question : question -> str.
Variable uuid4 : nat -> str.
Variable parse_int : str -> option Z.
Variable get_image : str -> image_response.
Variable get_group : str -> response (option group).
Variable get_questions : str -> response (list question).
Variable get_courses : str -> response (list course_data).
Variable get_course : str -> response course_data.
Variable get_quizzes : str -> response (list quiz_data).
Variable get_quiz : str -> response quiz_data.
Variable fuel : nat.

(** X8: when the command is given a course id and a quiz id and returns,
    the course served for that id has a term name and a course code, the
    quiz is the one served under the prefix of that course, its
    questions are asked for under /courses/<id of the course>/quizzes/<id
    of the quiz>, and every line the operator types goes to the
    questions: none is consumed by a menu. *)
Theorem command_with_ids o cid qid fs inputs st :
  main_command repr_float json_dumps_question uuid4 parse_int get_image
    get_group get_questions get_courses get_course get_quizzes get_quiz fuel
    o (Some cid) (Some qid) fs inputs = Ret st ->
  let c := resp_json
             (get_course
                (lit "/courses/" ++ str_of_Z cid ++ lit "?include[]=term")) in
  let qz := resp_json
              (get_quiz
                 (lit "/courses/" ++ str_of_Z (course_id c) ++ lit "/quizzes/"
                    ++ str_of_Z qid)) in
  term_name c <> None /\ course_code c <> None /\
  main repr_float json_dumps_question uuid4 get_image get_group get_questions
    fuel o (quiz_fields qz)
    (lit "/courses/" ++ str_of_Z (course_id c) ++ lit "/quizzes/"
       ++ str_of_Z (quiz_id (quiz_fields qz)))
    fs inputs
  = Ret st.
Proof.
intros E c qz. unfold main_command in E.
destruct (negb (path_exists fs _)); [discriminate|].
rewrite course_by_id_eq in E.
destruct (request get_course fuel _); cbn [bind] in E; [|discriminate ..].
fold c in E.
destruct (term_name c) as [t|]; [|discriminate].
destruct (course_code c) as [cc|]; [|discriminate].
rewrite quiz_by_id_eq in E.
destruct (request get_quiz fuel _); cbn [bind] in E; [|discriminate ..].
unfold course_url_prefix in E. rewrite <- !app_assoc in E. fold qz in E.
split; [discriminate|]. split; [discriminate|].
rewrite <- E. f_equal.
unfold quiz_url_prefix, compute_url_prefix, compute_base_url, course_url_prefix.
rewrite <- !app_assoc. reflexivity.
Qed.
End CommandFacts.

Lemma command_with_ids_witness :
  ex_command (Some 12) (Some 1) [lit "First"; []]
  = Ret (ex_command_result (Some 12) (Some 1) [lit "First"; []]) /\
  main ex_repr_float ex_json_dumps ex_uuid4 ex_get_image ex_get_group
    ex_get_questions 3 ex_options
    (quiz_fields (ex_quiz 1 "practice_quiz" "Warm-up"))
    (lit "/courses/12/quizzes/1") ex_repo [lit "First"; []]
  = Ret (ex_command_result (Some 12) (Some 1) [lit "First"; []]).
Proof.
assert (ex_command (Some 12) (Some 1) [lit "First"; []]
        = Ret (ex_command_result (Some 12) (Some 1) [lit "First"; []])) as E
  by (vm_compute; reflexivity).
split; [exact E|].
apply (command_with_ids ex_repr_float ex_json_dumps ex_uuid4 ex_parse_int
         ex_get_image ex_get_group ex_get_questions ex_get_courses
         ex_get_course ex_get_quizzes ex_get_quiz 3 ex_options 12 1 ex_repo
         [lit "First"; []] _ E).
Defined.

(** ** More on the reconciler *)

Lemma filter_implied {A} (f g : A -> bool) (l : list A) :
  (forall x, In x l -> f x = true -> g x = true) ->
  filter f (filter g l) = filter f l.
Proof.
induction l as [|x l IH]; intros H; [reflexivity|]. cbn [filter].
destruct (g x) eqn:G.
- cbn [filter]. rewrite IH; [reflexivity|]. intros y Y. apply H. right. exact Y.
- destruct (f x) eqn:F.
  + rewrite (H x (or_introl eq_refl) F) in G. discriminate.
  + apply IH. intros y Y. apply H. right. exact Y.
Qed.

Section Stability.
Context {V : Type} (key : V -> Z).

Lemma insert_by_stable (p : Z) (x : Z * V) (l : list (Z * V)) :
  filter (fun y => key (snd y) =? p) (insert_by key x l)
  = filter (fun y => key (snd y) =? p) (x :: l).
Proof.
induction l as [|y l IH]; [reflexivity|]. cbn [insert_by].
destruct (key (snd x) <=? key (snd y)) eqn:L; [reflexivity|].
apply Z.leb_gt in L. cbn [filter] in *. rewrite IH.
destruct (key (snd x) =? p) eqn:X; [|reflexivity].
apply Z.eqb_eq in X.
destruct (key (snd y) =? p) eqn:Y; [apply Z.eqb_eq in Y; lia | reflexivity].
Qed.

(** The sort is stable: the entries of one key keep their order. *)
Lemma sorted_by_stable (p : Z) (l : list (Z * V)) :
  filter (fun y => key (snd y) =? p) (sorted_by key l)
  = filter (fun y => key (snd y) =? p) l.
Proof.
induction l as [|x l IH]; [reflexivity|].
change (sorted_by key (x :: l)) with (insert_by key x (sorted_by key l)).
rewrite insert_by_stable. cbn [filter]. rewrite IH. reflexivity.
Qed.
End Stability.

Lemma dict_keys_set_NoDup {V} (k : Z) (v : V) (d : Dict.t V) :
  NoDup (Dict.keys d) -> NoDup (Dict.keys (Dict.set k v d)).
Proof.
intros N. rewrite dict_keys_set.
destruct (existsb (Z.eqb k) (Dict.keys d)) eqn:E; [exact N|].
apply NoDup_app; [exact N | constructor; [intros []|constructor] |].
intros x I [<-|[]]. apply existsb_eqb_In in I. congruence.
Qed.

Lemma dict_keys_set_In {V} (k k' : Z) (v : V) (d : Dict.t V) :
  In k (Dict.keys (Dict.set k' v d)) <-> k = k' \/ In k (Dict.keys d).
Proof.
rewrite dict_keys_set.
destruct (existsb (Z.eqb k') (Dict.keys d)) eqn:E.
- apply existsb_eqb_In in E. split; [tauto|]. intros [->|I]; assumption.
- rewrite in_app_iff. cbn [In]. split; intros H; [|intuition congruence].
  destruct H as [H|[H|[]]]; [right; exact H | left; congruence].
Qed.

Lemma fold_set_In (l : list question) : forall (d : Dict.t question) id x,
  In (id, x) (fold_left (fun d q' => Dict.set (q_id q') q' d) l d) ->
  In (id, x) d \/ (In x l /\ id = q_id x).
Proof.
induction l as [|a l IH]; intros d id x H; [left; exact H|].
cbn [fold_left] in H. apply IH in H. destruct H as [H|[H E]].
- apply dict_set_In in H. destruct H as [H|H].
  + injection H as -> ->. right. split; [left; reflexivity | reflexivity].
  + left. exact H.
- right. split; [right; exact H | exact E].
Qed.

Lemma fold_set_keys (l : list question) : forall (d : Dict.t question),
  NoDup (Dict.keys d) ->
  NoDup (Dict.keys (fold_left (fun d q' => Dict.set (q_id q') q' d) l d)) /\
  forall k,
    In k (Dict.keys (fold_left (fun d q' => Dict.set (q_id q') q' d) l d))
    <-> In k (Dict.keys d) \/ In k (map q_id l).
Proof.
induction l as [|a l IH]; intros d N.
- cbn. split; [exact N|]. intros k. tauto.
- cbn [fold_left map In].
  destruct (IH _ (dict_keys_set_NoDup (q_id a) a d N)) as [N' K].
  split; [exact N'|]. intros k. rewrite K, dict_keys_set_In.
  split; intros H; intuition congruence.
Qed.

Section ReconcilerMore.
Variable get_group : str -> response (option group).
Variable fuel : nat.
Variable url_prefix : str.

Local Abbreviation lookup := (question_group get_group fuel url_prefix).
Local Abbreviation pass := (first_pass get_group fuel url_prefix).
Local Abbreviation step := (reconcile_question get_group fuel url_prefix).
Local Abbreviation init := (mkReconciler [] [] 1).

(** X9: for a group id that is null or zero the group is None and no
    request is made; for any other id the request either fails, and its
    error is the error of the lookup, or the lookup returns the body of
    the first page served for that id. *)
Theorem question_group_is_the_first_page :
  lookup None = Ret None /\ lookup (Some 0) = Ret None /\
  forall k, k <> 0 ->
    lookup (Some k)
    = (pages <- request get_group fuel
                  (url_prefix ++ lit "/groups/" ++ str_of_Z k) ;;
       Ret (resp_json (get_group (url_prefix ++ lit "/groups/" ++ str_of_Z k)))).
Proof.
split; [reflexivity|]. split; [reflexivity|].
intros k K. unfold question_group. apply Z.eqb_neq in K. rewrite K.
destruct (request get_group fuel _) as [l| |] eqn:E; [|reflexivity ..].
unfold request in E. apply request_loop_head in E. destruct E as (rest & ->).
reflexivity.
Qed.

Lemma annotate_In a wire : forall i,
  In a (annotate lookup i wire) ->
  exists q i', In q wire /\
    a = match resolved_by lookup q with
        | Some g =>
            set_position (set_points_possible q (question_points g))
              (g_position g)
        | None => set_position q i'
        end.
Proof.
induction wire as [|q wire IH]; intros i H; [destruct H|].
cbn [annotate] in H.
destruct (resolved_by lookup q) as [g|] eqn:R.
- destruct H as [<-|H].
  + exists q, i. split; [left; reflexivity|]. rewrite R. reflexivity.
  + destruct (IH _ H) as (q' & i' & I & E). exists q', i'.
    split; [right; exact I | exact E].
- destruct H as [<-|H].
  + exists q, i. split; [left; reflexivity|]. rewrite R. reflexivity.
  + destruct (IH _ H) as (q' & i' & I & E). exists q', i'.
    split; [right; exact I | exact E].
Qed.

Lemma resolved_has_group_id q g :
  resolved_by lookup q = Some g -> quiz_group_id q <> None.
Proof.
unfold resolved_by. intros R E. rewrite E in R. cbn in R. discriminate.
Qed.

Lemma reconcile_ret wire qs gs :
  reconcile get_group fuel url_prefix wire = Ret (qs, gs) ->
  exists st,
    pass init wire = Ret st /\
    cache_ok lookup (r_groups st) /\
    r_questions st
    = fold_left (fun d q' => Dict.set (q_id q') q' d) (annotate lookup 1 wire) [] /\
    qs = sorted_by position
           (map (fun kv =>
                   (fst kv, shift_by (group_positions (r_groups st)) (snd kv)))
              (r_questions st)) /\
    gs = sorted_by g_position (r_groups st).
Proof.
unfold reconcile. destruct (pass init wire) as [st| |] eqn:P; [|discriminate ..].
cbn [bind]. intros E. injection E as <- <-. exists st.
assert (cache_ok lookup (r_groups init)) as OK0.
{ split; [constructor | intros k g H; discriminate]. }
split; [reflexivity|]. split; [apply (first_pass_cache _ _ _ _ _ _ OK0 P)|].
split; [apply (first_pass_spec _ _ _ _ _ _ OK0 P)|].
rewrite shift_pass_spec. split; reflexivity.
Qed.

(** X10: a question leaves the reconciler as it came over the wire but
    for two fields: its position, and, when its group resolved, its
    points, which are the per-question points of the group.  No question
    is invented, every id of the wire has its entry, and no id has two. *)
Theorem reconciled_questions_come_from_the_wire wire qs gs :
  reconcile get_group fuel url_prefix wire = Ret (qs, gs) ->
  (forall id q',
      In (id, q') qs ->
      exists q, In q wire /\ id = q_id q /\
        q' = match resolved_by lookup q with
             | Some g =>
                 set_position (set_points_possible q (question_points g))
                   (g_position g)
             | None => set_position q (position q')
             end) /\
  (forall q, In q wire -> In (q_id q) (Dict.keys qs)) /\
  NoDup (Dict.keys qs).
Proof.
intros E. destruct (reconcile_ret _ _ _ E) as (st & P & OK & Q & -> & ->).
set (ps := group_positions (r_groups st)) in *.
assert (Permutation
          (Dict.keys
             (sorted_by position
                (map (fun kv => (fst kv, shift_by ps (snd kv))) (r_questions st))))
          (Dict.keys (r_questions st))) as PK.
{ unfold Dict.keys. rewrite (sorted_by_perm position _). rewrite map_map.
  cbn [fst]. reflexivity. }
destruct (fold_set_keys (annotate lookup 1 wire) [] (NoDup_nil _)) as [N K].
rewrite <- Q in N, K.
split; [|split].
- intros id q' I. apply sorted_by_In in I. apply in_map_iff in I.
  destruct I as ([id0 a] & X & I). cbn [fst snd] in X. injection X as -> <-.
  rewrite Q in I. apply fold_set_In in I. destruct I as [[]|[I ->]].
  apply annotate_In in I. destruct I as (q & i' & I & ->).
  exists q. split; [exact I|].
  destruct (resolved_by lookup q) as [g|] eqn:R.
  + split; [reflexivity|]. unfold shift_by.
    cbn [quiz_group_id set_position set_points_possible].
    destruct (quiz_group_id q) eqn:G;
      [reflexivity | destruct (resolved_has_group_id _ _ R G)].
  + split; [reflexivity|]. unfold shift_by.
    rewrite quiz_group_id_set_position.
    destruct (is_None (quiz_group_id q)).
    * rewrite set_position_twice, position_set_position. reflexivity.
    * rewrite position_set_position. reflexivity.
- intros q I. apply (Permutation_in _ (Permutation_sym PK)). apply K. right.
  rewrite annotate_ids. apply in_map. exact I.
- apply (Permutation_NoDup (Permutation_sym PK)). exact N.
Qed.

Lemma first_pass_caches wire : forall st st',
  cache_ok lookup (r_groups st) -> pass st wire = Ret st' ->
  (forall k, In k (Dict.keys (r_groups st)) -> In k (Dict.keys (r_groups st'))) /\
  (forall q k g,
      In q wire -> quiz_group_id q = Some k -> lookup (Some k) = Ret (Some g) ->
      In k (Dict.keys (r_groups st'))).
Proof.
induction wire as [|q wire IH]; intros st st' OK H; cbn [first_pass] in H.
- injection H as <-. split; [tauto | intros q k g []].
- destruct (step st q) as [st1| |] eqn:S1; cbn [bind] in H; try discriminate.
  destruct (reconcile_question_ret _ _ _ _ _ _ OK S1) as (g & gs & L & R & OK1 & E).
  destruct (resolve_group_ret _ _ _ _ _ _ _ OK R) as (_ & _ & G).
  assert (r_groups st1 = gs) as E1 by (subst st1; destruct g; reflexivity).
  assert (cache_ok lookup (r_groups st1)) as OK2 by (rewrite E1; exact OK1).
  destruct (IH _ _ OK2 H) as [Keep New].
  assert (forall k, In k (Dict.keys (r_groups st)) -> In k (Dict.keys gs)) as Grow.
  { intros k I. rewrite G. destruct (quiz_group_id q) as [k0|]; [|exact I].
    destruct g as [g0|]; [|exact I].
    destruct (existsb (Z.eqb k0) (Dict.keys (r_groups st))); [exact I|].
    unfold Dict.keys. rewrite map_app. apply in_or_app. left. exact I. }
  split.
  + intros k I. apply Keep. rewrite E1. apply Grow, I.
  + intros q' k g' [<-|I] Gq Lk; [|apply (New q' k g' I Gq Lk)].
    apply Keep. rewrite E1, G. rewrite Gq in *. rewrite Lk in L.
    injection L as <-.
    destruct (existsb (Z.eqb k) (Dict.keys (r_groups st))) eqn:X.
    * apply existsb_eqb_In. exact X.
    * unfold Dict.keys. rewrite map_app. apply in_or_app. right. left.
      reflexivity.
Qed.

(** X11: the groups the reconciler returns are the groups that questions
    of the wire name and that resolve, each once, each with the body the
    group endpoint serves for it. *)
Theorem reconciled_groups_are_the_resolved_ones wire qs gs :
  reconcile get_group fuel url_prefix wire = Ret (qs, gs) ->
  NoDup (Dict.keys gs) /\
  forall k g,
    In (k, g) gs <->
    (exists q, In q wire /\ quiz_group_id q = Some k) /\
    lookup (Some k) = Ret (Some g).
Proof.
intros E. destruct (reconcile_ret _ _ _ E) as (st & P & OK & _ & _ & ->).
assert (cache_ok lookup (r_groups init)) as OK0.
{ split; [constructor | intros k g H; discriminate]. }
destruct OK as [N C].
split.
- unfold Dict.keys. apply (Permutation_NoDup
    (Permutation_sym (Permutation_map fst (sorted_by_perm g_position _)))).
  exact N.
- intros k g. rewrite sorted_by_In. split.
  + intros I. pose proof (dict_In_get _ _ _ N I) as D.
    split; [|apply C, D].
    destruct (first_pass_keys _ _ _ _ _ _ OK0 P k) as [[]|Q]; [|exact Q].
    apply (in_map fst) in I. exact I.
  + intros ((q & I & G) & L).
    destruct (first_pass_caches _ _ _ OK0 P) as [_ New].
    pose proof (New q k g I G L) as K.
    destruct (Dict.get k (r_groups st)) as [g'|] eqn:D.
    * pose proof (C _ _ D) as L'. rewrite L in L'. injection L' as <-.
      apply dict_get_In, D.
    * apply dict_get_None in D. contradiction.
Qed.

Lemma in_group_shift_by k ps q : in_group k (shift_by ps q) = in_group k q.
Proof.
unfold shift_by. destruct (is_None (quiz_group_id q)); reflexivity.
Qed.

Lemma in_group_Some k q :
  in_group k q = true -> quiz_group_id q = Some k /\ k <> 0.
Proof.
unfold in_group, group_key. destruct (quiz_group_id q) as [k'|]; [|discriminate].
destruct (k' =? 0) eqn:Z0; [discriminate|]. intros H.
apply Z.eqb_eq in H. subst k'. apply Z.eqb_neq in Z0. split; [reflexivity|exact Z0].
Qed.

Lemma members_of_annotate k wire : forall i,
  map fst
    (filter (fun kv : Z * question => in_group k (snd kv))
       (map entry_of (annotate lookup i wire)))
  = map q_id (filter (in_group k) wire).
Proof.
induction wire as [|q wire IH]; intros i; [reflexivity|].
cbn [annotate]. destruct (resolved_by lookup q) as [g|];
  cbn [map filter entry_of snd];
  change (in_group k (set_position ?x ?p)) with (in_group k x);
  change (in_group k (set_points_possible q ?n)) with (in_group k q);
  destruct (in_group k q); cbn [map fst]; rewrite IH; reflexivity.
Qed.

(** X12: the members of a resolved group stand in the returned mapping
    in the order in which the wire served them: they share one position
    and the sort by position is stable. *)
Theorem group_members_keep_wire_order wire qs gs k :
  NoDup (map q_id wire) ->
  reconcile get_group fuel url_prefix wire = Ret (qs, gs) ->
  In k (Dict.keys gs) ->
  map fst (filter (fun kv => in_group k (snd kv)) qs)
  = map q_id (filter (in_group k) wire).
Proof.
intros ND E K. destruct (reconcile_ret _ _ _ E) as (st & P & OK & _ & -> & ->).
assert (r_questions st = map entry_of (annotate lookup 1 wire)) as Q
  by (apply (first_pass_questions _ _ _ _ _ ND P)).
assert (cache_ok lookup (r_groups init)) as OK0.
{ split; [constructor | intros k0 g H; discriminate]. }
assert (grouped_ok lookup (r_questions st)) as GO.
{ apply (first_pass_grouped _ _ _ init wire st OK0); [|exact P].
  intros id q k0 g []. }
set (ps := group_positions (r_groups st)) in *.
set (U := map (fun kv : Z * question => (fst kv, shift_by ps (snd kv)))
            (r_questions st)).
(* the group of the key *)
assert (exists g, Dict.get k (r_groups st) = Some g) as (g & D).
{ destruct (Dict.get k (r_groups st)) as [g|] eqn:D; [eauto|].
  apply dict_get_None in D. exfalso. apply D.
  unfold Dict.keys in *.
  apply (Permutation_in _ (Permutation_map fst (sorted_by_perm g_position _)) K). }
pose proof (proj2 OK _ _ D) as L.
(* every member stands at the position of the group *)
assert (forall x, In x U -> in_group k (snd x) = true ->
                  (position (snd x) =? g_position g) = true) as Same.
{ intros x I M. apply in_map_iff in I. destruct I as ([id a] & <- & I).
  cbn [snd fst] in *. rewrite in_group_shift_by in M.
  destruct (in_group_Some _ _ M) as [G _].
  unfold shift_by. rewrite G. cbn [is_None]. apply Z.eqb_eq.
  apply (GO id a k g I G L). }
rewrite <- (filter_implied _ (fun y => position (snd y) =? g_position g)).
2:{ intros x I. apply Same. apply sorted_by_In in I. exact I. }
rewrite sorted_by_stable. rewrite (filter_implied _ _ U Same).
unfold U. rewrite Q. clear.
rewrite <- (members_of_annotate k wire 1).
generalize (annotate lookup 1 wire) as l.
induction l as [|a l IH]; [reflexivity|].
cbn [map filter entry_of snd fst]. rewrite in_group_shift_by.
destruct (in_group k a); cbn [map fst]; rewrite IH; reflexivity.
Qed.
End ReconcilerMore.

Lemma question_group_is_the_first_page_witness :
  question_group ex_get_group 1 (lit "/q") (Some 10) = Ret (Some (ex_group 2)).
Proof.
rewrite (proj2 (proj2 (question_group_is_the_first_page ex_get_group 1
                         (lit "/q"))) 10) by discriminate.
reflexivity.
Defined.

Lemma ex_reconciled_eq :
  reconcile ex_get_group 1 (lit "/q")
    [ex_q 1 None; ex_q 2 (Some 10); ex_q 3 (Some 10)]
  = Ret (fst ex_reconciled, snd ex_reconciled).
Proof. vm_compute. reflexivity. Qed.

Lemma reconciled_questions_come_from_the_wire_witness :
  reconcile ex_get_group 1 (lit "/q")
    [ex_q 1 None; ex_q 2 (Some 10); ex_q 3 (Some 10)]
  = Ret (fst ex_reconciled, snd ex_reconciled) /\
  In (q_id (ex_q 3 (Some 10))) (Dict.keys (fst ex_reconciled)) /\
  NoDup (Dict.keys (fst ex_reconciled)).
Proof.
split; [exact ex_reconciled_eq|].
destruct (reconciled_questions_come_from_the_wire ex_get_group 1 (lit "/q")
            [ex_q 1 None; ex_q 2 (Some 10); ex_q 3 (Some 10)]
            (fst ex_reconciled) (snd ex_reconciled) ex_reconciled_eq)
  as (_ & K & N).
split; [|exact N]. apply K. right. right. left. reflexivity.
Defined.

Lemma reconciled_groups_are_the_resolved_ones_witness :
  reconcile ex_get_group 1 (lit "/q")
    [ex_q 1 None; ex_q 2 (Some 10); ex_q 3 (Some 10)]
  = Ret (fst ex_reconciled, snd ex_reconciled) /\
  In (10, ex_group 2) (snd ex_reconciled).
Proof.
split; [exact ex_reconciled_eq|].
apply (proj2 (reconciled_groups_are_the_resolved_ones ex_get_group 1 (lit "/q")
                [ex_q 1 None; ex_q 2 (Some 10); ex_q 3 (Some 10)]
                (fst ex_reconciled) (snd ex_reconciled) ex_reconciled_eq)
         10 (ex_group 2)).
split; [|reflexivity].
exists (ex_q 2 (Some 10)). split; [right; left; reflexivity | reflexivity].
Defined.

Lemma ex_reconciled_ids :
  NoDup (map q_id [ex_q 1 None; ex_q 2 (Some 10); ex_q 3 (Some 10)]).
Proof.
cbn. repeat constructor; cbn; intuition discriminate.
Qed.

Lemma group_members_keep_wire_order_witness :
  reconcile ex_get_group 1 (lit "/q")
    [ex_q 1 None; ex_q 2 (Some 10); ex_q 3 (Some 10)]
  = Ret (fst ex_reconciled, snd ex_reconciled) /\
  Dict.keys (snd ex_reconciled) = [10] /\
  map fst (filter (fun kv => in_group 10 (snd kv)) (fst ex_reconciled)) = [2; 3].
Proof.
split; [exact ex_reconciled_eq|]. split; [reflexivity|].
apply (group_members_keep_wire_order ex_get_group 1 (lit "/q")
         [ex_q 1 None; ex_q 2 (Some 10); ex_q 3 (Some 10)]
         (fst ex_reconciled) (snd ex_reconciled) 10
         ex_reconciled_ids ex_reconciled_eq (or_introl eq_refl)).
Defined.

(** X13: the questions of all pages are reconciled as one wire, in the
    order served: the sequential numbering goes on from page to page and
    a group met on one page is known on the next. *)
Theorem Quiz_questions_reads_all_pages get_group fuel url_prefix
    (get_questions : str -> response (list question)) rs v :
  follows get_questions (url_prefix ++ lit "/questions?per_page=100") rs v ->
  status_ok (get_questions v) = true ->
  last_page (get_questions v) = true ->
  (List.length rs < fuel)%nat ->
  Quiz_questions get_group fuel url_prefix get_questions
  = reconcile get_group fuel url_prefix
      (List.concat (map resp_json rs) ++ resp_json (get_questions v)).
Proof.
intros F OK L N. unfold Quiz_questions, request.
replace fuel with (List.length rs + S (fuel - S (List.length rs)))%nat at 1
  by lia.
rewrite (request_loop_follows _ _ _ _ F). cbn [request_loop app].
rewrite OK, L. cbn [negb orb bind]. rewrite concat_app. cbn [List.concat].
rewrite app_nil_r. reflexivity.
Qed.

Lemma Quiz_questions_reads_all_pages_witness :
  Quiz_questions ex_get_group 2 (lit "/q") ex_question_pages
  = reconcile ex_get_group 2 (lit "/q")
      [ex_q 1 None; ex_q 2 (Some 10); ex_q 3 (Some 10); ex_q 4 None].
Proof.
apply (Quiz_questions_reads_all_pages ex_get_group 2 (lit "/q")
         ex_question_pages
         [ex_question_pages (lit "/q/questions?per_page=100")] (lit "/q/page2")
         (follows_cons ex_question_pages (lit "/q/questions?per_page=100")
            (lit "/q/page2") [] (lit "/q/page2") eq_refl eq_refl eq_refl
            (follows_nil ex_question_pages (lit "/q/page2")))
         eq_refl eq_refl (le_n 2)).
Defined.

(** ** File names *)

Lemma run_split p s :
  s = firstn (run p s) s ++ skipn (run p s) s /\
  forallb p (firstn (run p s) s) = true.
Proof.
induction s as [|x s IH]; [split; reflexivity|]. cbn [run].
destruct (p x) eqn:P; [|split; reflexivity].
cbn [firstn skipn app forallb]. rewrite P. destruct IH as [E F].
split; [f_equal; exact E | exact F].
Qed.

Lemma star_greedy_all p s c :
  star_greedy p (fun s' c' => Some (s', c')) s c = Some (skipn (run p s) s, c).
Proof.
induction s as [|x s IH]; [reflexivity|]. cbn [star_greedy run].
destruct (p x); [|reflexivity]. rewrite IH. reflexivity.
Qed.

Lemma match_here_plus p x s :
  match_here (RPlus p) (x :: s)
  = if p x then Some (mkMatchObj (x :: firstn (run p s) s) []) else None.
Proof.
unfold match_here. cbn [rmatch]. destruct (p x); [|reflexivity].
rewrite star_greedy_all. f_equal. f_equal.
destruct (run_split p s) as [E _].
pose proof (firstn_length_diff (x :: firstn (run p s) s) (skipn (run p s) s))
  as F.
cbn [app] in F. rewrite <- E in F. exact F.
Qed.

Lemma filter_none {A} (f : A -> bool) (l : list A) :
  forallb (fun x => negb (f x)) l = true -> filter f l = [].
Proof.
induction l as [|x l IH]; [reflexivity|]. cbn [forallb filter].
intros H. apply andb_true_iff in H. destruct H as [X H].
apply negb_true_iff in X. rewrite X. apply IH, H.
Qed.

Lemma sub_plus_filter (f : ascii -> bool) (n : nat) : forall s,
  (List.length s <= n)%nat ->
  re_sub (RPlus (fun x => negb (f x))) [] s = filter f s.
Proof.
unfold re_sub. induction n as [|n IH]; intros s L.
- destruct s; [reflexivity | simpl in L; lia].
- destruct s as [|x s]; [reflexivity|].
  pose proof (match_here_plus (fun x => negb (f x)) x s) as M.
  cbn beta in M. cbn [filter]. destruct (f x) eqn:F; cbn [negb] in M.
  + rewrite (sub_from_keep _ _ _ _ M). f_equal. apply IH. simpl in L. lia.
  + destruct (run_split (fun x => negb (f x)) s) as [E A].
    set (a := firstn (run (fun x => negb (f x)) s) s) in *.
    set (rest := skipn (run (fun x => negb (f x)) s) s) in *.
    rewrite E in M at 1. rewrite E.
    rewrite (sub_from_match _ _ _ _ _ _ M eq_refl). cbn [app].
    rewrite filter_app, (filter_none _ _ A). cbn [app].
    apply IH. rewrite E in L. simpl in L. rewrite length_app in L. lia.
Qed.

Lemma file_name_only_filter name : file_name_only name = filter is_alnum name.
Proof.
unfold file_name_only, non_word_or_underscore.
apply (sub_plus_filter is_alnum (List.length name)). lia.
Qed.

Lemma is_alnum_ascii x : is_ascii x = true -> is_alnum x = is_ascii_alnum x.
Proof.
unfold is_ascii, is_alnum, is_ascii_alnum. intros A.
apply Nat.ltb_lt in A.
destruct (128 <=? nat_of_ascii x)%nat eqn:B; [apply Nat.leb_le in B; lia|].
apply orb_false_r.
Qed.

(** X14: on a name written in ASCII, the file name is the name with
    every character dropped that is not a letter or a digit (spaces,
    punctuation and underscores go, nothing is put in their place); it
    holds letters and digits only, and cleaning it again changes
    nothing. *)
Theorem file_name_only_keeps_letters_and_digits name :
  forallb is_ascii name = true ->
  file_name_only name = filter is_ascii_alnum name /\
  forallb is_ascii_alnum (file_name_only name) = true /\
  file_name_only (file_name_only name) = file_name_only name.
Proof.
intros A.
assert (filter is_alnum name = filter is_ascii_alnum name) as E.
{ apply filter_ext_in. intros x I. apply is_alnum_ascii.
  rewrite forallb_forall in A. apply A, I. }
rewrite !file_name_only_filter, E. split; [reflexivity|]. split.
- apply forallb_forall. intros x I. apply filter_In in I. apply I.
- rewrite <- E at 1.
  induction name as [|x name IH]; [reflexivity|].
  cbn [forallb] in A. apply andb_true_iff in A. destruct A as [X A].
  cbn [filter]. rewrite <- (is_alnum_ascii x X).
  destruct (is_alnum x) eqn:F.
  + cbn [filter]. rewrite F. f_equal. apply IH; [exact A|].
    apply filter_ext_in. intros y I. apply is_alnum_ascii.
    rewrite forallb_forall in A. apply A, I.
  + apply IH; [exact A|].
    apply filter_ext_in. intros y I. apply is_alnum_ascii.
    rewrite forallb_forall in A. apply A, I.
Qed.

Lemma file_name_only_keeps_letters_and_digits_witness :
  file_name_only (lit "Quiz 1: Loops_and-Lists!") = lit "Quiz1LoopsandLists".
Proof.
rewrite (proj1 (file_name_only_keeps_letters_and_digits
                  (lit "Quiz 1: Loops_and-Lists!") eq_refl)).
reflexivity.
Defined.

(** ** The sanitizer deletes and does nothing else *)

Lemma subsequence_refl {A} (l : list A) : subsequence l l.
Proof. induction l; constructor; assumption. Qed.

Lemma subsequence_trans {A} (l3 : list A) : forall l1 l2,
  subsequence l1 l2 -> subsequence l2 l3 -> subsequence l1 l3.
Proof.
induction l3 as [|x l3 IH]; intros l1 l2 H12 H23.
- inversion H23; subst. exact H12.
- inversion H23; subst.
  + apply subsequence_skip. apply (IH _ _ H12). assumption.
  + inversion H12; subst.
    * apply subsequence_skip. apply (IH _ l0); assumption.
    * apply subsequence_keep. apply (IH _ l0); assumption.
Qed.

Lemma sub_from_deletes r s : forall n, subsequence (sub_from r [] n s) s.
Proof.
induction s as [|x s IH]; intros n.
- cbn [sub_from]. destruct n; [destruct (match_here r [])|]; constructor.
- cbn [sub_from]. destruct n as [|n].
  + destruct (match_here r (x :: s)) as [m|].
    * destruct (List.length (group0 m)); cbn [app];
        [apply subsequence_keep | apply subsequence_skip]; apply IH.
    * apply subsequence_keep, IH.
  + apply subsequence_skip, IH.
Qed.

(** X15: the sanitized text is the text with some characters left out:
    the sanitizer puts nothing in and moves nothing. *)
Theorem clean_question_text_only_deletes text :
  subsequence (clean_question_text text) text.
Proof.
unfold clean_question_text, re_sub.
apply (subsequence_trans _ _ (sub_from link_re [] 0 text));
  apply sub_from_deletes.
Qed.

Lemma sub_from_no_match l r repl s :
  l <> [] -> occurs l s = false ->
  sub_from (RSeq (RLit l) r) repl 0 s = s.
Proof.
intros NE. induction s as [|x s IH]; intros O.
- cbn [sub_from]. rewrite match_here_literal_fails; [reflexivity|].
  destruct l; [contradiction | reflexivity].
- cbn [occurs] in O. apply orb_false_iff in O. destruct O as [S O].
  rewrite sub_from_keep by (apply match_here_literal_fails, S).
  f_equal. apply IH, O.
Qed.

(** X16: a text in which neither <link nor <script occurs passes the
    sanitizer unchanged, whatever other markup it holds. *)
Theorem clean_question_text_keeps_other_markup text :
  occurs (lit "<link") text = false ->
  occurs (lit "<script") text = false ->
  clean_question_text text = text.
Proof.
intros L S. unfold clean_question_text, re_sub, link_re, script_re.
assert (lit "<link" <> []) as N1 by (intros H; vm_compute in H; discriminate H).
assert (lit "<script" <> []) as N2
  by (intros H; vm_compute in H; discriminate H).
rewrite (sub_from_no_match _ _ _ _ N1 L).
apply (sub_from_no_match _ _ _ _ N2 S).
Qed.

Lemma clean_question_text_keeps_other_markup_witness :
  clean_question_text (lit "<p>Is <b>2 < 3</b>?</p><img src=x>")
  = lit "<p>Is <b>2 < 3</b>?</p><img src=x>".
Proof.
apply (clean_question_text_keeps_other_markup
         (lit "<p>Is <b>2 < 3</b>?</p><img src=x>") eq_refl eq_refl).
Defined.

(** ** The extension of an image, at the edges *)

Lemma split_on_head c main t :
  lacks c main = true -> split_on c (main ++ c :: t) = main :: split_on c t.
Proof.
intros M. induction main as [|x main IH].
- cbn [app split_on]. rewrite ascii_eqb_refl. reflexivity.
- rewrite lacks_cons in M. apply andb_true_iff in M. destruct M as [X M].
  unfold not_char in X. apply negb_true_iff in X.
  cbn [app split_on]. rewrite X, (IH M). reflexivity.
Qed.

Lemma split_on_lacks c s : lacks c s = true -> split_on c s = [s].
Proof.
induction s as [|x s IH]; [reflexivity|]. intros L.
rewrite lacks_cons in L. apply andb_true_iff in L. destruct L as [X L].
unfold not_char in X. apply negb_true_iff in X.
cbn [split_on]. rewrite X, (IH L). reflexivity.
Qed.

Lemma split_on_nonempty c s : split_on c s <> [].
Proof.
destruct s as [|x s]; [discriminate|]. cbn [split_on].
destruct (ascii_eqb x c); [discriminate|].
destruct (split_on c s); discriminate.
Qed.

(** X17: a content type without a slash has no extension: the call
    raises IndexError.  Of a content type with more than one slash the
    extension is what stands between the first and the second. *)
Theorem image_file_extension_edges :
  (forall content_type,
      lacks slash content_type = true ->
      image_file_extension content_type = Raise IndexError) /\
  (forall main sub rest,
      lacks slash main = true -> lacks slash sub = true ->
      image_file_extension (main ++ slash :: sub ++ slash :: rest) = Ret sub).
Proof.
split.
- intros ct L. unfold image_file_extension.
  destruct (str_eqb ct (lit "image/x-icon")) eqn:E1.
  { apply str_eqb_eq in E1. subst ct. discriminate. }
  destruct (str_eqb ct (lit "image/svg+xml")) eqn:E2.
  { apply str_eqb_eq in E2. subst ct. discriminate. }
  change "/"%char with slash. rewrite (split_on_lacks _ _ L). reflexivity.
- intros main sub rest M S. unfold image_file_extension.
  assert (split_on slash (main ++ slash :: sub ++ slash :: rest)
          = main :: sub :: split_on slash rest) as P.
  { rewrite (split_on_head _ _ _ M), (split_on_head _ _ _ S). reflexivity. }
  destruct (str_eqb _ (lit "image/x-icon")) eqn:E1.
  { apply str_eqb_eq in E1. rewrite E1 in P. vm_compute in P.
    injection P as _ _ P. symmetry in P. destruct (split_on_nonempty _ _ P). }
  destruct (str_eqb _ (lit "image/svg+xml")) eqn:E2.
  { apply str_eqb_eq in E2. rewrite E2 in P. vm_compute in P.
    injection P as _ _ P. symmetry in P. destruct (split_on_nonempty _ _ P). }
  change "/"%char with slash. rewrite P. reflexivity.
Qed.

Lemma image_file_extension_edges_witness :
  image_file_extension (lit "png") = Raise IndexError /\
  image_file_extension (lit "image/png/x") = Ret (lit "png").
Proof.
split.
- apply (proj1 image_file_extension_edges (lit "png") eq_refl).
- apply (proj2 image_file_extension_edges (lit "image") (lit "png") (lit "x")
           eq_refl eq_refl).
Defined.

(** ** More on the image extractor *)

Lemma str_mem_In x l : str_mem x l = true <-> In x l.
Proof.
induction l as [|y l IH]; cbn [str_mem In]; [split; [discriminate | tauto]|].
rewrite orb_true_iff, IH, str_eqb_eq. split; intros [H|H]; auto.
Qed.

Lemma fold_add_dir_In chain : forall dirs d,
  In d (fold_left add_dir chain dirs) <-> In d dirs \/ In d chain.
Proof.
induction chain as [|c chain IH]; intros dirs d; cbn [fold_left In]; [tauto|].
rewrite IH. unfold add_dir. destruct (str_mem c dirs) eqn:M.
- apply str_mem_In in M. split; [tauto|]. intros [H|[<-|H]]; auto.
- rewrite in_app_iff. cbn [In]. tauto.
Qed.

Lemma makedirs_exist_ok_dirs fs p d :
  In d (fs_dirs (makedirs_exist_ok fs p))
  <-> In d (fs_dirs fs) \/ In d (dir_chain [] p).
Proof. apply fold_add_dir_In. Qed.

Lemma startswith_path_join d f :
  startswith [slash] f = false ->
  startswith (dir_prefix d) (path_join d f) = true.
Proof.
intros F. rewrite (path_join_relative d f F). apply startswith_app.
Qed.

Lemma image_name_relative n ext :
  startswith [slash] (lit "image_" ++ str_of_Z n ++ lit "." ++ ext) = false.
Proof. reflexivity. Qed.

Section ImagesMore.
Variable get_image : str -> image_response.
Variable question_dir : str.

Local Abbreviation client_dir :=
  (path_join question_dir (lit "clientFilesQuestion")).

Lemma handle_image_frame st m st' :
  handle_image get_image question_dir st m = Ret st' ->
  (forall p, startswith (dir_prefix client_dir) p = false ->
             read_file (im_fs st') p = read_file (im_fs st) p) /\
  (forall d, In d (fs_dirs (im_fs st)) -> In d (fs_dirs (im_fs st'))) /\
  (forall d, In d (fs_dirs (im_fs st')) ->
             In d (fs_dirs (im_fs st)) \/ In d (dir_chain [] client_dir)).
Proof.
intros H. unfold handle_image in H.
destruct (negb (startswith (lit "http") (text_of (match_group m 3)))).
{ injection H as <-. split; [reflexivity|]. split; intros d; tauto. }
destruct (negb (img_ok (get_image (text_of (match_group m 3)))));
  [discriminate|].
destruct (image_file_extension _) as [ext| |]; cbn [bind] in H;
  try discriminate.
injection H as <-. cbn [im_fs]. split; [|split].
- intros p P. rewrite read_write_other; [apply read_makedirs_exist_ok|].
  intros ->.
  rewrite startswith_path_join in P by reflexivity. discriminate.
- intros d D. cbn [write_file fs_dirs]. apply makedirs_exist_ok_dirs. left.
  exact D.
- intros d D. cbn [write_file fs_dirs] in D. apply makedirs_exist_ok_dirs in D.
  exact D.
Qed.

Lemma handle_matches_frame ms : forall st st',
  handle_matches get_image question_dir st ms = Ret st' ->
  (forall p, startswith (dir_prefix client_dir) p = false ->
             read_file (im_fs st') p = read_file (im_fs st) p) /\
  (forall d, In d (fs_dirs (im_fs st)) -> In d (fs_dirs (im_fs st'))) /\
  (forall d, In d (fs_dirs (im_fs st')) ->
             In d (fs_dirs (im_fs st)) \/ In d (dir_chain [] client_dir)).
Proof.
induction ms as [|m ms IH]; intros st st' H; cbn [handle_matches] in H.
- injection H as <-. split; [reflexivity|]. split; intros d; tauto.
- destruct (handle_image get_image question_dir st m) as [st1| |] eqn:H1;
    cbn [bind] in H; try discriminate.
  destruct (handle_image_frame _ _ _ H1) as (R1 & K1 & N1).
  destruct (IH _ _ H) as (R & K & N). split; [|split].
  + intros p P. rewrite (R p P). apply (R1 p P).
  + intros d D. apply K, K1, D.
  + intros d D. destruct (N d D) as [D1|D1]; [apply N1, D1 | right; exact D1].
Qed.

Lemma handle_images_frame fs text fs' text' :
  handle_images get_image question_dir fs text = Ret (fs', text') ->
  (forall p, startswith (dir_prefix client_dir) p = false ->
             read_file fs' p = read_file fs p) /\
  (forall d, In d (fs_dirs fs) -> In d (fs_dirs fs')) /\
  (forall d, In d (fs_dirs fs') ->
             In d (fs_dirs fs) \/ In d (dir_chain [] client_dir)).
Proof.
unfold handle_images. intros H.
destruct (handle_matches get_image question_dir _ _) as [st| |] eqn:M;
  cbn [bind] in H; try discriminate.
injection H as <- <-. apply (handle_matches_frame _ _ _ M).
Qed.

(** X18: the extractor writes only below the client files of the
    question: a file at any other path is as it was, no directory goes
    away, and a directory that comes is the client files directory or
    one of the directories above it. *)
Theorem handle_images_writes_client_files_only fs text fs' text' :
  handle_images get_image question_dir fs text = Ret (fs', text') ->
  (forall p, startswith (dir_prefix client_dir) p = false ->
             read_file fs' p = read_file fs p) /\
  (forall d, In d (fs_dirs fs) -> In d (fs_dirs fs')) /\
  (forall d, In d (fs_dirs fs') ->
             In d (fs_dirs fs) \/ In d (dir_chain [] client_dir)).
Proof. apply handle_images_frame. Qed.

Lemma handle_matches_skip ms : forall st,
  (forall m, In m ms ->
             startswith (lit "http") (text_of (match_group m 3)) = false) ->
  handle_matches get_image question_dir st ms = Ret st.
Proof.
induction ms as [|m ms IH]; intros st H; [reflexivity|].
cbn [handle_matches]. unfold handle_image at 1.
rewrite (H m (or_introl eq_refl)). cbn [negb bind].
apply IH. intros m' I. apply H. right. exact I.
Qed.

(** X19: an image whose URL does not start with http is left alone.
    When no img tag of the text has such a URL, and so when the text has
    no img tag at all, the text comes back unchanged and the file system
    is untouched: not even the client files directory is made. *)
Theorem handle_images_skips_other_urls fs text :
  ((forall m, In m (re_finditer img_re text) ->
              startswith (lit "http") (text_of (match_group m 3)) = false) ->
   handle_images get_image question_dir fs text = Ret (fs, text)) /\
  (occurs (lit "<img") text = false ->
   handle_images get_image question_dir fs text = Ret (fs, text)).
Proof.
assert ((forall m, In m (re_finditer img_re text) ->
           startswith (lit "http") (text_of (match_group m 3)) = false) ->
        handle_images get_image question_dir fs text = Ret (fs, text)) as A.
{ intros H. unfold handle_images. rewrite (handle_matches_skip _ _ H).
  reflexivity. }
split; [exact A|]. intros O. apply A.
unfold re_finditer. rewrite <- (app_nil_r text).
rewrite (finditer_from_quiet _ _ (quiet_at_end _ O)). intros m [].
Qed.

(** X20: when the download of the first image of the text fails, the
    extraction raises HTTPError; when it succeeds with a content type
    that has no slash, the extraction raises IndexError. *)
Theorem handle_images_first_download_fails fs t0 i rest :
  plain_img i = true ->
  plain_text true t0 (p_open i) = true ->
  (p_close i = false -> startswith (lit "</p>") rest = false) ->
  (img_ok (get_image (img_url i)) = false ->
   handle_images get_image question_dir fs (t0 ++ img_block i ++ rest)
   = Raise HTTPError) /\
  (img_ok (get_image (img_url i)) = true ->
   lacks slash (content_type (get_image (img_url i))) = true ->
   handle_images get_image question_dir fs (t0 ++ img_block i ++ rest)
   = Raise IndexError).
Proof.
intros P T C.
assert (re_finditer img_re (t0 ++ img_block i ++ rest)
        = mkMatchObj (img_block i) (img_captures i)
            :: finditer_from img_re 0 rest) as F.
{ unfold re_finditer.
  rewrite finditer_from_quiet by (apply (quiet_before_block _ _ _ _ T)).
  destruct (img_block_split i) as (p & E).
  pose proof (match_block i rest P C) as M.
  rewrite E in M at 1. rewrite E at 1.
  change ((lt_sign :: p) ++ rest) with (lt_sign :: p ++ rest) in *.
  apply (finditer_from_match _ _ _ _ _ M). cbn [group0]. exact E. }
destruct (img_groups i) as (G3 & _).
destruct (plain_img_parts i P) as (_ & _ & _ & _ & HT & _).
unfold handle_images. rewrite F. cbn [handle_matches].
split.
- unfold handle_image at 1. rewrite G3. cbn [text_of]. rewrite HT. cbn [negb].
  intros ->. reflexivity.
- unfold handle_image at 1. rewrite G3. cbn [text_of]. rewrite HT. cbn [negb].
  intros -> L. cbn [negb].
  assert (image_file_extension (content_type (get_image (img_url i)))
          = Raise IndexError) as X.
  { unfold image_file_extension.
    destruct (str_eqb _ (lit "image/x-icon")) eqn:E1.
    { apply str_eqb_eq in E1. rewrite E1 in L. discriminate. }
    destruct (str_eqb _ (lit "image/svg+xml")) eqn:E2.
    { apply str_eqb_eq in E2. rewrite E2 in L. discriminate. }
    change "/"%char with slash. rewrite (split_on_lacks _ _ L). reflexivity. }
  rewrite X. reflexivity.
Qed.
End ImagesMore.

Lemma handle_images_writes_client_files_only_witness :
  handle_images ex_image_server (lit "q") ex_repo ex_two_images
  = Ret (fst ex_extracted, snd ex_extracted) /\
  read_file (fst ex_extracted) (lit "repo/infoCourse.json")
  = read_file ex_repo (lit "repo/infoCourse.json").
Proof.
assert (handle_images ex_image_server (lit "q") ex_repo ex_two_images
        = Ret (fst ex_extracted, snd ex_extracted)) as E
  by (vm_compute; reflexivity).
split; [exact E|].
apply (proj1 (handle_images_writes_client_files_only ex_image_server (lit "q")
                ex_repo ex_two_images (fst ex_extracted) (snd ex_extracted) E)
         (lit "repo/infoCourse.json")).
reflexivity.
Defined.

Lemma handle_images_skips_other_urls_witness :
  handle_images ex_image_server (lit "q") ex_fs ex_relative_images
  = Ret (ex_fs, ex_relative_images).
Proof.
apply (proj1 (handle_images_skips_other_urls ex_image_server (lit "q") ex_fs
                ex_relative_images)).
intros m I. vm_compute in I. destruct I as [<-|[<-|[]]]; reflexivity.
Defined.

Lemma handle_images_first_download_fails_witness :
  handle_images ex_failing_server (lit "q") ex_fs
    (lit "See " ++ img_block ex_img_bare ++ lit ".")
  = Raise HTTPError.
Proof.
apply (proj1 (handle_images_first_download_fails ex_failing_server (lit "q")
                ex_fs (lit "See ") ex_img_bare (lit ".") eq_refl eq_refl
                (fun _ => eq_refl))).
reflexivity.
Defined.

(** ** Names that are free *)

Lemma probe_name_ret fs dir base fuel : forall start name,
  probe_name fs dir base fuel start = Ret name ->
  exists n,
    start <= n /\ name = base ++ lit "_" ++ str_of_Z n /\
    path_exists fs (path_join dir name) = false /\
    forall m, start <= m < n ->
      path_exists fs (path_join dir (base ++ lit "_" ++ str_of_Z m)) = true.
Proof.
induction fuel as [|fuel IH]; intros start name H; [discriminate|].
cbn [probe_name] in H.
destruct (path_exists fs (path_join dir (base ++ lit "_" ++ str_of_Z start)))
  eqn:E.
- destruct (IH _ _ H) as (n & L & N & F & B). exists n.
  split; [lia|]. split; [exact N|]. split; [exact F|].
  intros m M. destruct (Z.eq_dec m start) as [->|D]; [exact E|].
  apply B. lia.
- injection H as <-. exists start. split; [lia|]. split; [reflexivity|].
  split; [exact E|]. intros m M. lia.
Qed.

Lemma probe_name_finds fs dir base fuel : forall start n,
  start <= n -> (Z.to_nat (n - start) < fuel)%nat ->
  path_exists fs (path_join dir (base ++ lit "_" ++ str_of_Z n)) = false ->
  exists name, probe_name fs dir base fuel start = Ret name.
Proof.
induction fuel as [|fuel IH]; intros start n L F E; [lia|].
cbn [probe_name].
destruct (path_exists fs (path_join dir (base ++ lit "_" ++ str_of_Z start)))
  eqn:S; [|eauto].
destruct (Z.eq_dec n start) as [->|D]; [congruence|].
apply (IH (start + 1) n); [lia | lia | exact E].
Qed.


(** X21: the probe for a free name returns the base name with the first
    suffix, counted up from the start, under which nothing exists in the
    directory: every smaller suffix is taken.  It returns whenever such
    a suffix lies within reach of the fuel. *)
Theorem probe_name_first_free fs dir base fuel start :
  (forall name,
      probe_name fs dir base fuel start = Ret name ->
      exists n,
        start <= n /\ name = base ++ lit "_" ++ str_of_Z n /\
        path_exists fs (path_join dir name) = false /\
        forall m, start <= m < n ->
          path_exists fs (path_join dir (base ++ lit "_" ++ str_of_Z m)) = true) /\
  (forall n,
      start <= n -> (Z.to_nat (n - start) < fuel)%nat ->
      path_exists fs (path_join dir (base ++ lit "_" ++ str_of_Z n)) = false ->
      exists name, probe_name fs dir base fuel start = Ret name).
Proof.
split; [apply probe_name_ret | apply probe_name_finds].
Qed.

Lemma dir_name_slash d : dir_name (d ++ [slash]) = dir_name d.
Proof.
unfold dir_name. rewrite rev_app_distr. cbn [rev app drop_slashes].
rewrite ascii_eqb_refl. reflexivity.
Qed.

Lemma path_exists_empty_name fs d :
  is_dir fs d = true -> path_exists fs (path_join d []) = true.
Proof.
intros D. unfold path_exists. apply orb_true_iff. left.
unfold path_join. cbn [startswith]. destruct d as [|x d]; [exact D|].
destruct (endswith [slash] (x :: d)).
- replace ((x :: d) ++ []) with (x :: d) by (symmetry; apply app_nil_r).
  exact D.
- replace ((x :: d) ++ [slash] ++ []) with ((x :: d) ++ [slash])
    by (cbn [app]; reflexivity).
  unfold is_dir in *. rewrite dir_name_slash. exact D.
Qed.

Section NamesAndErrors.
Variable repr_float : Q -> str.
Variable json_dumps_question : question -> str.
Variable uuid4 : nat -> str.
Variable get_image : str -> image_response.
Variable fuel : nat.
Variable quiz_slug : str.
Variable questions_dir : str.
Variable topic : str.

Local Abbreviation process :=
  (process_question repr_float json_dumps_question uuid4 get_image fuel
     quiz_slug questions_dir topic).
Local Abbreviation name_for := (question_name_for fuel questions_dir).

Lemma question_name_for_ret fs title name :
  name_for fs title = Ret name ->
  path_exists fs (path_join questions_dir name) = false /\
  (name = file_name_only title \/
   exists n, 1 <= n /\ name = file_name_only title ++ lit "_" ++ str_of_Z n).
Proof.
unfold question_name_for.
destruct (path_exists fs (path_join questions_dir (file_name_only title)))
  eqn:E.
- intros H. apply probe_name_ret in H. destruct H as (n & L & N & F & _).
  split; [exact F|]. right. exists n. split; [exact L | exact N].
- intros H. injection H as <-. split; [exact E|]. left. reflexivity.
Qed.

(** X22: the directory of a question is new: the name chosen for a
    title is the cleaned title, or the cleaned title with a suffix _n
    from 1 on, nothing exists under it in the questions directory, and
    making the directory does not fail. *)
Theorem question_directory_is_new fs title name :
  name_for fs title = Ret name ->
  (name = file_name_only title \/
   exists n, 1 <= n /\ name = file_name_only title ++ lit "_" ++ str_of_Z n) /\
  path_exists fs (path_join questions_dir name) = false /\
  makedirs fs (path_join questions_dir name)
  = Ret (makedirs_exist_ok fs (path_join questions_dir name)).
Proof.
intros H. destruct (question_name_for_ret _ _ _ H) as [F N].
split; [exact N|]. split; [exact F|]. unfold makedirs. rewrite F. reflexivity.
Qed.

(** X23: a title in which no letter and no digit stands cleans to the
    empty name, which names the questions directory itself; that
    directory being there, the question goes to a directory _n, with n
    from 1 on. *)
Theorem title_without_letters fs title name :
  file_name_only title = [] ->
  is_dir fs questions_dir = true ->
  name_for fs title = Ret name ->
  exists n, 1 <= n /\ name = lit "_" ++ str_of_Z n /\
            path_exists fs (path_join questions_dir name) = false.
Proof.
intros E D. unfold question_name_for. rewrite E.
rewrite (path_exists_empty_name _ _ D). intros H.
apply probe_name_ret in H. destruct H as (n & L & N & F & _).
exists n. split; [exact L|]. split; [exact N | exact F].
Qed.

(** X24: a question that names a group the reconciler did not return (a
    group whose body was empty) cannot be confirmed: once the operator
    has typed a title for it, the lookup of its group raises KeyError. *)
Theorem unresolved_group_raises_KeyError st q title rest name k :
  ms_inputs st = title :: rest ->
  title <> [] ->
  name_for (ms_fs st) title = Ret name ->
  group_key q = Some k ->
  Dict.get k (ms_groups st) = None ->
  process st q = Raise KeyError.
Proof.
intros I T N G D. unfold process_question. rewrite I. cbn [input bind].
destruct title as [|c title]; [congruence|]. cbn [non_empty negb].
rewrite N. cbn [bind].
destruct (question_name_for_ret _ _ _ N) as [F _].
unfold makedirs. rewrite F. cbn [bind].
unfold add_alternative. unfold group_key in G.
destruct (quiz_group_id q) as [k'|]; [|discriminate].
destruct (k' =? 0); [discriminate|]. injection G as ->. rewrite D.
reflexivity.
Qed.
End NamesAndErrors.

Lemma probe_name_first_free_witness :
  probe_name ex_fs_taken (lit "repo/questions/Quiz1") (lit "Essay") 3 1
  = Ret (lit "Essay_2") /\
  exists n,
    1 <= n /\ lit "Essay_2" = lit "Essay" ++ lit "_" ++ str_of_Z n /\
    path_exists ex_fs_taken
      (path_join (lit "repo/questions/Quiz1") (lit "Essay_2")) = false /\
    forall m, 1 <= m < n ->
      path_exists ex_fs_taken
        (path_join (lit "repo/questions/Quiz1")
           (lit "Essay" ++ lit "_" ++ str_of_Z m)) = true.
Proof.
split; [reflexivity|].
apply (proj1 (probe_name_first_free ex_fs_taken (lit "repo/questions/Quiz1")
                (lit "Essay") 3 1) (lit "Essay_2") eq_refl).
Defined.

Lemma question_directory_is_new_witness :
  question_name_for 3 (lit "repo/questions/Quiz1") ex_fs_taken (lit "Essay!")
  = Ret (lit "Essay_2") /\
  path_exists ex_fs_taken
    (path_join (lit "repo/questions/Quiz1") (lit "Essay_2")) = false.
Proof.
split; [reflexivity|].
apply (question_directory_is_new 3 (lit "repo/questions/Quiz1") ex_fs_taken
         (lit "Essay!") (lit "Essay_2") eq_refl).
Defined.

Lemma title_without_letters_witness :
  question_name_for 3 (lit "repo/questions/Quiz1") ex_fs (lit "?!")
  = Ret (lit "_1") /\
  exists n, 1 <= n /\ lit "_1" = lit "_" ++ str_of_Z n /\
            path_exists ex_fs
              (path_join (lit "repo/questions/Quiz1") (lit "_1")) = false.
Proof.
split; [reflexivity|].
apply (title_without_letters 3 (lit "repo/questions/Quiz1") ex_fs (lit "?!")
         (lit "_1") eq_refl eq_refl eq_refl).
Defined.

Lemma unresolved_group_raises_KeyError_witness :
  ex_process (ex_state [lit "Title"] []) (ex_q 2 (Some 40)) = Raise KeyError.
Proof.
apply (unresolved_group_raises_KeyError ex_repr_float ex_json_dumps ex_uuid4
         ex_get_image 3 (lit "Quiz1") (lit "repo/questions/Quiz1") (lit "None")
         (ex_state [lit "Title"] []) (ex_q 2 (Some 40)) (lit "Title") []
         (lit "Title") 40 eq_refl).
- intros H. vm_compute in H. discriminate H.
- reflexivity.
- reflexivity.
- reflexivity.
Defined.

(** ** The errors of a question *)






Section ErrorsOfAQuestion.
Variable repr_float : Q -> str.
Variable json_dumps_question : question -> str.





Variable uuid4 : nat -> str.
Variable get_image : str -> image_response.
Variable fuel : nat.
Variable quiz_slug : str.
Variable questions_dir : str.
Variable topic : str.

Local Abbreviation process :=
  (process_question repr_float json_dumps_question uuid4 get_image fuel
     quiz_slug questions_dir topic).

End ErrorsOfAQuestion.


(** ** The files of a question *)

Lemma dir_prefix_client d :
  startswith (dir_prefix d)
    (dir_prefix (path_join d (lit "clientFilesQuestion"))) = true.
Proof.
rewrite (path_join_relative d (lit "clientFilesQuestion")) by reflexivity.
unfold dir_prefix at 2.
destruct (dir_prefix d ++ lit "clientFilesQuestion") eqn:E.
- destruct (dir_prefix d); discriminate E.
- rewrite <- E. destruct (endswith [slash] _);
    [|rewrite <- app_assoc]; apply startswith_app.
Qed.

Lemma outside_client_dir d p :
  startswith (dir_prefix d) p = false ->
  startswith (dir_prefix (path_join d (lit "clientFilesQuestion"))) p = false.
Proof.
intros O. destruct (startswith (dir_prefix (path_join d _)) p) eqn:S;
  [|reflexivity].
rewrite (startswith_trans _ _ _ (dir_prefix_client d) S) in O. discriminate.
Qed.

Lemma outside_file d x p :
  startswith [slash] x = false ->
  startswith (dir_prefix d) p = false -> p <> path_join d x.
Proof.
intros X O ->. rewrite startswith_path_join in O by exact X. discriminate.
Qed.

Section FilesOfAQuestion.
Variable repr_float : Q -> str.
Variable json_dumps_question : question -> str.
Variable uuid4 : nat -> str.
Variable get_image : str -> image_response.
Variable fuel : nat.
Variable quiz_slug : str.
Variable questions_dir : str.
Variable topic : str.

Local Abbreviation process :=
  (process_question repr_float json_dumps_question uuid4 get_image fuel
     quiz_slug questions_dir topic).

(** X26: a confirmed question is sanitized, then its images are
    extracted, then it is rendered, in that order, with the lines the
    operator has left.  Its markup is in question.html of its directory;
    server.py is written there exactly for a calculated question; every
    file outside that directory is as it was. *)
Theorem confirmed_question_files st q st' title rest :
  ms_inputs st = title :: rest ->
  title <> [] ->
  process st q = Ret st' ->
  exists name fs1 fs2 text template,
    question_name_for fuel questions_dir (ms_fs st) title = Ret name /\
    handle_images get_image (path_join questions_dir name) fs1
      (clean_question_text (question_text q)) = Ret (fs2, text) /\
    render_template repr_float json_dumps_question q text rest
    = Ret (template, ms_inputs st') /\
    read_file (ms_fs st')
      (path_join (path_join questions_dir name) (lit "question.html"))
    = Some (Text template) /\
    (if has_type q "calculated_question"
     then exists script,
         server_py repr_float q = Ret script /\
         read_file (ms_fs st')
           (path_join (path_join questions_dir name) (lit "server.py"))
         = Some (Text script)
     else read_file (ms_fs st')
            (path_join (path_join questions_dir name) (lit "server.py"))
          = read_file (ms_fs st)
              (path_join (path_join questions_dir name) (lit "server.py"))) /\
    (forall p,
        startswith (dir_prefix (path_join questions_dir name)) p = false ->
        read_file (ms_fs st') p = read_file (ms_fs st) p).
Proof.
intros I T H. unfold process_question in H. rewrite I in H.
cbn [input bind] in H.
destruct title as [|c title]; [congruence|]. cbn [non_empty negb] in H.
destruct (question_name_for fuel questions_dir (ms_fs st) (c :: title))
  as [name| |] eqn:N; cbn [bind] in H; try discriminate.
set (qdir := path_join questions_dir name) in *.
destruct (makedirs (ms_fs st) qdir) as [fs0| |] eqn:M; cbn [bind] in H;
  try discriminate.
destruct (add_alternative _ _ _ _) as [[groups plq]| |]; cbn [bind] in H;
  try discriminate.
destruct (handle_images _ _ _ _) as [[fs2 text2]| |] eqn:HI; cbn [bind] in H;
  try discriminate.
destruct (render_template _ _ _ _ _) as [[template inputs]| |] eqn:R;
  cbn [bind] in H; try discriminate.
exists name. eexists. exists fs2, text2, template.
split; [reflexivity|]. split; [exact HI|].
destruct (handle_images_frame _ _ _ _ _ _ HI) as (Frame & _).
(* what a path outside the directory holds before the last writes *)
assert (forall p, startswith (dir_prefix qdir) p = false ->
                  read_file fs2 p = read_file (ms_fs st) p) as Out2.
{ intros p O. rewrite (Frame p (outside_client_dir _ _ O)).
  rewrite read_write_other by (apply outside_file; [reflexivity | exact O]).
  apply (read_makedirs _ _ _ _ M). }
assert (read_file fs2 (path_join qdir (lit "server.py"))
        = read_file (ms_fs st) (path_join qdir (lit "server.py"))) as Srv2.
{ rewrite (handle_images_read _ _ _ _ _ _ _ HI) by reflexivity.
  rewrite read_write_other
    by (apply path_join_inj; [reflexivity | reflexivity | discriminate]).
  apply (read_makedirs _ _ _ _ M). }
destruct (has_type q "calculated_question").
- destruct (server_py repr_float q) as [script| |]; cbn [bind] in H;
    try discriminate.
  injection H as <-. cbn [ms_inputs ms_fs].
  split; [exact R|]. split; [|split].
  + rewrite read_write_other
      by (apply path_join_inj; [reflexivity | reflexivity | discriminate]).
    apply read_write_same.
  + exists script. split; [reflexivity | apply read_write_same].
  + intros p O.
    rewrite !read_write_other
      by (apply outside_file; [reflexivity | exact O]).
    apply (Out2 p O).
- cbn [bind] in H. injection H as <-. cbn [ms_inputs ms_fs].
  split; [exact R|]. split; [|split].
  + apply read_write_same.
  + rewrite read_write_other
      by (apply path_join_inj; [reflexivity | reflexivity | discriminate]).
    exact Srv2.
  + intros p O.
    rewrite read_write_other by (apply outside_file; [reflexivity | exact O]).
    apply (Out2 p O).
Qed.
End FilesOfAQuestion.

Lemma confirmed_question_files_witness :
  exists name template,
    question_name_for 3 (lit "repo/questions/Quiz1") ex_fs (lit "My Essay!")
    = Ret name /\
    read_file (ms_fs (ex_after (ex_state [lit "My Essay!"] []) [ex_q 1 None]))
      (path_join (path_join (lit "repo/questions/Quiz1") name)
         (lit "question.html"))
    = Some (Text template).
Proof.
assert (lit "My Essay!" <> []) as T
  by (intros H; vm_compute in H; discriminate H).
destruct (confirmed_question_files ex_repr_float ex_json_dumps ex_uuid4
            ex_get_image 3 (lit "Quiz1") (lit "repo/questions/Quiz1")
            (lit "None") (ex_state [lit "My Essay!"] []) (ex_q 1 None)
            (ex_after (ex_state [lit "My Essay!"] []) [ex_q 1 None])
            (lit "My Essay!") [] eq_refl T ex_process_essay)
  as (name & fs1 & fs2 & text & template & N & _ & _ & R & _).
exists name, template. split; [exact N | exact R].
Defined.

(** ** The assessment *)




Section Assessment.
Variable repr_float : Q -> str.
Variable json_dumps_question : question -> str.
Variable uuid4 : nat -> str.
Variable get_image : str -> image_response.
Variable get_group : str -> response (option group).
Variable get_questions : str -> response (list question).
Variable fuel : nat.

End Assessment.


(** ** The answers of a blank *)

Lemma first_seen_In k l : In k (first_seen l) <-> In k l.
Proof.
induction l as [|x l IH]; cbn [first_seen In]; [tauto|].
rewrite filter_In, IH. split.
- intros [H|[H _]]; auto.
- intros [H|H]; [left; exact H|].
  destruct (str_eqb k x) eqn:E.
  + apply str_eqb_eq in E. left. congruence.
  + right. split; [exact H | reflexivity].
Qed.

Lemma first_seen_NoDup l : NoDup (first_seen l).
Proof.
induction l as [|x l IH]; cbn [first_seen]; constructor.
- intros H. apply filter_In in H. destruct H as [_ H].
  rewrite str_eqb_refl in H. discriminate.
- apply NoDup_filter, IH.
Qed.

Lemma first_seen_snoc l k :
  first_seen (l ++ [k]) = first_seen l ++ (if str_mem k l then [] else [k]).
Proof.
induction l as [|x l IH]; [reflexivity|].
cbn [app first_seen str_mem]. rewrite IH, filter_app. cbn [app]. f_equal.
f_equal. destruct (str_eqb k x) eqn:E; cbn [orb].
- destruct (str_mem k l); [reflexivity|]. cbn [filter]. rewrite E. reflexivity.
- destruct (str_mem k l); [reflexivity|]. cbn [filter]. rewrite E. reflexivity.
Qed.

Lemma blank_append_spec k a (f : str -> list answer) D :
  NoDup D ->
  blank_append k a (map (fun k' => (k', f k')) D)
  = map (fun k' => (k', if str_eqb k k' then f k' ++ [a] else f k')) D
    ++ (if str_mem k D then [] else [(k, [a])]).
Proof.
induction D as [|d D IH]; intros N; [reflexivity|].
inversion N as [|? ? ND N']; subst.
cbn [map blank_append str_mem]. destruct (str_eqb k d) eqn:E; cbn [orb app].
- apply str_eqb_eq in E. subst d. rewrite app_nil_r. f_equal.
  apply map_ext_in. intros k' I.
  destruct (str_eqb k k') eqn:E'; [|reflexivity].
  apply str_eqb_eq in E'. subst k'. contradiction.
- rewrite (IH N'). reflexivity.
Qed.

Lemma by_blank_id_snoc l a :
  by_blank_id (l ++ [a]) = blank_append (a_blank_id a) a (by_blank_id l).
Proof. unfold by_blank_id. rewrite fold_left_app. reflexivity. Qed.

Lemma str_mem_map_blank k l :
  str_mem k (map a_blank_id l) = false -> filter (has_blank k) l = [].
Proof.
induction l as [|a l IH]; [reflexivity|]. cbn [map str_mem filter].
intros H. apply orb_false_iff in H. destruct H as [E M]. unfold has_blank at 1.
destruct (str_eqb (a_blank_id a) k) eqn:E'.
- apply str_eqb_eq in E'. rewrite E', str_eqb_refl in E. discriminate.
- apply IH, M.
Qed.

Lemma by_blank_id_spec l :
  by_blank_id l
  = map (fun k => (k, filter (has_blank k) l)) (first_seen (map a_blank_id l)).
Proof.
induction l as [|a l IH] using rev_ind; [reflexivity|].
rewrite by_blank_id_snoc, IH, map_app. cbn [map]. rewrite first_seen_snoc.
rewrite (blank_append_spec _ _ _ _ (first_seen_NoDup _)).
rewrite map_app. f_equal.
- apply map_ext. intros k. f_equal. rewrite filter_app. cbn [filter].
  destruct (has_blank k a) eqn:E; unfold has_blank in E; rewrite E;
    [reflexivity | symmetry; apply app_nil_r].
- destruct (str_mem (a_blank_id a) (map a_blank_id l)) eqn:M.
  + assert (str_mem (a_blank_id a) (first_seen (map a_blank_id l)) = true) as M'
      by (apply str_mem_In, first_seen_In, str_mem_In, M).
    rewrite M'. reflexivity.
  + assert (str_mem (a_blank_id a) (first_seen (map a_blank_id l)) = false)
      as M'.
    { destruct (str_mem _ (first_seen _)) eqn:X; [|reflexivity].
      apply (proj1 (str_mem_In _ _)) in X.
      apply (proj1 (first_seen_In _ _)) in X.
      apply (proj2 (str_mem_In _ _)) in X. rewrite X in M. discriminate. }
    rewrite M'. cbn [map]. rewrite filter_app, (str_mem_map_blank _ _ M).
    cbn [filter app]. unfold has_blank. rewrite str_eqb_refl. reflexivity.
Qed.

(** X28: the answers of a question are grouped by blank: the blanks
    stand in the order in which they are first met among the answers,
    each once, each with all the answers that carry its id, in the order
    of the answers. *)
Theorem by_blank_id_groups_the_answers l :
  by_blank_id l
  = map (fun k => (k, filter (has_blank k) l)) (first_seen (map a_blank_id l))
  /\ NoDup (map fst (by_blank_id l)) /\
  forall k, In k (map fst (by_blank_id l)) <-> In k (map a_blank_id l).
Proof.
split; [apply by_blank_id_spec|]. rewrite by_blank_id_spec, map_map. cbn [fst].
rewrite map_id. split; [apply first_seen_NoDup|]. intros k. apply first_seen_In.
Qed.

(** ** Placeholders *)

Lemma replace_from_skip old new p s :
  replace_from old new (List.length p) (p ++ s) = replace_from old new 0 s.
Proof. induction p as [|x p IH]; [reflexivity | exact IH]. Qed.

Lemma replace_from_here y l new s :
  replace_from (y :: l) new 0 ((y :: l) ++ s)
  = new ++ replace_from (y :: l) new 0 s.
Proof.
cbn [app replace_from].
change (startswith (y :: l) (y :: l ++ s))
  with (startswith (y :: l) ((y :: l) ++ s)).
rewrite startswith_app. cbn [List.length]. rewrite replace_from_skip.
reflexivity.
Qed.

Lemma replace_from_step y l new x s :
  startswith (y :: l) (x :: s) = false ->
  replace_from (y :: l) new 0 (x :: s) = x :: replace_from (y :: l) new 0 s.
Proof. intros H. cbn [replace_from]. rewrite H. reflexivity. Qed.

Lemma replace_from_plain y l new t s :
  lacks y t = true ->
  replace_from (y :: l) new 0 (t ++ s) = t ++ replace_from (y :: l) new 0 s.
Proof.
intros L. induction t as [|x t IH]; [reflexivity|].
rewrite lacks_cons in L. apply andb_true_iff in L. destruct L as [X L].
apply not_char_neq in X. cbn [app].
rewrite replace_from_step by (apply startswith_other; exact X).
f_equal. apply IH, L.
Qed.

Lemma same_name k n s :
  lacks rbracket k = true -> lacks rbracket n = true ->
  startswith (k ++ [rbracket]) (n ++ rbracket :: s) = true -> k = n.
Proof.
revert n. induction k as [|x k IH]; intros n K N H.
- destruct n as [|y n]; [reflexivity|]. cbn [app startswith] in H.
  apply andb_true_iff in H. destruct H as [H _]. apply ascii_eqb_eq in H.
  rewrite lacks_cons in N. apply andb_true_iff in N. destruct N as [N _].
  apply not_char_neq in N. congruence.
- rewrite lacks_cons in K. apply andb_true_iff in K. destruct K as [X K].
  destruct n as [|y n]; cbn [app startswith] in H;
    apply andb_true_iff in H; destruct H as [H H'].
  + apply ascii_eqb_eq in H. apply not_char_neq in X. congruence.
  + apply ascii_eqb_eq in H. subst y. f_equal.
    rewrite lacks_cons in N. apply andb_true_iff in N. destruct N as [_ N].
    apply (IH n K N H').
Qed.

Lemma replace_template k new cs :
  lacks rbracket k = true ->
  forallb plain_chunk cs = true ->
  replace (lit "[" ++ k ++ lit "]") new (template_text cs)
  = template_text (map (put k new) cs).
Proof.
intros K. unfold replace, template_text.
change (lit "[" ++ k ++ lit "]") with (lbracket :: k ++ [rbracket]).
induction cs as [|c cs IH]; intros P; [reflexivity|].
cbn [forallb] in P. apply andb_true_iff in P. destruct P as [C P].
cbn [map List.concat]. destruct c as [t|n]; cbn [plain_chunk put chunk_text] in *.
- rewrite (replace_from_plain _ _ _ _ _ C). f_equal. apply IH, P.
- apply andb_true_iff in C. destruct C as [NL NR].
  change (lit "[" ++ n ++ lit "]") with (lbracket :: n ++ [rbracket]).
  destruct (str_eqb n k) eqn:E.
  + apply str_eqb_eq in E. subst n. cbn [chunk_text].
    rewrite replace_from_here. f_equal. apply IH, P.
  + cbn [chunk_text].
    change (lit "[" ++ n ++ lit "]") with (lbracket :: n ++ [rbracket]).
    cbn [app]. rewrite replace_from_step.
    * f_equal. rewrite <- app_assoc.
      assert (lacks lbracket (n ++ [rbracket]) = true) as L
        by (rewrite lacks_app, NL; reflexivity).
      rewrite app_assoc. rewrite (replace_from_plain _ _ _ _ _ L).
      f_equal. apply IH, P.
    * cbn [startswith]. rewrite ascii_eqb_refl. cbn [andb].
      destruct (startswith (k ++ [rbracket]) ((n ++ [rbracket]) ++ _)) eqn:S;
        [|reflexivity].
      rewrite <- app_assoc in S. cbn [app] in S.
      apply (same_name _ _ _ K NR) in S. subst k.
      rewrite str_eqb_refl in E. discriminate.
Qed.

Lemma fold_replace subs : forall cs,
  forallb plain_chunk cs = true ->
  forallb (fun kv : str * str =>
             lacks rbracket (fst kv) && lacks lbracket (snd kv)) subs = true ->
  fold_left
    (fun text kv => replace (lit "[" ++ fst kv ++ lit "]") (snd kv) text)
    subs (template_text cs)
  = filled subs cs.
Proof.
induction subs as [|[k new] subs IH]; intros cs P S.
- cbn [fold_left]. unfold filled, template_text. f_equal.
  apply map_ext. intros [t|n]; reflexivity.
- cbn [forallb fst snd] in S. apply andb_true_iff in S. destruct S as [KN S].
  apply andb_true_iff in KN. destruct KN as [K N].
  cbn [fold_left fst snd]. rewrite (replace_template _ _ _ K P).
  rewrite IH; [| |exact S].
  + unfold filled. f_equal. rewrite map_map. apply map_ext.
    intros [t|n]; cbn [put fill first_binding]; [reflexivity|].
    destruct (str_eqb n k); reflexivity.
  + rewrite forallb_forall in *. intros c I. apply in_map_iff in I.
    destruct I as ([t|n] & <- & I); cbn [put].
    * apply (P _ I).
    * destruct (str_eqb n k); [exact N | apply (P _ I)].
Qed.

Lemma fold_left_map {A B C} (f : A -> C -> A) (g : B -> C) (l : list B) :
  forall a, fold_left f (map g l) a = fold_left (fun a b => f a (g b)) l a.
Proof. induction l as [|b l IH]; intros a; [reflexivity | apply IH]. Qed.

Lemma lacks_concat_map {A} c (f : A -> str) (l : list A) :
  (forall a, In a l -> lacks c (f a) = true) ->
  lacks c (List.concat (map f l)) = true.
Proof.
induction l as [|a l IH]; intros H; [reflexivity|].
cbn [map List.concat]. rewrite lacks_app, (H a (or_introl eq_refl)).
apply IH. intros b I. apply H. right. exact I.
Qed.

Lemma lacks_dropdown blank l :
  lacks lbracket blank = true ->
  (forall a, In a l -> lacks lbracket (a_text a) = true) ->
  lacks lbracket (dropdown_of blank l) = true.
Proof.
intros B T. unfold dropdown_of, attr. rewrite !lacks_app, B.
rewrite lacks_concat_map; [reflexivity|].
intros a I. rewrite !lacks_app, (T a I).
destruct (number_ltb (NInt 0) (a_weight a)); reflexivity.
Qed.

(** X29: in a question text made of pieces of text and placeholders in
    square brackets, the substitutions fill the placeholders and leave
    the rest: for a calculated question every placeholder that names a
    variable becomes the parameter reference of that variable, for a
    multiple dropdowns question every placeholder that names a blank
    becomes the dropdown of that blank; a placeholder of any other name
    stays as it is. *)
Theorem placeholders_are_filled q cs :
  forallb plain_chunk cs = true ->
  (forallb (fun v => lacks lbracket (v_name v) && lacks rbracket (v_name v))
     (variables q) = true ->
   params_text q (template_text cs) = filled (map param_of (variables q)) cs) /\
  (forallb (fun a => lacks lbracket (a_blank_id a) && lacks rbracket (a_blank_id a)
                     && lacks lbracket (a_text a))
     (answers q) = true ->
   dropdowns_text q (template_text cs)
   = filled (map dropdown_for (by_blank_id (answers q))) cs).
Proof.
intros P. split.
- intros V. unfold params_text.
  rewrite <- (fold_replace _ _ P).
  + rewrite fold_left_map. reflexivity.
  + rewrite forallb_forall in *. intros kv I. apply in_map_iff in I.
    destruct I as (v & <- & I). specialize (V v I).
    apply andb_true_iff in V. destruct V as [L R]. cbn [param_of fst snd].
    rewrite R, !lacks_app, L. reflexivity.
- intros A. unfold dropdowns_text.
  rewrite <- (fold_replace _ _ P).
  + rewrite fold_left_map. reflexivity.
  + rewrite forallb_forall in *. intros kv I. apply in_map_iff in I.
    destruct I as ([k l] & <- & I). cbn [dropdown_for fst snd].
    rewrite by_blank_id_spec in I. apply in_map_iff in I.
    destruct I as (k' & E & I). injection E as -> <-.
    apply first_seen_In, in_map_iff in I. destruct I as (a & <- & I).
    pose proof (A a I) as Aa. apply andb_true_iff in Aa.
    destruct Aa as [Aa _]. apply andb_true_iff in Aa. destruct Aa as [L R].
    rewrite R. cbn [andb]. apply lacks_dropdown; [exact L|].
    intros b Ib. apply filter_In in Ib. destruct Ib as [Ib _].
    pose proof (A b Ib) as Ab. apply andb_true_iff in Ab. apply Ab.
Qed.

Lemma placeholders_are_filled_witness :
  params_text ex_calculated (lit "What is [a] + [b]?")
  = lit "What is {{params.a}} + {{params.b}}?" /\
  dropdowns_text ex_dropdowns (lit "Capital of France: [b1]")
  = lit "Capital of France: "
      ++ dropdown_of (lit "b1") [ex_answer "Paris" 100 "b1"].
Proof.
split.
- apply (proj1 (placeholders_are_filled ex_calculated
                  [CText (lit "What is "); CHole (lit "a"); CText (lit " + ");
                   CHole (lit "b"); CText (lit "?")] eq_refl) eq_refl).
- apply (proj2 (placeholders_are_filled ex_dropdowns
                  [CText (lit "Capital of France: "); CHole (lit "b1")]
                  eq_refl) eq_refl).
Defined.

(** ** The name of the answer of a calculated question *)

Lemma lstrip_head s x r : lstrip s = x :: r -> is_space x = false.
Proof.
induction s as [|y s IH]; [discriminate|]. cbn [lstrip].
destruct (is_space y) eqn:E; [exact IH|]. intros H. injection H as -> _.
exact E.
Qed.

Lemma lstrip_suffix s : exists p, s = p ++ lstrip s.
Proof.
induction s as [|y s IH]; [exists []; reflexivity|]. cbn [lstrip].
destruct (is_space y); [|exists []; reflexivity].
destruct IH as (p & E). exists (y :: p). cbn [app]. f_equal. exact E.
Qed.

Lemma strip_ends s :
  (forall x r, strip s = x :: r -> is_space x = false) /\
  (forall x r, strip s = r ++ [x] -> is_space x = false).
Proof.
unfold strip. split.
- intros x r H.
  destruct (lstrip_suffix (rev (lstrip s))) as (p & E).
  apply (f_equal (@rev ascii)) in E. rewrite rev_involutive, rev_app_distr in E.
  rewrite H in E. cbn [app] in E. apply (lstrip_head _ _ _ E).
- intros x r H. apply (f_equal (@rev ascii)) in H.
  rewrite rev_involutive, rev_app_distr in H. cbn [rev app] in H.
  apply (lstrip_head _ _ _ H).
Qed.

(** X30: the answer of a calculated question is named by the last
    formula: the name is what stands left of its first equals sign, or
    the whole formula when it has none, without the white space around
    it.  A question without formulas has no name: IndexError. *)
Theorem answers_name_is_the_left_hand_side q :
  (formulas q = [] -> answers_name q = Raise IndexError) /\
  (forall fs lhs rhs,
      formulas q = fs ++ [lhs ++ "="%char :: rhs] ->
      lacks "="%char lhs = true ->
      answers_name q = Ret (strip lhs)) /\
  (forall fs f,
      formulas q = fs ++ [f] -> lacks "="%char f = true ->
      answers_name q = Ret (strip f)) /\
  (forall name,
      answers_name q = Ret name ->
      (forall x r, name = x :: r -> is_space x = false) /\
      (forall x r, name = r ++ [x] -> is_space x = false)).
Proof.
unfold answers_name. split; [|split; [|split]].
- intros ->. reflexivity.
- intros fs lhs rhs -> L. rewrite rev_app_distr. cbn [rev app].
  rewrite (split_on_head _ _ _ L). reflexivity.
- intros fs f -> L. rewrite rev_app_distr. cbn [rev app].
  rewrite (split_on_lacks _ _ L). reflexivity.
- intros name. destruct (rev (formulas q)) as [|f l]; [discriminate|].
  destruct (split_on "=" f) as [|lhs l']; [discriminate|].
  intros H. injection H as <-. apply strip_ends.
Qed.

Lemma answers_name_is_the_left_hand_side_witness :
  answers_name ex_calculated = Ret (lit "s").
Proof.
apply (proj1 (proj2 (answers_name_is_the_left_hand_side ex_calculated))
         [] (lit "s ") (lit " a + b") eq_refl eq_refl).
Defined.
